(** * The inotify event publisher (osquery/events/linux/inotify.cpp)

    A shallow embedding of [INotifyEventPublisher]: the watch table, the
    path resolver, the reader loop and the dispatch filter, written as
    state-passing functions over a record of the publisher's members.

    Conventions.
    - C++ integers are [Z]; bit tests are [Z.land]; the subtraction of
      times in [handleOverflow], done in [size_t], wraps around.
    - [std::string] is [string]; positions are [nat], [npos] is [None].
    - [std::map] members that are only looked up, inserted and erased are
      [gmap]s; [kMaskActions], which is iterated, is a key-ordered
      association list, because the iteration order decides the result.
    - A [shared_ptr<INotifySubscriptionContext>] is an identifier into a
      store of contexts kept in the publisher state, so that the table,
      the subscription list and the event contexts alias one object.
    - Calls that leave the process (inotify, close, free, the logger, the
      subscriber callbacks) are appended to a trace; what the kernel,
      the filesystem and the clock answer is read from an [Env]. *)

From Stdlib Require Import ZArith Ascii String List Bool Lia.
From stdpp Require Import gmap strings list fin_maps sorting.
Import ListNotations.

Local Open Scope string_scope.
Local Open Scope list_scope.
Local Open Scope Z_scope.

(** ** std::string operations used by the publisher *)

Module Str.

(** [pat] occurs in [s] at position 0. *)
Fixpoint starts_with (pat s : string) : bool :=
  match pat, s with
  | EmptyString, _ => true
  | String a pat', String b s' => Ascii.eqb a b && starts_with pat' s'
  | String _ _, EmptyString => false
  end.

(** [s.find(pat)]: position of the first occurrence, [None] for [npos]. *)
Fixpoint find (pat s : string) : option nat :=
  if starts_with pat s then Some 0%nat
  else match s with
       | EmptyString => None
       | String _ s' => option_map S (find pat s')
       end.

(** [s.find(c)] for a single character. *)
Definition find_char (c : ascii) (s : string) : option nat :=
  find (String c EmptyString) s.

(** [s.rfind(c)]: position of the last occurrence. *)
Fixpoint rfind_char (c : ascii) (s : string) : option nat :=
  match s with
  | EmptyString => None
  | String a s' =>
      match rfind_char c s' with
      | Some i => Some (S i)
      | None => if Ascii.eqb a c then Some 0%nat else None
      end
  end.

(** [s.substr(0, n)], where [n] may be [npos]. *)
Definition substr0 (s : string) (n : option nat) : string :=
  match n with
  | Some k => String.substring 0 k s
  | None => s
  end.

(** [s.find(..) != std::string::npos]. *)
Definition found (r : option nat) : bool :=
  match r with Some _ => true | None => false end.

(** [s.back()], on a non-empty string. *)
Fixpoint back (s : string) : option ascii :=
  match s with
  | EmptyString => None
  | String a EmptyString => Some a
  | String _ s' => back s'
  end.

Definition back_is (c : ascii) (s : string) : bool :=
  match back s with
  | Some a => Ascii.eqb a c
  | None => false
  end.

End Str.

(** ** Constants of <sys/inotify.h> *)

Definition IN_ACCESS : Z := 0x1.
Definition IN_MODIFY : Z := 0x2.
Definition IN_ATTRIB : Z := 0x4.
Definition IN_CLOSE_WRITE : Z := 0x8.
Definition IN_CLOSE_NOWRITE : Z := 0x10.
Definition IN_OPEN : Z := 0x20.
Definition IN_MOVED_FROM : Z := 0x40.
Definition IN_MOVED_TO : Z := 0x80.
Definition IN_CREATE : Z := 0x100.
Definition IN_DELETE : Z := 0x200.
Definition IN_DELETE_SELF : Z := 0x400.
Definition IN_MOVE_SELF : Z := 0x800.
Definition IN_Q_OVERFLOW : Z := 0x4000.
Definition IN_IGNORED : Z := 0x8000.

(** [a & b] in a boolean context. *)
Definition bits_overlap (a b : Z) : bool := negb (Z.land a b =? 0).

(** ** File-scope constants *)

Definition kINotifyMaxEvents : Z := 512.

Definition kFileDefaultMasks : Z :=
  Z.lor IN_MOVED_TO (Z.lor IN_MOVED_FROM (Z.lor IN_MODIFY
    (Z.lor IN_DELETE (Z.lor IN_CREATE (Z.lor IN_CLOSE_WRITE IN_ATTRIB))))).

Definition kFileAccessMasks : Z := Z.lor IN_OPEN IN_ACCESS.

(** ** kMaskActions

    The table is a [std::map<int, std::string>] built from an initializer
    list.  A [std::map] keeps its entries ordered by key and the range-for
    of [createEventContextFrom] walks them in that order; an entry whose
    key is already present is not inserted again. *)

Module StdMap.

Fixpoint insert (k : Z) (v : string) (m : list (Z * string)) : list (Z * string) :=
  match m with
  | [] => [(k, v)]
  | (k', v') :: m' =>
      if k <? k' then (k, v) :: m
      else if k =? k' then m
      else (k', v') :: insert k v m'
  end.

Definition of_list (l : list (Z * string)) : list (Z * string) :=
  fold_left (fun m kv => insert (fst kv) (snd kv) m) l [].

End StdMap.

(** The initializer list, in the order the source spells it. *)
Definition kMaskActions_init : list (Z * string) :=
  [ (IN_ACCESS, "ACCESSED");
    (IN_ATTRIB, "ATTRIBUTES_MODIFIED");
    (IN_CLOSE_WRITE, "UPDATED");
    (IN_CREATE, "CREATED");
    (IN_DELETE, "DELETED");
    (IN_MODIFY, "UPDATED");
    (IN_MOVED_FROM, "MOVED_FROM");
    (IN_MOVED_TO, "MOVED_TO");
    (IN_OPEN, "OPENED") ].

Definition kMaskActions : list (Z * string) := StdMap.of_list kMaskActions_init.

(** The loop over [kMaskActions]: the first entry whose key shares a bit
    with the mask gives the action; the action stays empty otherwise. *)
Fixpoint first_action (table : list (Z * string)) (mask : Z) : string :=
  match table with
  | [] => ""
  | (bit, act) :: rest =>
      if bits_overlap mask bit then act else first_action rest mask
  end.

(** ** Data model *)

(** Identity of a shared [INotifySubscriptionContext]. *)
Definition SubId := nat.

(** [struct INotifySubscriptionContext]; [sc_path], [sc_mask] and
    [sc_recursive] are the members [path], [mask] and [recursive]. *)
Record INotifySubscriptionContext := mkSC {
  sc_path : string;
  sc_mask : Z;
  sc_recursive : bool;
  recursive_match : bool;
  mark_for_deletion : bool;
  path_sc_time_ : gmap string Z;
  descriptor_paths_ : gmap Z string;
}.

(** [struct inotify_event], already cut out of the read buffer. *)
Record inotify_event := mkEvent {
  wd : Z;
  ev_mask : Z;
  cookie : Z;
  len : Z;
  name : string;
}.

(** [struct INotifyEventContext]; [createEventContext()] gives [blank_ec]. *)
Record INotifyEventContext := mkEC {
  event : option inotify_event;
  ec_path : string;
  action : string;
  isub_ctx : option SubId;
}.

Definition blank_ec : INotifyEventContext :=
  {| event := None; ec_path := ""; action := ""; isub_ctx := None |}.

(** An entry of [subscriptions_]. *)
Record Subscription := mkSub {
  subscriber_name : string;
  context : SubId;
}.

Record Status := mkStatus { code : Z; message : string }.

(** What leaves the process. *)
Inductive Effect :=
| SysAddWatch (handle : Z) (path : string) (mask : Z)
| SysRmWatch (handle : Z) (watch : Z)
| SysClose (fd : Z)
| SysFree
| LogWarning (msg : string)
| VLog (msg : string)
| Callback (subscriber : string) (ec : INotifyEventContext).

(** The members of [INotifyEventPublisher], the store of subscription
    contexts the shared pointers refer to, and the trace of effects. *)
Record Publisher := mkPub {
  inotify_handle_ : Z;
  scratch_ : option Z;
  inotify_events_ : Z;
  last_overflow_ : Z;
  inotify_sanity_check : bool;
  descriptor_inosubctx_ : gmap Z SubId;
  path_descriptors_ : gmap string Z;
  exclude_paths_ : gset string;
  subscriptions_ : list Subscription;
  contexts : gmap SubId INotifySubscriptionContext;
  trace : list Effect;
}.

(** What the outside world answers during one call.
    [listDirectoriesInDirectory p] is what
    [listDirectoriesInDirectory(p, children, true)] leaves in [children]:
    the call asks for the recursive listing, so these are the directories
    at every depth below [p], not only its immediate subdirectories.
    [getUnixTime] is a [size_t] value. *)
Record Env := mkEnv {
  inotify_add_watch : string -> Z;
  stat_ctime : string -> option Z;
  isDirectory : string -> bool;
  listDirectoriesInDirectory : string -> list string;
  canonical : string -> string;
  resolveFilePattern : string -> list string;
  fs_filename : string -> string;
  fs_parent_path : string -> string;
  getUnixTime : Z;
}.

(** *** Field updates *)

Definition set_handle (h : Z) (st : Publisher) : Publisher :=
  mkPub h (scratch_ st) (inotify_events_ st) (last_overflow_ st)
    (inotify_sanity_check st) (descriptor_inosubctx_ st) (path_descriptors_ st)
    (exclude_paths_ st) (subscriptions_ st) (contexts st) (trace st).

Definition set_scratch (p : option Z) (st : Publisher) : Publisher :=
  mkPub (inotify_handle_ st) p (inotify_events_ st) (last_overflow_ st)
    (inotify_sanity_check st) (descriptor_inosubctx_ st) (path_descriptors_ st)
    (exclude_paths_ st) (subscriptions_ st) (contexts st) (trace st).

Definition set_events (n : Z) (st : Publisher) : Publisher :=
  mkPub (inotify_handle_ st) (scratch_ st) n (last_overflow_ st)
    (inotify_sanity_check st) (descriptor_inosubctx_ st) (path_descriptors_ st)
    (exclude_paths_ st) (subscriptions_ st) (contexts st) (trace st).

Definition set_last_overflow (t : Z) (st : Publisher) : Publisher :=
  mkPub (inotify_handle_ st) (scratch_ st) (inotify_events_ st) t
    (inotify_sanity_check st) (descriptor_inosubctx_ st) (path_descriptors_ st)
    (exclude_paths_ st) (subscriptions_ st) (contexts st) (trace st).

Definition upd_table (f : gmap Z SubId -> gmap Z SubId) (st : Publisher) : Publisher :=
  mkPub (inotify_handle_ st) (scratch_ st) (inotify_events_ st) (last_overflow_ st)
    (inotify_sanity_check st) (f (descriptor_inosubctx_ st)) (path_descriptors_ st)
    (exclude_paths_ st) (subscriptions_ st) (contexts st) (trace st).

Definition upd_path_descriptors (f : gmap string Z -> gmap string Z) (st : Publisher)
  : Publisher :=
  mkPub (inotify_handle_ st) (scratch_ st) (inotify_events_ st) (last_overflow_ st)
    (inotify_sanity_check st) (descriptor_inosubctx_ st) (f (path_descriptors_ st))
    (exclude_paths_ st) (subscriptions_ st) (contexts st) (trace st).

Definition set_exclude_paths (x : gset string) (st : Publisher) : Publisher :=
  mkPub (inotify_handle_ st) (scratch_ st) (inotify_events_ st) (last_overflow_ st)
    (inotify_sanity_check st) (descriptor_inosubctx_ st) (path_descriptors_ st)
    x (subscriptions_ st) (contexts st) (trace st).

Definition set_subscriptions (l : list Subscription) (st : Publisher) : Publisher :=
  mkPub (inotify_handle_ st) (scratch_ st) (inotify_events_ st) (last_overflow_ st)
    (inotify_sanity_check st) (descriptor_inosubctx_ st) (path_descriptors_ st)
    (exclude_paths_ st) l (contexts st) (trace st).

(** Mutation of the context a shared pointer refers to. *)
Definition upd_ctx (isc : SubId)
    (f : INotifySubscriptionContext -> INotifySubscriptionContext)
    (st : Publisher) : Publisher :=
  mkPub (inotify_handle_ st) (scratch_ st) (inotify_events_ st) (last_overflow_ st)
    (inotify_sanity_check st) (descriptor_inosubctx_ st) (path_descriptors_ st)
    (exclude_paths_ st) (subscriptions_ st) (alter f isc (contexts st)) (trace st).

Definition emit (e : Effect) (st : Publisher) : Publisher :=
  mkPub (inotify_handle_ st) (scratch_ st) (inotify_events_ st) (last_overflow_ st)
    (inotify_sanity_check st) (descriptor_inosubctx_ st) (path_descriptors_ st)
    (exclude_paths_ st) (subscriptions_ st) (contexts st) (trace st ++ [e]).

Definition set_sc_path (p : string) (c : INotifySubscriptionContext) :=
  mkSC p (sc_mask c) (sc_recursive c) (recursive_match c) (mark_for_deletion c)
    (path_sc_time_ c) (descriptor_paths_ c).

Definition set_sc_recursive (b : bool) (c : INotifySubscriptionContext) :=
  mkSC (sc_path c) (sc_mask c) b (recursive_match c) (mark_for_deletion c)
    (path_sc_time_ c) (descriptor_paths_ c).

Definition set_recursive_match (b : bool) (c : INotifySubscriptionContext) :=
  mkSC (sc_path c) (sc_mask c) (sc_recursive c) b (mark_for_deletion c)
    (path_sc_time_ c) (descriptor_paths_ c).

Definition set_mark_for_deletion (b : bool) (c : INotifySubscriptionContext) :=
  mkSC (sc_path c) (sc_mask c) (sc_recursive c) (recursive_match c) b
    (path_sc_time_ c) (descriptor_paths_ c).

Definition upd_path_sc_time (f : gmap string Z -> gmap string Z)
    (c : INotifySubscriptionContext) :=
  mkSC (sc_path c) (sc_mask c) (sc_recursive c) (recursive_match c)
    (mark_for_deletion c) (f (path_sc_time_ c)) (descriptor_paths_ c).

Definition upd_descriptor_paths (f : gmap Z string -> gmap Z string)
    (c : INotifySubscriptionContext) :=
  mkSC (sc_path c) (sc_mask c) (sc_recursive c) (recursive_match c)
    (mark_for_deletion c) (path_sc_time_ c) (f (descriptor_paths_ c)).

(** The context behind a shared pointer.  Every pointer the publisher
    holds is live; the default only makes the read total. *)
Definition null_sc : INotifySubscriptionContext :=
  mkSC "" 0 false false false ∅ ∅.

Definition deref (st : Publisher) (isc : SubId) : INotifySubscriptionContext :=
  default null_sc (contexts st !! isc).

(** [m[k]] on a [std::map]: reads the value and creates a value-initialised
    entry when the key is absent. *)
Definition index_or_create {K} `{Countable K} {V} (dflt : V) (k : K) (m : gmap K V)
  : V * gmap K V :=
  match m !! k with
  | Some v => (v, m)
  | None => (dflt, <[k := dflt]> m)
  end.

(** ** Operations *)

(** Default arguments.  The calls [addMonitor(p, isc, mask, recursive)] and
    [removeMonitor(wd, force)] leave their last argument to the member
    declarations, which are in the class header and not in this file:
    [bool add_watch = true] and [bool batch_del = false].  The lemmas below
    on [addMonitor] and [removeMonitor] are stated for every value of
    these arguments. *)
Definition default_add_watch : bool := true.
Definition default_batch_del : bool := false.

Definition getHandle (st : Publisher) : Z := inotify_handle_ st.

(** *** setUp and tearDown *)

(** [inotify_init()] answers [init_result], [malloc] answers [malloc_result]. *)
Definition setUp (init_result : Z) (malloc_result : option Z) (st : Publisher)
  : Status * Publisher :=
  let st1 := set_handle init_result st in
  if inotify_handle_ st1 =? -1 then
    (mkStatus 1 "Could not start inotify: inotify_init failed", st1)
  else
    let st2 := set_scratch malloc_result st1 in
    match scratch_ st2 with
    | None => (mkStatus 1 "Could not allocate scratch space", st2)
    | Some _ => (mkStatus 0 "OK", st2)
    end.

Definition tearDown (st : Publisher) : Publisher :=
  let st1 :=
    if inotify_handle_ st >? -1 then emit (SysClose (inotify_handle_ st)) st
    else st in
  let st2 := set_handle (-1) st1 in
  match scratch_ st2 with
  | Some _ => set_scratch None (emit SysFree st2)
  | None => st2
  end.

(** *** handleOverflow *)

(** [getUnixTime()] returns a [size_t]: in [getUnixTime() - last_overflow_]
    the signed member is converted to that type and the difference is taken
    modulo 2^64, so a clock that is behind the recorded time gives a large
    difference and not a negative one. *)
Definition size_t_bits : Z := 64.

Definition to_size_t (z : Z) : Z := z mod 2 ^ size_t_bits.

Definition handleOverflow (env : Env) (st : Publisher) : Publisher :=
  if inotify_events_ st <? kINotifyMaxEvents then
    set_events (inotify_events_ st * 2)
      (emit (VLog "inotify was overflown: increasing scratch buffer") st)
  else if negb (last_overflow_ st =? -1)
          && (to_size_t (getUnixTime env - last_overflow_ st) <? 60) then
    st
  else
    set_last_overflow (getUnixTime env) (emit (VLog "inotify was overflown") st).

(** *** addMonitor *)

(** The block that retires the entry a descriptor already has. *)
Definition retire (watch : Z) (st : Publisher) : Publisher :=
  match descriptor_inosubctx_ st !! watch with
  | None => st
  | Some ino_sc =>
      let st1 :=
        if inotify_sanity_check st then
          let '(watched_path, dp) :=
            index_or_create "" watch (descriptor_paths_ (deref st ino_sc)) in
          upd_path_descriptors (delete watched_path)
            (upd_ctx ino_sc (upd_descriptor_paths (fun _ => dp)) st)
        else st in
      upd_table (delete watch)
        (upd_ctx ino_sc (upd_descriptor_paths (delete watch)) st1)
  end.

(** The three assignments that record the new entry. *)
Definition record_watch (watch : Z) (path : string) (isc : SubId) (st : Publisher)
  : Publisher :=
  let st1 := upd_ctx isc (upd_descriptor_paths <[watch := path]>) st in
  let st2 := upd_table <[watch := isc]> st1 in
  if inotify_sanity_check st2 then upd_path_descriptors <[path := watch]> st2
  else st2.

(** The mask [addMonitor] hands to the kernel:
    [(mask == 0) ? kFileDefaultMasks : mask]. *)
Definition kernel_mask (mask : Z) : Z :=
  if mask =? 0 then kFileDefaultMasks else mask.

(** The part of [addMonitor] that runs under [path_mutex_]; the boolean is
    [false] when the function returns early. *)
Definition addMonitor_locked (env : Env) (path : string) (isc : SubId) (mask : Z)
    (add_watch : bool) (st : Publisher) : bool * Publisher :=
  let st0 := emit (SysAddWatch (getHandle st) path (kernel_mask mask)) st in
  let watch := inotify_add_watch env path in
  if add_watch && (watch =? -1) then
    (false, emit (LogWarning ("Could not add inotify watch on: " +:+ path)) st0)
  else
    (true, record_watch watch path isc (retire watch st0)).

(** [addMonitor].  The children are the directories that
    [listDirectoriesInDirectory(path, children, true)] lists below the
    path, at every depth.  The calls it makes on them pass
    [recursive = false], so they never reach their own loop and are the
    locked block alone. *)
Definition addMonitor (env : Env) (path : string) (isc : SubId) (mask : Z)
    (recursive add_watch : bool) (st : Publisher) : bool * Publisher :=
  let '(ok, st1) := addMonitor_locked env path isc mask add_watch st in
  if negb ok then (false, st1)
  else if recursive && isDirectory env path then
    (true,
     fold_left
       (fun s child =>
          snd (addMonitor_locked env (canonical env child +:+ "/") isc mask
                 default_add_watch s))
       (listDirectoriesInDirectory env path) st1)
  else (true, st1).

(** *** removeMonitor *)

Definition removeMonitor (watch : Z) (force batch_del : bool) (st : Publisher)
  : bool * Publisher :=
  match descriptor_inosubctx_ st !! watch with
  | None => (false, st)
  | Some isc =>
      let st1 := upd_table (delete watch) st in
      let st2 :=
        if inotify_sanity_check st1 then
          let '(watched_path, dp) :=
            index_or_create "" watch (descriptor_paths_ (deref st1 isc)) in
          upd_path_descriptors (delete watched_path)
            (upd_ctx isc (upd_descriptor_paths (fun _ => dp)) st1)
        else st1 in
      let st3 :=
        if negb batch_del then upd_ctx isc (upd_descriptor_paths (delete watch)) st2
        else st2 in
      let st4 :=
        if force then emit (SysRmWatch (getHandle st3) watch) st3 else st3 in
      (true, st4)
  end.

(** *** needMonitoring and monitorSubscription *)

Definition needMonitoring (env : Env) (path : string) (isc : SubId)
    (mask : Z) (recursive add_watch : bool) (st : Publisher) : bool * Publisher :=
  let '(sc_time, times) := index_or_create 0 path (path_sc_time_ (deref st isc)) in
  let st1 := upd_ctx isc (upd_path_sc_time (fun _ => times)) st in
  match stat_ctime env path with
  | None => (false, emit (LogWarning ("Failed to do stat on: " +:+ path)) st1)
  | Some st_ctime =>
      if negb (sc_time =? st_ctime) then
        let '(rc, st2) :=
          addMonitor env path isc (sc_mask (deref st1 isc))
            (sc_recursive (deref st1 isc)) add_watch st1 in
        if rc then (rc, upd_ctx isc (upd_path_sc_time <[path := st_ctime]>) st2)
        else (rc, st2)
      else (true, st1)
  end.

(** The first block of [monitorSubscription]: the recursive marker. *)
Definition strip_recursive_marker (sc : SubId) (st : Publisher) : Publisher :=
  let p := sc_path (deref st sc) in
  if Str.found (Str.find "**" p) then
    let st1 := upd_ctx sc (set_sc_recursive true) st in
    let discovered := Str.substr0 p (Str.find "**" p) in
    upd_ctx sc (set_sc_path discovered) st1
  else st.

(** What [discovered] holds when the wildcard block is entered and left
    without returning. *)
Definition leaf_discovered (env : Env) (p : string) : string :=
  if Str.found (Str.find_char "*" (fs_filename env p)) then
    fs_parent_path env p +:+ "/"
  else p.

Definition monitorSubscription (env : Env) (sc : SubId) (add_watch : bool)
    (st : Publisher) : bool * Publisher :=
  let st1 := strip_recursive_marker sc st in
  let p := sc_path (deref st1 sc) in
  let discovered :=
    if Str.found (Str.find_char "*" p) then leaf_discovered env p else p in
  if Str.found (Str.find_char "*" p) && Str.found (Str.find_char "*" discovered) then
    let st2 :=
      upd_ctx sc (fun c => set_recursive_match (sc_recursive c) c) st1 in
    (true,
     fold_left
       (fun s _path =>
          snd (needMonitoring env _path sc (sc_mask (deref s sc))
                 (sc_recursive (deref s sc)) add_watch s))
       (resolveFilePattern env discovered) st2)
  else
    let '(discovered', st2) :=
      if isDirectory env discovered && negb (Str.back_is "/" discovered) then
        (discovered +:+ "/",
         upd_ctx sc (fun c => set_sc_path (sc_path c +:+ "/") c) st1)
      else (discovered, st1) in
    needMonitoring env discovered' sc (sc_mask (deref st2 sc))
      (sc_recursive (deref st2 sc)) add_watch st2.

(** *** createEventContextFrom *)

(** [None] stands for the [std::out_of_range] that [descriptor_paths_.at]
    throws when the owning context has no path for the descriptor. *)
Definition createEventContextFrom (st : Publisher) (ev : inotify_event)
  : option INotifyEventContext :=
  let ec := mkEC (Some ev) (ec_path blank_ec) (action blank_ec) (isub_ctx blank_ec) in
  match descriptor_inosubctx_ st !! wd ev with
  | None => Some ec
  | Some isc =>
      match descriptor_paths_ (deref st isc) !! wd ev with
      | None => None
      | Some p =>
          let path := if len ev >? 1 then p +:+ name ev else p in
          Some (mkEC (Some ev) path (first_action kMaskActions (ev_mask ev))
                  (Some isc))
      end
  end.

(** *** shouldFire *)

(** Modelled from the spec: the type of [exclude_paths_] is declared in a
    header that is not part of the sources; the spec has it as "a set of
    path-pattern strings".  [empty()] says whether the set holds no string. *)
Definition PathSet_empty (s : gset string) : bool := bool_decide (s = ∅).

(** Modelled from the spec: [find()] of that type.  [shouldFire] uses its
    result where a [bool] is required, which no iterator of a standard
    container converts to, so [find] itself answers whether the string "is
    present in the Exclude Set". *)
Definition PathSet_find (s : gset string) (p : string) : bool := bool_decide (p ∈ s).

(** [ec->event->mask].  Every context [createEventContextFrom] returns has
    its event set; the default only makes the read total. *)
Definition raw_mask (ec : INotifyEventContext) : Z :=
  match event ec with
  | Some e => ev_mask e
  | None => 0
  end.

(** The directory part the exclude filter computes. *)
Definition containing_dir (p : string) : string :=
  Str.substr0 p (Str.rfind_char "/" p).

(** The last statement group of [shouldFire]. *)
Definition exclude_filter_drops (st : Publisher) (ec : INotifyEventContext) : bool :=
  negb (PathSet_empty (exclude_paths_ st))
  && (PathSet_find (exclude_paths_ st) (containing_dir (ec_path ec))
      || PathSet_find (exclude_paths_ st) (ec_path ec)).

(** [shouldFire] is declared [const] and casts the qualifier away to install
    a watch, so it returns the new state with its answer. *)
Definition shouldFire (env : Env) (sc : SubId) (ec : INotifyEventContext)
    (st : Publisher) : bool * Publisher :=
  if negb (bool_decide (Some sc = isub_ctx ec)) then (false, st)
  else if negb (sc_mask (deref st sc) =? 0)
          && negb (bits_overlap (raw_mask ec) (sc_mask (deref st sc))) then
    (false, st)
  else
    let st1 :=
      if sc_recursive (deref st sc) && String.eqb (action ec) "CREATED"
         && isDirectory env (ec_path ec) then
        snd (addMonitor env (ec_path ec +:+ "/") sc (sc_mask (deref st sc)) true
               default_add_watch st)
      else st in
    if exclude_filter_drops st1 ec then (false, st1) else (true, st1).

(** *** fire *)

(** Modelled from the spec: [fire] belongs to the publisher base class,
    which is not part of the sources.  It offers the event context to every
    subscription and calls back the subscriber of each one [shouldFire]
    accepts ("emit the record to the external subscriber sink"). *)
Definition fire (env : Env) (ec : INotifyEventContext) (st : Publisher) : Publisher :=
  fold_left
    (fun s sub =>
       let '(b, s1) := shouldFire env (context sub) ec s in
       if b then emit (Callback (subscriber_name sub) ec) s1 else s1)
    (subscriptions_ st) st.

(** *** run *)

(** What [poll] and [read] answer in one tick.  The records are the
    [inotify_event]s the loop finds in the buffer, front to back. *)
Inductive PollResult :=
| PollFailed (errno_is_EINTR : bool)
| PollTimeout
| PollReady (revents_has_POLLIN : bool).

Inductive ReadResult :=
| ReadFailed
| ReadRecords (records : list inotify_event).

(** The body of the loop over the buffer; [None] when
    [createEventContextFrom] throws. *)
Definition process_record (env : Env) (ev : inotify_event) (st : Publisher)
  : option Publisher :=
  if bits_overlap (ev_mask ev) IN_Q_OVERFLOW then Some (handleOverflow env st)
  else if bits_overlap (ev_mask ev) IN_IGNORED then
    Some (snd (removeMonitor (wd ev) false default_batch_del st))
  else if bits_overlap (ev_mask ev) IN_MOVE_SELF then
    Some (snd (removeMonitor (wd ev) true default_batch_del st))
  else if bits_overlap (ev_mask ev) IN_DELETE_SELF then
    Some (snd (removeMonitor (wd ev) false default_batch_del st))
  else
    match createEventContextFrom st ev with
    | None => None
    | Some ec =>
        if negb (String.eqb (action ec) "") then Some (fire env ec st)
        else Some st
    end.

(** The loop over the buffer.  The boolean is [false] when an exception
    leaves the loop; the state is the one reached so far. *)
Fixpoint process_records (env : Env) (evs : list inotify_event) (st : Publisher)
  : bool * Publisher :=
  match evs with
  | [] => (true, st)
  | ev :: rest =>
      match process_record env ev st with
      | None => (false, st)
      | Some st1 => process_records env rest st1
      end
  end.

(** One tick.  The status is [None] when an exception leaves [run]. *)
Definition run (env : Env) (poll : PollResult) (rd : ReadResult) (st : Publisher)
  : option Status * Publisher :=
  match poll with
  | PollFailed true => (Some (mkStatus 0 "inotify poll interrupted"), st)
  | PollFailed false =>
      (Some (mkStatus 1 "inotify poll failed"),
       emit (LogWarning "Could not read inotify handle") st)
  | PollTimeout => (Some (mkStatus 0 "Continue"), st)
  | PollReady false => (Some (mkStatus 0 "Invalid poll response"), st)
  | PollReady true =>
      match rd with
      | ReadFailed => (Some (mkStatus 1 "INotify read failed"), st)
      | ReadRecords evs =>
          let '(completed, st1) := process_records env evs st in
          (if completed then Some (mkStatus 0 "OK") else None, st1)
      end
  end.

(** *** isPathMonitored *)


(** *** removeSubscriptions and configure *)

Definition removeSubscriptions (subscriber : string) (st : Publisher) : Publisher :=
  fold_left
    (fun s sub =>
       if String.eqb (subscriber_name sub) subscriber then
         upd_ctx (context sub) (set_mark_for_deletion true) s
       else s)
    (subscriptions_ st) st.

(** [patterns] are the strings the configuration parser lists under
    [exclude_paths]. *)
Definition buildExcludePathsSet (patterns : list string) (st : Publisher) : Publisher :=
  fold_left
    (fun s pattern =>
       if String.eqb pattern "" then s
       else set_exclude_paths ({[pattern]} ∪ exclude_paths_ s) s)
    patterns (set_exclude_paths ∅ st).

Definition purge_subscription (sub : Subscription) (st : Publisher) : Publisher :=
  let ino_sc := context sub in
  let st1 :=
    fold_left (fun s watch => snd (removeMonitor watch true true s))
      (merge_sort Z.le (elements (dom (descriptor_paths_ (deref st ino_sc))))) st in
  upd_ctx ino_sc (upd_descriptor_paths (fun _ => ∅)) st1.

Definition configure (env : Env) (patterns : list string) (st : Publisher) : Publisher :=
  if inotify_handle_ st =? -1 then st
  else
    let marked (sub : Subscription) := mark_for_deletion (deref st (context sub)) in
    let delete_subscriptions := List.filter marked (subscriptions_ st) in
    let st1 :=
      set_subscriptions (List.filter (fun s => negb (marked s)) (subscriptions_ st)) st in
    let st2 := fold_left (fun s sub => purge_subscription sub s) delete_subscriptions st1 in
    let st3 := buildExcludePathsSet patterns st2 in
    fold_left
      (fun s sub => snd (monitorSubscription env (context sub) default_add_watch s))
      (subscriptions_ st3) st3.

(** *** addSubscription *)

(** [sc_equal] is [operator==] on subscription contexts, which the class
    header declares; the status is given by its code, the one-argument
    [Status] constructor being declared elsewhere.  The context of the
    received subscription is in the store already. *)
Definition addSubscription
    (sc_equal : INotifySubscriptionContext → INotifySubscriptionContext → bool)
    (subscription : Subscription) (st : Publisher) : Z * Publisher :=
  let received_inotify_sc := deref st (context subscription) in
  match List.find
          (fun sub => sc_equal received_inotify_sc (deref st (context sub)))
          (subscriptions_ st) with
  | Some sub =>
      if mark_for_deletion (deref st (context sub)) then
        (0, upd_ctx (context sub) (set_mark_for_deletion false) st)
      else (1, st)
  | None => (0, set_subscriptions (subscriptions_ st ++ [subscription]) st)
  end.

(** ** Notions used by the statements *)

(** The watch table read as [descriptor -> (path, owning subscription)],
    the way [createEventContextFrom] reads it. *)
Definition resolve (st : Publisher) (d : Z) : option (string * SubId) :=
  match descriptor_inosubctx_ st !! d with
  | None => None
  | Some isc =>
      match descriptor_paths_ (deref st isc) !! d with
      | None => None
      | Some p => Some (p, isc)
      end
  end.






(** The order in which the loop over [kMaskActions] meets the bits:
    ascending bit value. *)
Definition action_by_bit_value (mask : Z) : string :=
  if bits_overlap mask IN_ACCESS then "ACCESSED"
  else if bits_overlap mask IN_MODIFY then "UPDATED"
  else if bits_overlap mask IN_ATTRIB then "ATTRIBUTES_MODIFIED"
  else if bits_overlap mask IN_CLOSE_WRITE then "UPDATED"
  else if bits_overlap mask IN_OPEN then "OPENED"
  else if bits_overlap mask IN_MOVED_FROM then "MOVED_FROM"
  else if bits_overlap mask IN_MOVED_TO then "MOVED_TO"
  else if bits_overlap mask IN_CREATE then "CREATED"
  else if bits_overlap mask IN_DELETE then "DELETED"
  else "".

(** The order of the initializer list, read as a priority order. *)
Definition action_by_listing_order (mask : Z) : string :=
  first_action kMaskActions_init mask.

(** An effect other than a subscriber callback, or a callback whose event
    context has an owner and an action. *)
Definition owned_callback (e : Effect) : Prop :=
  match e with
  | Callback _ ec => isub_ctx ec ≠ None ∧ action ec ≠ ""
  | _ => True
  end.

Definition is_callback (e : Effect) : bool :=
  match e with
  | Callback _ _ => true
  | _ => false
  end.

Definition is_rm_watch (e : Effect) : bool :=
  match e with
  | SysRmWatch _ _ => true
  | _ => false
  end.

(** What a subscription asks for: the members a watch installation never
    writes. *)
Definition same_pattern (c c' : INotifySubscriptionContext) : Prop :=
  sc_path c' = sc_path c ∧ sc_mask c' = sc_mask c
  ∧ sc_recursive c' = sc_recursive c.

(** [frame P st st']: [st'] comes from [st] by changes to the watch table
    and to the descriptor and time caches of the contexts only, and the
    effects added to the trace all satisfy [P]. *)
Definition frame (P : Effect → Prop) (st st' : Publisher) : Prop :=
  exclude_paths_ st' = exclude_paths_ st
  ∧ subscriptions_ st' = subscriptions_ st
  ∧ inotify_handle_ st' = inotify_handle_ st
  ∧ inotify_sanity_check st' = inotify_sanity_check st
  ∧ (∀ s, is_Some (contexts st' !! s) ↔ is_Some (contexts st !! s))
  ∧ (∀ s, same_pattern (deref st s) (deref st' s))
  ∧ (∃ new, trace st' = trace st ++ new ∧ Forall P new).

Definition not_callback (e : Effect) : Prop := is_callback e = false.

(** The change time a subscription remembers for a path; [0] when it
    remembers none. *)
Definition cached_ctime (c : INotifySubscriptionContext) (p : string) : Z :=
  default 0 (path_sc_time_ c !! p).


(** [st'] differs from [st] in the watch table at descriptor [w] only. *)
Definition only_at (w : Z) (st st' : Publisher) : Prop :=
  (∀ d, d ≠ w → descriptor_inosubctx_ st' !! d = descriptor_inosubctx_ st !! d)
  ∧ (∀ s d, d ≠ w →
       descriptor_paths_ (deref st' s) !! d = descriptor_paths_ (deref st s) !! d).

(** A run of overflow records, each handled at its own time. *)
Definition overflows (envs : list Env) (st : Publisher) : Publisher :=
  fold_left (fun s env => handleOverflow env s) envs st.

(** The bits that [kMaskActions] gives an action to. *)
Definition dispatch_mask : Z := Z.lor kFileDefaultMasks kFileAccessMasks.

(** The paths of the kernel watch requests in a trace, in order. *)
Definition add_watch_paths (tr : list Effect) : list string :=
  omap (fun e => match e with SysAddWatch _ p _ => Some p | _ => None end) tr.

(** The subscribers called back in a trace, with what they were given. *)
Definition callbacks (tr : list Effect) : list (string * INotifyEventContext) :=
  omap (fun e => match e with Callback s ec => Some (s, ec) | _ => None end) tr.

(** Whether a subscription of [subscriber] refers to the context [s]. *)
Definition subscribed_by (subscriber : string) (s : SubId) (subs : list Subscription)
  : bool :=
  existsb
    (fun sub => String.eqb (subscriber_name sub) subscriber
                && bool_decide (context sub = s)) subs.

(** Every descriptor of the table resolves: its owner is live and holds a
    path for it, so [createEventContextFrom] does not throw. *)
Definition table_wf (st : Publisher) : Prop :=
  ∀ d, is_Some (descriptor_inosubctx_ st !! d) → is_Some (resolve st d).

(** The contexts the subscription list refers to are live. *)
Definition subscriptions_live (st : Publisher) : Prop :=
  ∀ sub, In sub (subscriptions_ st) → is_Some (contexts st !! context sub).



(** The public entry points of the publisher, as the event framework
    drives them. *)
Inductive Call :=
| CallSetUp (init_result : Z) (malloc_result : option Z)
| CallConfigure (env : Env) (patterns : list string)
| CallAddSubscription
    (sc_equal : INotifySubscriptionContext → INotifySubscriptionContext → bool)
    (subscription : Subscription)
| CallRemoveSubscriptions (subscriber : string)
| CallRun (env : Env) (poll : PollResult) (rd : ReadResult)
| CallTearDown.

(** One call; [None] when [run] is left by the exception of
    [createEventContextFrom]. *)
Definition apply_call (c : Call) (st : Publisher) : option Publisher :=
  match c with
  | CallSetUp init_result malloc_result =>
      Some (snd (setUp init_result malloc_result st))
  | CallConfigure env patterns => Some (configure env patterns st)
  | CallAddSubscription sc_equal subscription =>
      Some (snd (addSubscription sc_equal subscription st))
  | CallRemoveSubscriptions subscriber => Some (removeSubscriptions subscriber st)
  | CallRun env poll rd =>
      match run env poll rd st with
      | (Some _, st') => Some st'
      | (None, _) => None
      end
  | CallTearDown => Some (tearDown st)
  end.

Fixpoint run_calls (cs : list Call) (st : Publisher) : option Publisher :=
  match cs with
  | [] => Some st
  | c :: rest =>
      match apply_call c st with
      | Some st' => run_calls rest st'
      | None => None
      end
  end.

(** The subscription handed to [addSubscription] refers to a live context. *)
Definition call_live (st : Publisher) (c : Call) : Prop :=
  match c with
  | CallAddSubscription _ subscription =>
      is_Some (contexts st !! context subscription)
  | _ => True
  end.

(** The members of a context that installing and removing watches leave
    alone: everything but the two caches. *)
Definition keeps_request (c c' : INotifySubscriptionContext) : Prop :=
  sc_path c' = sc_path c ∧ sc_mask c' = sc_mask c
  ∧ sc_recursive c' = sc_recursive c
  ∧ recursive_match c' = recursive_match c
  ∧ mark_for_deletion c' = mark_for_deletion c.

(** The members that resolving a pattern leaves alone. *)
Definition keeps_mark (c c' : INotifySubscriptionContext) : Prop :=
  sc_mask c' = sc_mask c ∧ mark_for_deletion c' = mark_for_deletion c.

(** [st'] has the subscription list, the exclude set, the handle, the
    sanity flag and the live contexts of [st], and its contexts are
    related to those of [st] by [R]. *)
Definition ctx_frame
    (R : INotifySubscriptionContext → INotifySubscriptionContext → Prop)
    (st st' : Publisher) : Prop :=
  exclude_paths_ st' = exclude_paths_ st
  ∧ subscriptions_ st' = subscriptions_ st
  ∧ inotify_handle_ st' = inotify_handle_ st
  ∧ inotify_sanity_check st' = inotify_sanity_check st
  ∧ (∀ s, is_Some (contexts st' !! s) ↔ is_Some (contexts st !! s))
  ∧ (∀ s, R (deref st s) (deref st' s)).

(** ** A small world for examples *)

Module Sample.

Definition parent_path (p : string) : string :=
  match Str.rfind_char "/" p with
  | Some i => String.substring 0 i p
  | None => ""
  end.

Definition filename (p : string) : string :=
  match Str.rfind_char "/" p with
  | Some i => String.substring (S i) (String.length p) p
  | None => p
  end.

Definition dirs : list string := ["/etc"; "/etc/"; "/etc/ssh"; "/etc/ssh/"].

Definition is_dir (p : string) : bool := bool_decide (p ∈ dirs).

Definition kernel (p : string) : Z :=
  if String.eqb p "/etc/" then 1
  else if String.eqb p "/etc/passwd" then 2
  else if String.eqb p "/etc/ssh/" then 3
  else -1.

Definition env : Env :=
  {| inotify_add_watch := kernel;
     stat_ctime := fun p => if kernel p =? -1 then None else Some 1700000000;
     isDirectory := is_dir;
     listDirectoriesInDirectory :=
       fun p => if String.eqb p "/etc/" then ["/etc/ssh"] else [];
     canonical := fun p => p;
     resolveFilePattern := fun _ => [];
     fs_filename := filename;
     fs_parent_path := parent_path;
     getUnixTime := 1700000100 |}.

(** The same world at another time. *)
Definition at_time (t : Z) : Env :=
  {| inotify_add_watch := inotify_add_watch env;
     stat_ctime := stat_ctime env;
     isDirectory := isDirectory env;
     listDirectoriesInDirectory := listDirectoriesInDirectory env;
     canonical := canonical env;
     resolveFilePattern := resolveFilePattern env;
     fs_filename := fs_filename env;
     fs_parent_path := fs_parent_path env;
     getUnixTime := t |}.


(** A subscription on [p] with no mask. *)
Definition sub_on (p : string) : INotifySubscriptionContext :=
  mkSC p 0 false false false ∅ ∅.

(** A publisher after a successful [setUp], with one subscription. *)
Definition publisher (sane : bool) (events : Z) (p : string) : Publisher :=
  {| inotify_handle_ := 3;
     scratch_ := Some 4096;
     inotify_events_ := events;
     last_overflow_ := -1;
     inotify_sanity_check := sane;
     descriptor_inosubctx_ := ∅;
     path_descriptors_ := ∅;
     exclude_paths_ := ∅;
     subscriptions_ := [mkSub "file_events" 0%nat];
     contexts := {[ 0%nat := sub_on p ]};
     trace := [] |}.

(** The same publisher once the watch on ["/etc/"] is installed. *)
Definition watching_etc (sane : bool) : Publisher :=
  snd (addMonitor env "/etc/" 0%nat 0 false true (publisher sane 16 "/etc/")).

Definition excluding (x : gset string) (st : Publisher) : Publisher :=
  set_exclude_paths x st.

Definition record (d mask : Z) (n : string) : inotify_event :=
  mkEvent d mask 0 (Z.of_nat (String.length n) + 1) n.

Definition context_for (p act : string) (mask : Z) : INotifyEventContext :=
  mkEC (Some (mkEvent 1 mask 0 0 "")) p act (Some 0%nat).

End Sample.

(** * Properties *)

(** ** The action table *)

Lemma kMaskActions_sorted :
  kMaskActions =
  [ (IN_ACCESS, "ACCESSED"); (IN_MODIFY, "UPDATED");
    (IN_ATTRIB, "ATTRIBUTES_MODIFIED"); (IN_CLOSE_WRITE, "UPDATED");
    (IN_OPEN, "OPENED"); (IN_MOVED_FROM, "MOVED_FROM");
    (IN_MOVED_TO, "MOVED_TO"); (IN_CREATE, "CREATED"); (IN_DELETE, "DELETED") ].
Proof. reflexivity. Qed.

Lemma first_action_kMaskActions (mask : Z) :
  first_action kMaskActions mask = action_by_bit_value mask.
Proof. rewrite kMaskActions_sorted. reflexivity. Qed.

Lemma StdMap_insert_keys (k : Z) (v : string) (m : list (Z * string)) (x : Z) :
  In x (map fst (StdMap.insert k v m)) → x = k ∨ In x (map fst m).
Proof.
  induction m as [|[k' v'] m IH]; cbn.
  - intros [<-|[]]. left. reflexivity.
  - destruct (k <? k'); [|destruct (k =? k')]; cbn.
    + intros [<-|H]; auto.
    + intros H. right. exact H.
    + intros [<-|H]; [auto|]. destruct (IH H); auto.
Qed.

(** Inserting keeps the keys in strictly ascending order. *)
Lemma StdMap_insert_sorted (k : Z) (v : string) (m : list (Z * string)) :
  StronglySorted Z.lt (map fst m) →
  StronglySorted Z.lt (map fst (StdMap.insert k v m)).
Proof.
  induction m as [|[k' v'] m IH]; cbn; intros Hs.
  - repeat constructor.
  - inversion Hs as [|? ? Hm Hall]; subst.
    destruct (Z.ltb_spec k k'); [|destruct (Z.eqb_spec k k')]; cbn.
    + constructor; [exact Hs|]. constructor; [assumption|].
      rewrite Forall_forall in *. intros x Hx. specialize (Hall x Hx). lia.
    + exact Hs.
    + constructor; [apply IH; exact Hm|].
      rewrite Forall_forall in *. intros x Hx. apply list_elem_of_In in Hx.
      destruct (StdMap_insert_keys _ _ _ _ Hx) as [->|Hx']; [lia|].
      apply Hall, list_elem_of_In, Hx'.
Qed.

(** Whatever the order of the initializer list, the map is walked by
    ascending key. *)
Lemma StdMap_of_list_sorted (l : list (Z * string)) :
  StronglySorted Z.lt (map fst (StdMap.of_list l)).
Proof.
  unfold StdMap.of_list.
  assert (H : ∀ acc, StronglySorted Z.lt (map fst acc) →
                     StronglySorted Z.lt
                       (map fst (fold_left
                                   (fun m kv => StdMap.insert (fst kv) (snd kv) m)
                                   l acc))).
  { induction l as [|kv l IH]; intros acc Hacc; cbn; [exact Hacc|].
    apply IH, StdMap_insert_sorted, Hacc. }
  apply H. constructor.
Qed.

(** A known descriptor yields a context owned by the table's subscription,
    with the path rebuilt from the watch path and the record's name. *)
Lemma createEventContextFrom_known (st : Publisher) (ev : inotify_event)
    (isc : SubId) (p : string) :
  resolve st (wd ev) = Some (p, isc) →
  createEventContextFrom st ev =
    Some (mkEC (Some ev) (if len ev >? 1 then p +:+ name ev else p)
            (first_action kMaskActions (ev_mask ev)) (Some isc)).
Proof.
  unfold resolve, createEventContextFrom.
  destruct (descriptor_inosubctx_ st !! wd ev) as [i|]; [|discriminate].
  destruct (descriptor_paths_ (deref st i) !! wd ev) as [q|]; [|discriminate].
  intros [= -> ->]. reflexivity.
Qed.

(** C2 (as amended): for every record whose descriptor the table knows,
    the action of the decoded context is the one of the lowest-valued bit
    of the table that the raw mask has set: access, content-modify,
    attribute-change, write-close, open, moved-from, moved-to, create,
    delete, in this order; it is empty when none is set. *)
Theorem createEventContextFrom_action_by_bit_value
    (st : Publisher) (ev : inotify_event) (isc : SubId) (p : string) :
  resolve st (wd ev) = Some (p, isc) →
  ∃ ec, createEventContextFrom st ev = Some ec
        ∧ isub_ctx ec = Some isc
        ∧ action ec = action_by_bit_value (ev_mask ev).
Proof.
  intros Hres. eexists. split; [exact (createEventContextFrom_known _ _ _ _ Hres)|].
  split; [reflexivity|]. cbn [action]. apply first_action_kMaskActions.
Qed.

Lemma createEventContextFrom_action_by_bit_value_witness :
  ∃ ec, createEventContextFrom (Sample.watching_etc true)
          (Sample.record 1 IN_CREATE "newdir") = Some ec
        ∧ isub_ctx ec = Some 0%nat
        ∧ action ec = action_by_bit_value IN_CREATE.
Proof.
  apply (createEventContextFrom_action_by_bit_value
           (Sample.watching_etc true) (Sample.record 1 IN_CREATE "newdir")
           0%nat "/etc/").
  vm_compute. reflexivity.
Defined.

(** C2 (as stated) fails: a record with the attribute-change and the
    content-modify bits is classified UPDATED, where the listing order
    would give ATTRIBUTES_MODIFIED. *)
Lemma attrib_and_modify_is_UPDATED :
  let ev := Sample.record 1 (Z.lor IN_ATTRIB IN_MODIFY) "passwd" in
  option_map action (createEventContextFrom (Sample.watching_etc true) ev)
    = Some "UPDATED"
  ∧ action_by_listing_order (ev_mask ev) = "ATTRIBUTES_MODIFIED"
  ∧ option_map action (createEventContextFrom (Sample.watching_etc true) ev)
    ≠ Some (action_by_listing_order (ev_mask ev)).
Proof. vm_compute. split; [reflexivity|]. split; [reflexivity|]. discriminate. Qed.

(** ** tearDown *)

(** C10: a second [tearDown] changes nothing: the state after two calls is
    the state after one, trace included, so the second call closes and
    frees nothing; the handle is [-1] and the buffer pointer is null. *)
Theorem tearDown_idempotent (st : Publisher) :
  tearDown (tearDown st) = tearDown st
  ∧ inotify_handle_ (tearDown st) = -1
  ∧ scratch_ (tearDown st) = None
  ∧ trace (tearDown (tearDown st)) = trace (tearDown st).
Proof.
  assert (Hh : inotify_handle_ (tearDown st) = -1).
  { unfold tearDown. destruct (inotify_handle_ st >? -1);
      cbn; destruct (scratch_ st); reflexivity. }
  assert (Hs : scratch_ (tearDown st) = None).
  { unfold tearDown. destruct (inotify_handle_ st >? -1);
      cbn; destruct (scratch_ st) eqn:E; cbn; auto. }
  assert (Hi : tearDown (tearDown st) = tearDown st).
  { unfold tearDown at 1. rewrite Hh. cbn. rewrite Hs.
    destruct (tearDown st); cbn in *; subst; reflexivity. }
  rewrite Hi. auto.
Qed.

(** X1: on a publisher that holds a handle and a buffer, [tearDown] closes
    the handle once and frees the buffer once, in this order. *)
Lemma tearDown_releases_once (st : Publisher) (h buf : Z) :
  inotify_handle_ st = h → h > -1 → scratch_ st = Some buf →
  trace (tearDown st) = trace st ++ [SysClose h; SysFree].
Proof.
  intros Hh Hpos Hb. unfold tearDown. rewrite Hh.
  destruct (h >? -1) eqn:E; [|lia]. cbn. rewrite Hb. cbn.
  rewrite <- app_assoc. reflexivity.
Qed.

Lemma tearDown_releases_once_witness :
  trace (tearDown (Sample.publisher false 16 "/etc/")) = [SysClose 3; SysFree].
Proof.
  apply (tearDown_releases_once (Sample.publisher false 16 "/etc/") 3 4096);
    [reflexivity | lia | reflexivity].
Defined.

(** ** handleOverflow *)

Lemma to_size_t_after (now last : Z) :
  0 ≤ last ≤ now → now < 2 ^ 64 → to_size_t (now - last) = now - last.
Proof.
  intros H1 H2. unfold to_size_t, size_t_bits. apply Z.mod_small. lia.
Qed.

Lemma to_size_t_before (now last : Z) :
  0 ≤ now < last → last < 2 ^ 63 → 2 ^ 63 < to_size_t (now - last).
Proof.
  intros H1 H2. unfold to_size_t, size_t_bits.
  rewrite <- (Z.mod_add (now - last) 1 (2 ^ 64)) by lia.
  rewrite Z.mod_small; change (2 ^ 64) with (2 * 2 ^ 63); lia.
Qed.

(** C4 (as amended): below the cap an overflow doubles the multiplier,
    logs the growth and leaves the timestamp alone; from a power of two
    below the cap, as every value is that doubling produces from one, the
    doubled value is within the cap.  At or above the cap, with a report on
    record: an overflow less than 60 seconds after it changes nothing, so
    nothing is logged; one that comes 60 seconds or more after it, or while
    the clock is behind its time, is logged and its time becomes the new
    timestamp.  With no report on record the overflow is logged and its
    time recorded. *)
Theorem handleOverflow_cases (env : Env) (st : Publisher) :
  let st' := handleOverflow env st in
  let now := getUnixTime env in
  let last := last_overflow_ st in
  (inotify_events_ st < kINotifyMaxEvents →
     inotify_events_ st' = 2 * inotify_events_ st
     ∧ last_overflow_ st' = last
     ∧ trace st'
       = trace st ++ [VLog "inotify was overflown: increasing scratch buffer"]
     ∧ (∀ k, 0 ≤ k → inotify_events_ st = 2 ^ k →
             inotify_events_ st' ≤ kINotifyMaxEvents))
  ∧ (kINotifyMaxEvents ≤ inotify_events_ st →
     0 ≤ last < 2 ^ 63 → 0 ≤ now < 2 ^ 64 →
     (last ≤ now < last + 60 → st' = st)
     ∧ (now < last ∨ last + 60 ≤ now →
        trace st' = trace st ++ [VLog "inotify was overflown"]
        ∧ last_overflow_ st' = now
        ∧ inotify_events_ st' = inotify_events_ st))
  ∧ (kINotifyMaxEvents ≤ inotify_events_ st → last = -1 →
     trace st' = trace st ++ [VLog "inotify was overflown"]
     ∧ last_overflow_ st' = now
     ∧ inotify_events_ st' = inotify_events_ st).
Proof.
  cbv zeta. unfold handleOverflow.
  destruct (Z.ltb_spec (inotify_events_ st) kINotifyMaxEvents) as [Hlow|Hcap].
  - split; [|split; intros; lia]. intros _. cbn.
    split; [lia|]. split; [reflexivity|]. split; [reflexivity|].
    intros k Hk Hev. rewrite Hev in Hlow |- *.
    change kINotifyMaxEvents with (2 ^ 9) in *.
    apply Z.pow_lt_mono_r_iff in Hlow; [|lia..].
    replace (2 ^ k * 2) with (2 ^ (k + 1)) by (rewrite Z.pow_add_r; lia).
    apply Z.pow_le_mono_r; lia.
  - split; [intros; lia|].
    destruct (Z.eqb_spec (last_overflow_ st) (-1)) as [Hnever|Hseen];
      cbn [negb andb].
    + split; [intros; lia|]. intros _ _. cbn. auto.
    + split; [|intros; contradiction]. intros _ Hlast Hnow. split.
      * intros Hsoon. rewrite to_size_t_after by lia.
        destruct (Z.ltb_spec (getUnixTime env - last_overflow_ st) 60);
          [reflexivity | lia].
      * intros Hlate.
        destruct (Z.ltb_spec (to_size_t (getUnixTime env - last_overflow_ st)) 60)
          as [Hsoon|_]; [|cbn; auto].
        exfalso. destruct Hlate as [Hbehind|Hlate].
        -- pose proof (to_size_t_before (getUnixTime env) (last_overflow_ st)).
           lia.
        -- rewrite to_size_t_after in Hsoon by lia. lia.
Qed.

(** 16 doubles to 32, within the cap; a first overflow at the cap is
    logged; a second one within the minute is not. *)
Lemma handleOverflow_cases_witness :
  let st := Sample.publisher false 512 "/etc/" in
  let st1 := handleOverflow Sample.env st in
  inotify_events_ (handleOverflow Sample.env (Sample.publisher false 16 "/etc/")) = 32
  ∧ inotify_events_ (handleOverflow Sample.env (Sample.publisher false 16 "/etc/"))
    ≤ kINotifyMaxEvents
  ∧ trace st1 = [VLog "inotify was overflown"]
  ∧ last_overflow_ st1 = 1700000100
  ∧ handleOverflow Sample.env st1 = st1.
Proof.
  cbv zeta.
  pose proof (handleOverflow_cases Sample.env (Sample.publisher false 16 "/etc/"))
    as (Hlow & _ & _).
  pose proof (handleOverflow_cases Sample.env (Sample.publisher false 512 "/etc/"))
    as (_ & _ & Hlog).
  pose proof (handleOverflow_cases Sample.env
                (handleOverflow Sample.env (Sample.publisher false 512 "/etc/")))
    as (_ & Hquiet & _).
  cbv zeta in *.
  destruct Hlow as (Hdouble & _ & _ & Hcap); [vm_compute; reflexivity|].
  split; [exact Hdouble|].
  split; [apply (Hcap 4); [lia | reflexivity]|].
  destruct Hlog as (Ht & Hl & _);
    [vm_compute; discriminate | reflexivity |].
  split; [exact Ht|]. split; [exact Hl|].
  destruct Hquiet as (Hsame & _);
    [vm_compute; discriminate | vm_compute; split; [discriminate | reflexivity]
    | vm_compute; split; [discriminate | reflexivity] |].
  apply Hsame. vm_compute. split; [discriminate | reflexivity].
Defined.

(** C4 (as stated) fails at the boundary: the multiplier has grown from 16
    to the cap, an overflow has been reported, and the next overflow comes
    exactly 60 seconds after that report; it is logged again and replaces
    the timestamp, although it is not more than 60 seconds after the
    report. *)
Lemma handleOverflow_logs_at_60_seconds :
  let st := overflows (repeat Sample.env 6) (Sample.publisher false 16 "/etc/") in
  let later := Sample.at_time 1700000160 in
  inotify_events_ st = kINotifyMaxEvents
  ∧ last_overflow_ st = 1700000100
  ∧ getUnixTime later - last_overflow_ st = 60
  ∧ trace (handleOverflow later st) = trace st ++ [VLog "inotify was overflown"]
  ∧ last_overflow_ (handleOverflow later st) = 1700000160.
Proof. vm_compute. repeat split; reflexivity. Qed.

(** With the clock behind the recorded report the difference wraps around
    and the overflow is reported again. *)
Example handleOverflow_clock_behind :
  let st := overflows (repeat Sample.env 6) (Sample.publisher false 16 "/etc/") in
  let earlier := Sample.at_time 1700000090 in
  last_overflow_ st = 1700000100
  ∧ trace (handleOverflow earlier st) = trace st ++ [VLog "inotify was overflown"]
  ∧ last_overflow_ (handleOverflow earlier st) = 1700000090.
Proof. vm_compute. repeat split; reflexivity. Qed.

(** ** removeMonitor and the invalidation records *)

Lemma removeMonitor_unknown (watch : Z) (force batch_del : bool) (st : Publisher) :
  descriptor_inosubctx_ st !! watch = None →
  removeMonitor watch force batch_del st = (false, st).
Proof. unfold removeMonitor. intros ->. reflexivity. Qed.

Lemma removeMonitor_known (watch : Z) (force batch_del : bool) (st : Publisher)
    (isc : SubId) :
  descriptor_inosubctx_ st !! watch = Some isc →
  let st' := snd (removeMonitor watch force batch_del st) in
  fst (removeMonitor watch force batch_del st) = true
  ∧ descriptor_inosubctx_ st' = delete watch (descriptor_inosubctx_ st)
  ∧ trace st' =
      trace st ++ (if force then [SysRmWatch (inotify_handle_ st) watch] else [])
  ∧ exclude_paths_ st' = exclude_paths_ st
  ∧ subscriptions_ st' = subscriptions_ st.
Proof.
  intros Hk. unfold removeMonitor. rewrite Hk. cbn [fst snd].
  destruct (inotify_sanity_check (upd_table (delete watch) st));
    [destruct (index_or_create "" watch
                 (descriptor_paths_ (deref (upd_table (delete watch) st) isc)))|];
    destruct batch_del, force; cbn; rewrite ?app_nil_r; auto.
Qed.

(** C3 (as amended): a self-moved record (one that is neither an overflow
    nor an ignored record) removes the descriptor's entry from the watch
    table and, when the table held the descriptor, issues exactly one
    kernel removal call for it; for a descriptor the table does not hold
    nothing happens. *)
Theorem move_self_issues_kernel_removal
    (env : Env) (ev : inotify_event) (st : Publisher) :
  bits_overlap (ev_mask ev) IN_Q_OVERFLOW = false →
  bits_overlap (ev_mask ev) IN_IGNORED = false →
  bits_overlap (ev_mask ev) IN_MOVE_SELF = true →
  ∃ st', process_record env ev st = Some st'
    ∧ descriptor_inosubctx_ st' !! wd ev = None
    ∧ (is_Some (descriptor_inosubctx_ st !! wd ev) →
       trace st' = trace st ++ [SysRmWatch (inotify_handle_ st) (wd ev)])
    ∧ (descriptor_inosubctx_ st !! wd ev = None → st' = st).
Proof.
  intros Ho Hi Hm. unfold process_record. rewrite Ho, Hi, Hm.
  eexists. split; [reflexivity|].
  destruct (descriptor_inosubctx_ st !! wd ev) as [isc|] eqn:Hk.
  - pose proof (removeMonitor_known (wd ev) true default_batch_del st isc Hk)
      as (_ & Ht & Htr & _). cbv zeta in *.
    rewrite Ht. split; [apply lookup_delete_eq|].
    split; [intros _; exact Htr | intros [=]].
  - rewrite (removeMonitor_unknown _ _ _ _ Hk). cbn [snd].
    split; [exact Hk|]. split; [intros [? [=]] | reflexivity].
Qed.

Lemma move_self_issues_kernel_removal_witness :
  ∃ st', process_record Sample.env (Sample.record 1 IN_MOVE_SELF "")
           (Sample.watching_etc true) = Some st'
    ∧ descriptor_inosubctx_ st' !! 1 = None
    ∧ (is_Some (descriptor_inosubctx_ (Sample.watching_etc true) !! 1) →
       trace st' = trace (Sample.watching_etc true) ++ [SysRmWatch 3 1])
    ∧ (descriptor_inosubctx_ (Sample.watching_etc true) !! 1 = None →
       st' = Sample.watching_etc true).
Proof.
  apply (move_self_issues_kernel_removal Sample.env
           (Sample.record 1 IN_MOVE_SELF "") (Sample.watching_etc true));
    vm_compute; reflexivity.
Defined.

(** C3 (as stated) fails: handling a self-moved record for a watched
    descriptor calls the kernel's watch removal for that descriptor. *)
Lemma move_self_calls_inotify_rm_watch :
  let st := Sample.watching_etc true in
  let ev := Sample.record 1 IN_MOVE_SELF "" in
  is_Some (descriptor_inosubctx_ st !! wd ev)
  ∧ filter is_rm_watch (trace st) = []
  ∧ option_map (fun st' => filter is_rm_watch (trace st'))
      (process_record Sample.env ev st) = Some [SysRmWatch 3 1].
Proof.
  cbv zeta. split; [|split].
  - exists 0%nat. vm_compute. reflexivity.
  - vm_compute. reflexivity.
  - vm_compute. reflexivity.
Qed.

(** X2: the records with which the kernel announces that it dropped the
    watch itself (ignored, and self-deleted when not self-moved) remove the
    table entry and issue no kernel call. *)
Lemma ignored_and_delete_self_leave_kernel_alone
    (env : Env) (ev : inotify_event) (st : Publisher) :
  bits_overlap (ev_mask ev) IN_Q_OVERFLOW = false →
  bits_overlap (ev_mask ev) IN_IGNORED = true
  ∨ (bits_overlap (ev_mask ev) IN_MOVE_SELF = false
     ∧ bits_overlap (ev_mask ev) IN_DELETE_SELF = true) →
  ∃ st', process_record env ev st = Some st'
    ∧ descriptor_inosubctx_ st' !! wd ev = None
    ∧ trace st' = trace st.
Proof.
  intros Ho Hcase. unfold process_record. rewrite Ho.
  assert (Hrm : descriptor_inosubctx_
                  (snd (removeMonitor (wd ev) false default_batch_del st)) !! wd ev
                = None
                ∧ trace (snd (removeMonitor (wd ev) false default_batch_del st))
                  = trace st).
  { destruct (descriptor_inosubctx_ st !! wd ev) as [isc|] eqn:Hk.
    - pose proof (removeMonitor_known (wd ev) false default_batch_del st isc Hk)
        as (_ & Ht & Htr & _). cbv zeta in *.
      rewrite Ht, Htr, app_nil_r. split; [apply lookup_delete_eq | reflexivity].
    - rewrite (removeMonitor_unknown _ _ _ _ Hk). auto. }
  destruct Hcase as [Hi | [Hm Hd]].
  - rewrite Hi. eexists. split; [reflexivity | exact Hrm].
  - destruct (bits_overlap (ev_mask ev) IN_IGNORED);
      [|rewrite Hm, Hd]; eexists; (split; [reflexivity | exact Hrm]).
Qed.

Lemma ignored_and_delete_self_leave_kernel_alone_witness :
  ∃ st', process_record Sample.env (Sample.record 1 IN_IGNORED "")
           (Sample.watching_etc true) = Some st'
    ∧ descriptor_inosubctx_ st' !! 1 = None
    ∧ trace st' = trace (Sample.watching_etc true).
Proof.
  apply (ignored_and_delete_self_leave_kernel_alone Sample.env
           (Sample.record 1 IN_IGNORED "") (Sample.watching_etc true));
    [vm_compute; reflexivity | left; vm_compute; reflexivity].
Defined.

(** ** What installing and removing watches leaves alone *)

Lemma deref_upd_ctx (i s : SubId)
    (f : INotifySubscriptionContext → INotifySubscriptionContext) (st : Publisher) :
  deref (upd_ctx i f st) s =
    if decide (i = s) then
      match contexts st !! i with Some c => f c | None => null_sc end
    else deref st s.
Proof.
  unfold deref, upd_ctx. cbn [contexts]. rewrite lookup_alter.
  case_decide as E; [|reflexivity].
  destruct (contexts st !! i); reflexivity.
Qed.

Lemma deref_upd_ctx_live (i : SubId)
    (f : INotifySubscriptionContext → INotifySubscriptionContext) (st : Publisher) :
  is_Some (contexts st !! i) → deref (upd_ctx i f st) i = f (deref st i).
Proof.
  intros [c Hc]. rewrite deref_upd_ctx. rewrite decide_True by reflexivity.
  unfold deref. rewrite Hc. reflexivity.
Qed.

Lemma deref_upd_ctx_ne (i s : SubId)
    (f : INotifySubscriptionContext → INotifySubscriptionContext) (st : Publisher) :
  i ≠ s → deref (upd_ctx i f st) s = deref st s.
Proof. intros Hne. rewrite deref_upd_ctx. rewrite decide_False by exact Hne. reflexivity. Qed.

Lemma same_pattern_refl (c : INotifySubscriptionContext) : same_pattern c c.
Proof. repeat split. Qed.

Lemma same_pattern_trans (a b c : INotifySubscriptionContext) :
  same_pattern a b → same_pattern b c → same_pattern a c.
Proof. intros (?&?&?) (?&?&?). repeat split; congruence. Qed.

Lemma frame_refl (P : Effect → Prop) (st : Publisher) : frame P st st.
Proof.
  repeat split; try tauto.
  exists []. rewrite app_nil_r. split; [reflexivity | constructor].
Qed.

Lemma frame_trans (P : Effect → Prop) (a b c : Publisher) :
  frame P a b → frame P b c → frame P a c.
Proof.
  intros (E1&S1&H1&F1&L1&C1&(n1&T1&A1)) (E2&S2&H2&F2&L2&C2&(n2&T2&A2)).
  repeat split; try congruence.
  - intros ?. apply L1, L2. assumption.
  - intros ?. apply L2, L1. assumption.
  - destruct (C1 s), (C2 s). congruence.
  - destruct (C1 s) as (?&?&?), (C2 s) as (?&?&?). congruence.
  - destruct (C1 s) as (?&?&?), (C2 s) as (?&?&?). congruence.
  - exists (n1 ++ n2). rewrite T2, T1, app_assoc. split; [reflexivity|].
    apply Forall_app. auto.
Qed.

Lemma frame_weaken (P Q : Effect → Prop) (a b : Publisher) :
  (∀ e, P e → Q e) → frame P a b → frame Q a b.
Proof.
  intros HPQ (E1&S1&H1&F1&L1&C1&(n1&T1&A1)).
  repeat split; try assumption; try apply L1; try apply C1.
  exists n1. split; [assumption|]. eapply Forall_impl; eauto.
Qed.

Lemma frame_emit (P : Effect → Prop) (e : Effect) (st : Publisher) :
  P e → frame P st (emit e st).
Proof.
  intros He. repeat split; try tauto.
  exists [e]. split; [reflexivity | repeat constructor; assumption].
Qed.

Lemma frame_upd_table (P : Effect → Prop) f (st : Publisher) :
  frame P st (upd_table f st).
Proof.
  repeat split; try tauto.
  exists []. cbn. rewrite app_nil_r. split; [reflexivity | constructor].
Qed.

Lemma frame_upd_path_descriptors (P : Effect → Prop) f (st : Publisher) :
  frame P st (upd_path_descriptors f st).
Proof.
  repeat split; try tauto.
  exists []. cbn. rewrite app_nil_r. split; [reflexivity | constructor].
Qed.

Lemma frame_upd_ctx (P : Effect → Prop) (i : SubId)
    (f : INotifySubscriptionContext → INotifySubscriptionContext) (st : Publisher) :
  (∀ c, same_pattern c (f c)) → frame P st (upd_ctx i f st).
Proof.
  intros Hf.
  assert (Hs : ∀ s, same_pattern (deref st s) (deref (upd_ctx i f st) s)).
  { intros s. rewrite deref_upd_ctx. case_decide as E; [|apply same_pattern_refl].
    subst s. unfold deref. destruct (contexts st !! i); [apply Hf|].
    apply same_pattern_refl. }
  repeat split; try apply Hs.
  - cbn. rewrite lookup_alter. case_decide; [subst|tauto].
    rewrite fmap_is_Some. tauto.
  - cbn. rewrite lookup_alter. case_decide; [subst|tauto].
    rewrite fmap_is_Some. tauto.
  - exists []. cbn. rewrite app_nil_r. split; [reflexivity | constructor].
Qed.

Lemma same_pattern_upd_descriptor_paths f (c : INotifySubscriptionContext) :
  same_pattern c (upd_descriptor_paths f c).
Proof. repeat split. Qed.

Lemma same_pattern_upd_path_sc_time f (c : INotifySubscriptionContext) :
  same_pattern c (upd_path_sc_time f c).
Proof. repeat split. Qed.

(** One primitive update, or a chain of them read from the outside in. *)
Ltac frame_step :=
  first [ apply frame_upd_table
        | apply frame_upd_path_descriptors
        | apply frame_upd_ctx; intros; repeat split
        | apply frame_emit; reflexivity ].

Ltac frame_chain :=
  repeat first [ frame_step | eapply frame_trans; [|frame_step] ];
  try apply frame_refl.

Lemma retire_frame (P : Effect → Prop) (watch : Z) (st : Publisher) :
  frame P st (retire watch st).
Proof.
  unfold retire. destruct (descriptor_inosubctx_ st !! watch) as [o|];
    [|apply frame_refl].
  destruct (inotify_sanity_check st).
  - destruct (index_or_create "" watch (descriptor_paths_ (deref st o))) as [wp dp].
    frame_chain.
  - frame_chain.
Qed.

Lemma record_watch_frame (P : Effect → Prop) (watch : Z) (path : string)
    (isc : SubId) (st : Publisher) :
  frame P st (record_watch watch path isc st).
Proof.
  unfold record_watch. cbv zeta.
  destruct (inotify_sanity_check _); frame_chain.
Qed.

Lemma addMonitor_locked_frame (env : Env) (path : string) (isc : SubId)
    (mask : Z) (add_watch : bool) (st : Publisher) :
  frame not_callback st (snd (addMonitor_locked env path isc mask add_watch st)).
Proof.
  unfold addMonitor_locked.
  destruct (add_watch && (inotify_add_watch env path =? -1)); cbn [snd].
  - frame_chain.
  - eapply frame_trans; [|apply record_watch_frame].
    eapply frame_trans; [|apply retire_frame].
    frame_chain.
Qed.

Lemma fold_left_frame {A} (P : Effect → Prop) (f : Publisher → A → Publisher)
    (l : list A) (st : Publisher) :
  (∀ s a, frame P s (f s a)) → frame P st (fold_left f l st).
Proof.
  intros Hf. revert st. induction l as [|a l IH]; intros st; cbn.
  - apply frame_refl.
  - eapply frame_trans; [apply Hf | apply IH].
Qed.

Lemma addMonitor_frame (env : Env) (path : string) (isc : SubId) (mask : Z)
    (recursive add_watch : bool) (st : Publisher) :
  frame not_callback st (snd (addMonitor env path isc mask recursive add_watch st)).
Proof.
  unfold addMonitor.
  pose proof (addMonitor_locked_frame env path isc mask add_watch st) as H1.
  destruct (addMonitor_locked env path isc mask add_watch st) as [ok st1].
  cbn [snd] in H1. destruct ok; cbn [negb]; [|exact H1].
  destruct (recursive && isDirectory env path); cbn [snd]; [|exact H1].
  eapply frame_trans; [exact H1|].
  apply fold_left_frame. intros s child. apply addMonitor_locked_frame.
Qed.

Lemma removeMonitor_frame (watch : Z) (force batch_del : bool) (st : Publisher) :
  frame not_callback st (snd (removeMonitor watch force batch_del st)).
Proof.
  unfold removeMonitor.
  destruct (descriptor_inosubctx_ st !! watch) as [isc|]; [|apply frame_refl].
  cbn [snd]. cbv zeta.
  destruct (inotify_sanity_check _);
    [destruct (index_or_create "" watch _)|];
    destruct batch_del, force; cbn [negb]; frame_chain.
Qed.

(** ** shouldFire: the exclude filter *)

Lemma PathSet_find_true (s : gset string) (p : string) :
  PathSet_find s p = true ↔ p ∈ s.
Proof. unfold PathSet_find. apply bool_decide_eq_true. Qed.

Lemma PathSet_find_false (s : gset string) (p : string) :
  PathSet_find s p = false ↔ p ∉ s.
Proof. unfold PathSet_find. apply bool_decide_eq_false. Qed.

Lemma PathSet_empty_false (s : gset string) :
  PathSet_empty s = false ↔ s ≠ ∅.
Proof. unfold PathSet_empty. apply bool_decide_eq_false. Qed.

(** The answer of [shouldFire] for a record that passed the ownership and
    the mask tests is the negation of the exclude filter, read on the
    exclude set the publisher had on entry. *)
Lemma shouldFire_after_mask_filter
    (env : Env) (sc : SubId) (ec : INotifyEventContext) (st : Publisher) :
  isub_ctx ec = Some sc →
  sc_mask (deref st sc) = 0
  ∨ bits_overlap (raw_mask ec) (sc_mask (deref st sc)) = true →
  fst (shouldFire env sc ec st) = negb (exclude_filter_drops st ec).
Proof.
  intros Hown Hmask. unfold shouldFire.
  rewrite bool_decide_eq_true_2 by (symmetry; exact Hown). cbn [negb].
  assert (Hpass : negb (sc_mask (deref st sc) =? 0)
                  && negb (bits_overlap (raw_mask ec) (sc_mask (deref st sc)))
                  = false).
  { destruct Hmask as [H0 | Hov].
    - rewrite H0. reflexivity.
    - rewrite Hov. apply andb_false_r. }
  rewrite Hpass. cbv zeta. unfold exclude_filter_drops.
  destruct (sc_recursive (deref st sc) && String.eqb (action ec) "CREATED"
            && isDirectory env (ec_path ec)).
  - pose proof (addMonitor_frame env (ec_path ec +:+ "/") sc
                  (sc_mask (deref st sc)) true default_add_watch st) as (Hex & _).
    rewrite Hex.
    destruct (negb (PathSet_empty (exclude_paths_ st))
              && (PathSet_find (exclude_paths_ st) (containing_dir (ec_path ec))
                  || PathSet_find (exclude_paths_ st) (ec_path ec))); reflexivity.
  - destruct (negb (PathSet_empty (exclude_paths_ st))
              && (PathSet_find (exclude_paths_ st) (containing_dir (ec_path ec))
                  || PathSet_find (exclude_paths_ st) (ec_path ec))); reflexivity.
Qed.

(** C1: for a record that reaches the exclude filter, a non-empty exclude
    set that holds the record's containing directory or its full path makes
    [shouldFire] answer false; when it holds neither, [shouldFire] answers
    true. *)
Theorem shouldFire_exclude_filter
    (env : Env) (sc : SubId) (ec : INotifyEventContext) (st : Publisher) :
  isub_ctx ec = Some sc →
  sc_mask (deref st sc) = 0
  ∨ bits_overlap (raw_mask ec) (sc_mask (deref st sc)) = true →
  (exclude_paths_ st ≠ ∅ →
   containing_dir (ec_path ec) ∈ exclude_paths_ st
   ∨ ec_path ec ∈ exclude_paths_ st →
   fst (shouldFire env sc ec st) = false)
  ∧ (containing_dir (ec_path ec) ∉ exclude_paths_ st →
     ec_path ec ∉ exclude_paths_ st →
     fst (shouldFire env sc ec st) = true).
Proof.
  intros Hown Hmask.
  rewrite (shouldFire_after_mask_filter env sc ec st Hown Hmask).
  unfold exclude_filter_drops. split.
  - intros Hne Hin. apply PathSet_empty_false in Hne. rewrite Hne. cbn [negb andb].
    destruct Hin as [Hd | Hp].
    + apply PathSet_find_true in Hd. rewrite Hd. reflexivity.
    + apply PathSet_find_true in Hp. rewrite Hp, orb_true_r. reflexivity.
  - intros Hd Hp. apply PathSet_find_false in Hd, Hp. rewrite Hd, Hp.
    rewrite andb_false_r. reflexivity.
Qed.

(** With ["/etc"] excluded, a change of ["/etc/passwd"] is dropped and a
    change of ["/var/passwd"], under a sibling directory, is let through. *)
Lemma shouldFire_exclude_filter_witness :
  let st := Sample.excluding {["/etc"]} (Sample.watching_etc false) in
  containing_dir "/etc/passwd" = "/etc"
  ∧ fst (shouldFire Sample.env 0%nat
           (Sample.context_for "/etc/passwd" "UPDATED" IN_MODIFY) st) = false
  ∧ fst (shouldFire Sample.env 0%nat
           (Sample.context_for "/var/passwd" "UPDATED" IN_MODIFY) st) = true.
Proof.
  cbv zeta. split; [reflexivity|]. split.
  - apply (shouldFire_exclude_filter Sample.env 0%nat
             (Sample.context_for "/etc/passwd" "UPDATED" IN_MODIFY)
             (Sample.excluding {["/etc"]} (Sample.watching_etc false)));
      [reflexivity | left; vm_compute; reflexivity | | ].
    + cbn. apply non_empty_singleton_L.
    + left. cbn. apply elem_of_singleton. reflexivity.
  - apply (shouldFire_exclude_filter Sample.env 0%nat
             (Sample.context_for "/var/passwd" "UPDATED" IN_MODIFY)
             (Sample.excluding {["/etc"]} (Sample.watching_etc false)));
      [reflexivity | left; vm_compute; reflexivity | | ].
    + cbn. rewrite elem_of_singleton. discriminate.
    + cbn. rewrite elem_of_singleton. discriminate.
Defined.

(** ** The reader loop: what reaches the subscribers *)

Lemma frame_set_events (P : Effect → Prop) (n : Z) (st : Publisher) :
  frame P st (set_events n st).
Proof.
  repeat split; try tauto.
  exists []. cbn. rewrite app_nil_r. split; [reflexivity | constructor].
Qed.

Lemma frame_set_last_overflow (P : Effect → Prop) (t : Z) (st : Publisher) :
  frame P st (set_last_overflow t st).
Proof.
  repeat split; try tauto.
  exists []. cbn. rewrite app_nil_r. split; [reflexivity | constructor].
Qed.

Lemma handleOverflow_frame (env : Env) (st : Publisher) :
  frame not_callback st (handleOverflow env st).
Proof.
  unfold handleOverflow.
  destruct (inotify_events_ st <? kINotifyMaxEvents).
  - eapply frame_trans; [|apply frame_set_events]. frame_chain.
  - destruct (negb (last_overflow_ st =? -1)
              && (to_size_t (getUnixTime env - last_overflow_ st) <? 60));
      [apply frame_refl|].
    eapply frame_trans; [|apply frame_set_last_overflow]. frame_chain.
Qed.

Lemma frame_no_new_callback (st st' : Publisher) :
  frame not_callback st st' →
  filter is_callback (trace st') = filter is_callback (trace st).
Proof.
  intros (_&_&_&_&_&_&(new & Ht & Hnew)). rewrite Ht, filter_app.
  assert (Hnil : filter is_callback new = []).
  { clear Ht. induction Hnew as [|e l He _ IH]; [reflexivity|].
    rewrite filter_cons. unfold not_callback in He.
    destruct (decide (is_callback e)) as [Hc|_]; [|exact IH].
    rewrite He in Hc. contradiction. }
  rewrite Hnil, app_nil_r. reflexivity.
Qed.

Lemma not_callback_owned (e : Effect) : not_callback e → owned_callback e.
Proof. destruct e; cbn; intros H; try exact I. discriminate. Qed.

Lemma shouldFire_frame
    (env : Env) (sc : SubId) (ec : INotifyEventContext) (st : Publisher) :
  frame not_callback st (snd (shouldFire env sc ec st)).
Proof.
  unfold shouldFire.
  destruct (negb (bool_decide (Some sc = isub_ctx ec))); [apply frame_refl|].
  destruct (negb (sc_mask (deref st sc) =? 0)
            && negb (bits_overlap (raw_mask ec) (sc_mask (deref st sc))));
    [apply frame_refl|].
  cbv zeta.
  destruct (sc_recursive (deref st sc) && String.eqb (action ec) "CREATED"
            && isDirectory env (ec_path ec)).
  - destruct (exclude_filter_drops _ ec); apply addMonitor_frame.
  - destruct (exclude_filter_drops st ec); apply frame_refl.
Qed.

(** [shouldFire] accepts an event context only for its owner. *)
Lemma shouldFire_true_owner
    (env : Env) (sc : SubId) (ec : INotifyEventContext) (st : Publisher) :
  fst (shouldFire env sc ec st) = true → isub_ctx ec = Some sc.
Proof.
  unfold shouldFire.
  destruct (bool_decide_reflect (Some sc = isub_ctx ec)) as [E|E]; cbn [negb].
  - intros _. symmetry. exact E.
  - intros [=].
Qed.

Lemma fire_frame (env : Env) (ec : INotifyEventContext) (st : Publisher) :
  action ec ≠ "" → frame owned_callback st (fire env ec st).
Proof.
  intros Hact. unfold fire. generalize (subscriptions_ st).
  intros subs. apply fold_left_frame. intros s sub.
  pose proof (shouldFire_frame env (context sub) ec s) as Hf.
  pose proof (shouldFire_true_owner env (context sub) ec s) as Ho.
  destruct (shouldFire env (context sub) ec s) as [b s1]. cbn [fst snd] in *.
  apply (frame_weaken _ _ _ _ not_callback_owned) in Hf.
  destruct b; [|exact Hf].
  eapply frame_trans; [exact Hf|]. apply frame_emit. cbn.
  split; [rewrite (Ho eq_refl); discriminate | exact Hact].
Qed.

Lemma process_record_frame
    (env : Env) (ev : inotify_event) (st st' : Publisher) :
  process_record env ev st = Some st' → frame owned_callback st st'.
Proof.
  unfold process_record.
  destruct (bits_overlap (ev_mask ev) IN_Q_OVERFLOW).
  { intros [= <-]. eapply frame_weaken;
      [apply not_callback_owned | apply handleOverflow_frame]. }
  destruct (bits_overlap (ev_mask ev) IN_IGNORED).
  { intros [= <-]. eapply frame_weaken;
      [apply not_callback_owned | apply removeMonitor_frame]. }
  destruct (bits_overlap (ev_mask ev) IN_MOVE_SELF).
  { intros [= <-]. eapply frame_weaken;
      [apply not_callback_owned | apply removeMonitor_frame]. }
  destruct (bits_overlap (ev_mask ev) IN_DELETE_SELF).
  { intros [= <-]. eapply frame_weaken;
      [apply not_callback_owned | apply removeMonitor_frame]. }
  destruct (createEventContextFrom st ev) as [ec|]; [|discriminate].
  destruct (String.eqb_spec (action ec) "") as [E|E]; cbn [negb].
  - intros [= <-]. apply frame_refl.
  - intros [= <-]. apply fire_frame. exact E.
Qed.

Lemma process_records_frame
    (env : Env) (evs : list inotify_event) (st : Publisher) :
  frame owned_callback st (snd (process_records env evs st)).
Proof.
  revert st. induction evs as [|ev evs IH]; intros st; cbn.
  - apply frame_refl.
  - destruct (process_record env ev st) as [st1|] eqn:E; [|apply frame_refl].
    eapply frame_trans; [exact (process_record_frame _ _ _ _ E) | apply IH].
Qed.

(** Every callback a tick adds to the trace carries an event context that
    has an owning subscription and a non-empty action. *)
Lemma run_emits_owned_callbacks
    (env : Env) (poll : PollResult) (rd : ReadResult) (st : Publisher) :
  ∃ new, trace (snd (run env poll rd st)) = trace st ++ new
         ∧ Forall owned_callback new.
Proof.
  assert (H : frame owned_callback st (snd (run env poll rd st))).
  { unfold run. destruct poll as [[]| |[]]; cbn [snd]; try apply frame_refl.
    - apply frame_emit. exact I.
    - destruct rd as [|evs]; cbn [snd]; [apply frame_refl|].
      pose proof (process_records_frame env evs st) as Hp.
      destruct (process_records env evs st). exact Hp. }
  apply H.
Qed.

(** C9: a record whose descriptor the watch table does not hold decodes to
    a context with no owning subscription, an empty path and an empty
    action; handling it calls no subscriber back; and every callback a
    tick makes carries a context with an owner and an action. *)
Theorem unknown_descriptor_is_never_emitted
    (env : Env) (ev : inotify_event) (st : Publisher) :
  descriptor_inosubctx_ st !! wd ev = None →
  createEventContextFrom st ev = Some (mkEC (Some ev) "" "" None)
  ∧ (∃ st', process_record env ev st = Some st'
            ∧ filter is_callback (trace st') = filter is_callback (trace st))
  ∧ (∀ poll rd st0,
       ∃ new, trace (snd (run env poll rd st0)) = trace st0 ++ new
              ∧ Forall owned_callback new).
Proof.
  intros Hunk.
  assert (Hblank : createEventContextFrom st ev = Some (mkEC (Some ev) "" "" None)).
  { unfold createEventContextFrom. rewrite Hunk. reflexivity. }
  split; [exact Hblank|]. split; [|intros; apply run_emits_owned_callbacks].
  unfold process_record.
  rewrite Hblank, (removeMonitor_unknown _ true _ _ Hunk),
    (removeMonitor_unknown _ false _ _ Hunk).
  cbn [snd action String.eqb negb].
  destruct (bits_overlap (ev_mask ev) IN_Q_OVERFLOW).
  { eexists. split; [reflexivity|].
    apply frame_no_new_callback, handleOverflow_frame. }
  destruct (bits_overlap (ev_mask ev) IN_IGNORED);
    [eexists; split; reflexivity|].
  destruct (bits_overlap (ev_mask ev) IN_MOVE_SELF);
    [eexists; split; reflexivity|].
  destruct (bits_overlap (ev_mask ev) IN_DELETE_SELF);
    eexists; split; reflexivity.
Qed.

(** A record for descriptor 7, which nobody watches, in a tick of its own:
    the subscribers see nothing. *)
Lemma unknown_descriptor_is_never_emitted_witness :
  createEventContextFrom (Sample.watching_etc true)
    (Sample.record 7 IN_MODIFY "passwd")
  = Some (mkEC (Some (Sample.record 7 IN_MODIFY "passwd")) "" "" None)
  ∧ filter is_callback
      (trace (snd (run Sample.env (PollReady true)
                     (ReadRecords [Sample.record 7 IN_MODIFY "passwd"])
                     (Sample.watching_etc true)))) = [].
Proof.
  pose proof (unknown_descriptor_is_never_emitted Sample.env
                (Sample.record 7 IN_MODIFY "passwd") (Sample.watching_etc true))
    as H.
  destruct H as (Hb & _ & _); [vm_compute; reflexivity|].
  split; [exact Hb | vm_compute; reflexivity].
Defined.

(** ** addMonitor: the entry it records *)

Lemma addMonitor_nonrecursive (env : Env) (path : string) (isc : SubId)
    (mask : Z) (add_watch : bool) (st : Publisher) :
  addMonitor env path isc mask false add_watch st
  = addMonitor_locked env path isc mask add_watch st.
Proof.
  unfold addMonitor.
  destruct (addMonitor_locked env path isc mask add_watch st) as [[] st1];
    reflexivity.
Qed.

(** When the locked block does not return early, the state is the recorded
    entry over the retired one. *)
Lemma addMonitor_locked_ok (env : Env) (path : string) (isc : SubId)
    (mask : Z) (add_watch : bool) (st : Publisher) :
  fst (addMonitor_locked env path isc mask add_watch st) = true →
  snd (addMonitor_locked env path isc mask add_watch st)
  = record_watch (inotify_add_watch env path) path isc
      (retire (inotify_add_watch env path)
         (emit (SysAddWatch (inotify_handle_ st) path
                  (kernel_mask mask)) st)).
Proof.
  unfold addMonitor_locked.
  destruct (add_watch && (inotify_add_watch env path =? -1)); [intros [=]|].
  reflexivity.
Qed.

Lemma addMonitor_locked_succeeds (env : Env) (path : string) (isc : SubId)
    (mask : Z) (add_watch : bool) (st : Publisher) :
  (add_watch = true → inotify_add_watch env path ≠ -1) →
  fst (addMonitor_locked env path isc mask add_watch st) = true.
Proof.
  intros Hok. unfold addMonitor_locked. destruct add_watch; [|reflexivity].
  destruct (Z.eqb_spec (inotify_add_watch env path) (-1)) as [E|E];
    [exfalso; apply Hok; auto | reflexivity].
Qed.

Lemma record_watch_reverse_index (watch : Z) (path : string) (isc : SubId)
    (st : Publisher) :
  path_descriptors_ (record_watch watch path isc st)
  = if inotify_sanity_check st then <[path := watch]> (path_descriptors_ st)
    else path_descriptors_ st.
Proof. unfold record_watch. cbn. destruct (inotify_sanity_check st); reflexivity. Qed.




(** ** isPathMonitored *)




(** ** Strings: the recursive marker *)

Lemma starts_with_marker (a : ascii) (s : string) :
  Str.starts_with "**" (String a s)
  = Ascii.eqb "*" a
    && match s with
       | EmptyString => false
       | String b _ => Ascii.eqb "*" b
       end.
Proof.
  cbn. destruct s as [|b s']; cbn; [reflexivity|].
  rewrite andb_true_r. reflexivity.
Qed.

(** The text before the first marker holds no marker. *)
Lemma find_marker_prefix_clean (s : string) (i : nat) :
  Str.find "**" s = Some i →
  Str.find "**" (String.substring 0 i s) = None.
Proof.
  revert i. induction s as [|a s IH]; intros i; [discriminate|].
  cbn [Str.find]. destruct (Str.starts_with "**" (String a s)) eqn:Hp.
  - intros [= <-]. reflexivity.
  - destruct (Str.find "**" s) as [j|] eqn:Hj; [|discriminate].
    intros [= <-]. cbn [String.substring Str.find].
    rewrite (IH j eq_refl). cbn [option_map].
    assert (Hq : Str.starts_with "**" (String a (String.substring 0 j s)) = false).
    { rewrite starts_with_marker in *.
      destruct (Ascii.eqb "*" a); [|reflexivity]. cbn [andb] in *.
      destruct j, s; cbn; try reflexivity. exact Hp. }
    rewrite Hq. reflexivity.
Qed.

Lemma append_cons (a : ascii) (s t : string) :
  String a s +:+ t = String a (s +:+ t).
Proof. reflexivity. Qed.

(** Appending a separator creates no marker. *)
Lemma find_marker_append_slash (s : string) :
  Str.find "**" s = None → Str.find "**" (s +:+ "/") = None.
Proof.
  induction s as [|a s IH]; [reflexivity|].
  rewrite append_cons. cbn [Str.find].
  destruct (Str.starts_with "**" (String a s)) eqn:Hp; [discriminate|].
  destruct (Str.find "**" s) as [j|]; [discriminate|]. intros _.
  rewrite (IH eq_refl). cbn [option_map].
  assert (Hq : Str.starts_with "**" (String a (s +:+ "/")) = false).
  { rewrite starts_with_marker in *.
    destruct (Ascii.eqb "*" a); [|reflexivity]. cbn [andb] in *.
    destruct s; [reflexivity | rewrite append_cons; exact Hp]. }
  rewrite Hq. reflexivity.
Qed.

Lemma back_is_append_slash (s : string) : Str.back_is "/" (s +:+ "/") = true.
Proof.
  unfold Str.back_is.
  assert (H : Str.back (s +:+ "/") = Some "/"%char).
  { induction s as [|a s IH]; [reflexivity|].
    rewrite append_cons. cbn [Str.back]. rewrite IH.
    destruct (s +:+ "/") eqn:E; [|reflexivity].
    destruct s; discriminate. }
  rewrite H. reflexivity.
Qed.

(** ** needMonitoring and monitorSubscription *)

Lemma index_or_create_fst {K} `{Countable K} {V} (dflt : V) (k : K) (m : gmap K V) :
  fst (index_or_create dflt k m) = default dflt (m !! k).
Proof. unfold index_or_create. destruct (m !! k); reflexivity. Qed.

(** The kernel call comes first in what the locked block adds to the trace. *)
Lemma addMonitor_locked_requests (env : Env) (path : string) (isc : SubId)
    (mask : Z) (add_watch : bool) (st : Publisher) :
  ∃ rest,
    trace (snd (addMonitor_locked env path isc mask add_watch st))
    = trace st ++ SysAddWatch (inotify_handle_ st) path (kernel_mask mask) :: rest.
Proof.
  unfold addMonitor_locked.
  destruct (add_watch && (inotify_add_watch env path =? -1)); cbn [snd].
  - eexists. cbn [trace emit]. rewrite <- app_assoc. reflexivity.
  - set (st0 := emit _ st).
    assert (Hf : frame not_callback st0
                   (record_watch (inotify_add_watch env path) path isc
                      (retire (inotify_add_watch env path) st0))).
    { eapply frame_trans; [apply retire_frame | apply record_watch_frame]. }
    destruct Hf as (_&_&_&_&_&_&(new & Ht & _)).
    exists new. rewrite Ht. subst st0. cbn [trace emit].
    rewrite <- app_assoc. reflexivity.
Qed.

Lemma addMonitor_requests (env : Env) (path : string) (isc : SubId) (mask : Z)
    (recursive add_watch : bool) (st : Publisher) :
  ∃ rest,
    trace (snd (addMonitor env path isc mask recursive add_watch st))
    = trace st ++ SysAddWatch (inotify_handle_ st) path (kernel_mask mask) :: rest.
Proof.
  unfold addMonitor.
  destruct (addMonitor_locked_requests env path isc mask add_watch st)
    as (rest & Hr).
  destruct (addMonitor_locked env path isc mask add_watch st) as [ok st1].
  cbn [snd] in Hr. destruct ok; cbn [negb]; [|eauto].
  destruct (recursive && isDirectory env path); cbn [snd]; [|eauto].
  assert (Hf : frame not_callback st1
                 (fold_left
                    (fun s child =>
                       snd (addMonitor_locked env (canonical env child +:+ "/")
                              isc mask default_add_watch s))
                    (listDirectoriesInDirectory env path) st1)).
  { apply fold_left_frame. intros s child. apply addMonitor_locked_frame. }
  destruct Hf as (_&_&_&_&_&_&(new & Ht & _)).
  exists (rest ++ new). rewrite Ht, Hr, <- app_assoc. reflexivity.
Qed.

Lemma needMonitoring_frame (env : Env) (path : string) (isc : SubId) (mask : Z)
    (recursive add_watch : bool) (st : Publisher) :
  frame not_callback st
    (snd (needMonitoring env path isc mask recursive add_watch st)).
Proof.
  unfold needMonitoring.
  destruct (index_or_create 0 path (path_sc_time_ (deref st isc))) as [t times].
  set (st1 := upd_ctx isc _ st).
  assert (H1 : frame not_callback st st1) by (subst st1; frame_chain).
  destruct (stat_ctime env path) as [ct|]; cbn [snd].
  - destruct (negb (t =? ct)); cbn [snd]; [|exact H1].
    pose proof (addMonitor_frame env path isc (sc_mask (deref st1 isc))
                  (sc_recursive (deref st1 isc)) add_watch st1) as H2.
    destruct (addMonitor env path isc (sc_mask (deref st1 isc))
                (sc_recursive (deref st1 isc)) add_watch st1) as [rc st2].
    cbn [snd] in H2. destruct rc; cbn [snd].
    + eapply frame_trans; [exact H1|]. eapply frame_trans; [exact H2|].
      frame_chain.
    + eapply frame_trans; [exact H1 | exact H2].
  - eapply frame_trans; [exact H1|]. frame_chain.
Qed.

(** When [stat] succeeds and the change time differs from the remembered
    one, [needMonitoring] asks the kernel for a watch on the path. *)
Lemma needMonitoring_requests (env : Env) (path : string) (isc : SubId)
    (mask : Z) (recursive add_watch : bool) (st : Publisher) (ct : Z) :
  stat_ctime env path = Some ct →
  cached_ctime (deref st isc) path ≠ ct →
  ∃ rest,
    trace (snd (needMonitoring env path isc mask recursive add_watch st))
    = trace st
      ++ SysAddWatch (inotify_handle_ st) path
           (kernel_mask (sc_mask (deref st isc))) :: rest.
Proof.
  intros Hstat Hdiff. unfold needMonitoring.
  pose proof (index_or_create_fst 0 path (path_sc_time_ (deref st isc))) as Hc.
  destruct (index_or_create 0 path (path_sc_time_ (deref st isc))) as [t times].
  cbn [fst] in Hc. fold (cached_ctime (deref st isc) path) in Hc. subst t.
  rewrite Hstat.
  destruct (Z.eqb_spec (cached_ctime (deref st isc) path) ct) as [E|_];
    [contradiction|]. cbn [negb].
  set (st1 := upd_ctx isc _ st).
  assert (Hm : sc_mask (deref st1 isc) = sc_mask (deref st isc)).
  { assert (H1 : frame not_callback st st1) by (subst st1; frame_chain).
    destruct H1 as (_&_&_&_&_&Hp&_). apply (Hp isc). }
  destruct (addMonitor_requests env path isc (sc_mask (deref st1 isc))
              (sc_recursive (deref st1 isc)) add_watch st1) as (rest & Hr).
  destruct (addMonitor env path isc (sc_mask (deref st1 isc))
              (sc_recursive (deref st1 isc)) add_watch st1) as [rc st2].
  cbn [snd] in Hr. exists rest.
  destruct rc; cbn [snd]; [cbn [trace upd_ctx]|]; rewrite Hr, Hm; reflexivity.
Qed.

Lemma upd_ctx_live (i s : SubId)
    (f : INotifySubscriptionContext → INotifySubscriptionContext) (st : Publisher) :
  is_Some (contexts (upd_ctx i f st) !! s) ↔ is_Some (contexts st !! s).
Proof.
  cbn. rewrite lookup_alter. case_decide; [subst|tauto].
  rewrite fmap_is_Some. tauto.
Qed.

Lemma strip_recursive_marker_live (sc s : SubId) (st : Publisher) :
  is_Some (contexts (strip_recursive_marker sc st) !! s)
  ↔ is_Some (contexts st !! s).
Proof.
  unfold strip_recursive_marker.
  destruct (Str.found (Str.find "**" (sc_path (deref st sc)))); [|tauto].
  rewrite !upd_ctx_live. tauto.
Qed.

(** A pattern with a marker: the flag is set and the pattern is cut. *)
Lemma strip_recursive_marker_found (sc : SubId) (st : Publisher)
    (c : INotifySubscriptionContext) (i : nat) :
  contexts st !! sc = Some c →
  Str.find "**" (sc_path c) = Some i →
  deref (strip_recursive_marker sc st) sc
  = set_sc_path (String.substring 0 i (sc_path c)) (set_sc_recursive true c).
Proof.
  intros Hc Hi. unfold strip_recursive_marker.
  assert (Hd : deref st sc = c) by (unfold deref; rewrite Hc; reflexivity).
  rewrite Hd, Hi. cbn [Str.found Str.substr0].
  rewrite deref_upd_ctx_live by (apply upd_ctx_live; eauto).
  rewrite deref_upd_ctx_live by eauto. rewrite Hd. reflexivity.
Qed.

(** A pattern without a marker is left as it is. *)
Lemma strip_recursive_marker_absent (sc : SubId) (st : Publisher) :
  Str.find "**" (sc_path (deref st sc)) = None →
  strip_recursive_marker sc st = st.
Proof. intros H. unfold strip_recursive_marker. rewrite H. reflexivity. Qed.

(** After the marker block, [monitorSubscription] keeps the recursive flag
    and either keeps the pattern or appends one separator to it. *)
Lemma monitorSubscription_pattern (env : Env) (sc : SubId) (add_watch : bool)
    (st : Publisher) :
  is_Some (contexts st !! sc) →
  let st1 := strip_recursive_marker sc st in
  let st' := snd (monitorSubscription env sc add_watch st) in
  sc_recursive (deref st' sc) = sc_recursive (deref st1 sc)
  ∧ (sc_path (deref st' sc) = sc_path (deref st1 sc)
     ∨ sc_path (deref st' sc) = sc_path (deref st1 sc) +:+ "/").
Proof.
  intros Hlive. cbv zeta. unfold monitorSubscription. cbv zeta.
  set (st1 := strip_recursive_marker sc st).
  assert (Hlive1 : is_Some (contexts st1 !! sc))
    by (apply strip_recursive_marker_live; exact Hlive).
  set (p := sc_path (deref st1 sc)).
  set (discovered := if Str.found (Str.find_char "*" p) then _ else p).
  destruct (Str.found (Str.find_char "*" p)
            && Str.found (Str.find_char "*" discovered)); cbn [snd].
  - set (st2 := upd_ctx sc _ st1).
    assert (H2 : frame not_callback st1 st2) by (subst st2; frame_chain).
    assert (H3 : frame not_callback st2
              (fold_left
                 (fun s _path =>
                    snd (needMonitoring env _path sc (sc_mask (deref s sc))
                           (sc_recursive (deref s sc)) add_watch s))
                 (resolveFilePattern env discovered) st2)).
    { apply fold_left_frame. intros s a. apply needMonitoring_frame. }
    destruct (frame_trans _ _ _ _ H2 H3) as (_&_&_&_&_&Hp&_).
    destruct (Hp sc) as (Hpath & _ & Hrec). split; [exact Hrec | left; exact Hpath].
  - destruct (isDirectory env discovered && negb (Str.back_is "/" discovered)).
    + set (st2 := upd_ctx sc _ st1).
      pose proof (needMonitoring_frame env (discovered +:+ "/") sc
                    (sc_mask (deref st2 sc)) (sc_recursive (deref st2 sc))
                    add_watch st2) as (_&_&_&_&_&Hp&_).
      destruct (Hp sc) as (Hpath & _ & Hrec). rewrite Hpath, Hrec.
      subst st2. rewrite deref_upd_ctx_live by exact Hlive1.
      split; [reflexivity | right; reflexivity].
    + pose proof (needMonitoring_frame env discovered sc
                    (sc_mask (deref st1 sc)) (sc_recursive (deref st1 sc))
                    add_watch st1) as (_&_&_&_&_&Hp&_).
      destruct (Hp sc) as (Hpath & _ & Hrec).
      split; [exact Hrec | left; exact Hpath].
Qed.


(** ** The watch table under addMonitor and removeMonitor *)

Lemma index_or_create_snd_ne {V} (dflt : V) (k d : Z) (m : gmap Z V) :
  d ≠ k → snd (index_or_create dflt k m) !! d = m !! d.
Proof.
  intros Hne. unfold index_or_create. destruct (m !! k); [reflexivity|].
  cbn [snd]. apply lookup_insert_ne. congruence.
Qed.

Lemma descriptor_paths_upd_ctx (i s : SubId) (g : gmap Z string → gmap Z string)
    (st : Publisher) :
  descriptor_paths_ (deref (upd_ctx i (upd_descriptor_paths g) st) s)
  = if decide (i = s) then
      match contexts st !! i with
      | Some c => g (descriptor_paths_ c)
      | None => ∅
      end
    else descriptor_paths_ (deref st s).
Proof.
  rewrite deref_upd_ctx. case_decide; [|reflexivity].
  destruct (contexts st !! i); reflexivity.
Qed.

(** An update of one context's descriptor map that keeps every key but [w]. *)
Lemma only_at_upd_ctx (w : Z) (i : SubId) (g : gmap Z string → gmap Z string)
    (st : Publisher) :
  (∀ m d, d ≠ w → g m !! d = m !! d) →
  only_at w st (upd_ctx i (upd_descriptor_paths g) st).
Proof.
  intros Hg. split; [reflexivity|]. intros s d Hne.
  rewrite descriptor_paths_upd_ctx. case_decide as E; [subst s|reflexivity].
  unfold deref. destruct (contexts st !! i); [apply Hg; exact Hne|reflexivity].
Qed.

Lemma only_at_refl (w : Z) (st : Publisher) : only_at w st st.
Proof. split; reflexivity. Qed.

Lemma only_at_trans (w : Z) (a b c : Publisher) :
  only_at w a b → only_at w b c → only_at w a c.
Proof.
  intros (T1 & D1) (T2 & D2). split.
  - intros d Hne. rewrite T2, T1 by exact Hne. reflexivity.
  - intros s d Hne. rewrite D2, D1 by exact Hne. reflexivity.
Qed.

Lemma only_at_upd_table (w : Z) (f : gmap Z SubId → gmap Z SubId) (st : Publisher) :
  (∀ m d, d ≠ w → f m !! d = m !! d) → only_at w st (upd_table f st).
Proof. intros Hf. split; [intros d Hne; apply Hf; exact Hne | reflexivity]. Qed.

Lemma only_at_upd_path_descriptors (w : Z) f (st : Publisher) :
  only_at w st (upd_path_descriptors f st).
Proof. split; reflexivity. Qed.

Lemma only_at_emit (w : Z) (e : Effect) (st : Publisher) : only_at w st (emit e st).
Proof. split; reflexivity. Qed.

Lemma only_at_resolve (w d : Z) (st st' : Publisher) :
  only_at w st st' → d ≠ w → resolve st' d = resolve st d.
Proof.
  intros (Ht & Hd) Hne. unfold resolve. rewrite (Ht d Hne).
  destruct (descriptor_inosubctx_ st !! d) as [o|]; [|reflexivity].
  rewrite (Hd o d Hne). reflexivity.
Qed.

Ltac only_at_step w :=
  first [ apply only_at_upd_path_descriptors
        | apply only_at_emit
        | apply only_at_upd_table; intros ? ? ?;
          first [ apply lookup_delete_ne | apply lookup_insert_ne ]; congruence
        | apply only_at_upd_ctx; intros ? ? ?;
          first [ apply lookup_delete_ne | apply lookup_insert_ne ]; congruence ].

Lemma retire_only_at (w : Z) (st : Publisher) : only_at w st (retire w st).
Proof.
  unfold retire. destruct (descriptor_inosubctx_ st !! w) as [old|];
    [|apply only_at_refl].
  assert (Hcreate : only_at w st
            (upd_ctx old
               (upd_descriptor_paths
                  (fun _ => snd (index_or_create "" w
                                   (descriptor_paths_ (deref st old))))) st)).
  { split; [reflexivity|]. intros s d Hne.
    rewrite descriptor_paths_upd_ctx. case_decide as E; [subst s|reflexivity].
    unfold deref at 2. destruct (contexts st !! old) eqn:Hc; [|reflexivity].
    rewrite index_or_create_snd_ne by exact Hne.
    unfold deref. rewrite Hc. reflexivity. }
  destruct (inotify_sanity_check st).
  - destruct (index_or_create "" w (descriptor_paths_ (deref st old)))
      as [wp dp] eqn:Hi. cbn [snd] in Hcreate.
    eapply only_at_trans; [exact Hcreate|].
    eapply only_at_trans; [apply only_at_upd_path_descriptors|].
    eapply only_at_trans; [|only_at_step w]. only_at_step w.
  - eapply only_at_trans; [|only_at_step w]. only_at_step w.
Qed.

Lemma record_watch_only_at (w : Z) (path : string) (isc : SubId) (st : Publisher) :
  only_at w st (record_watch w path isc st).
Proof.
  unfold record_watch. cbv zeta.
  assert (H2 : only_at w st
            (upd_table <[w:=isc]>
               (upd_ctx isc (upd_descriptor_paths <[w:=path]>) st))).
  { eapply only_at_trans; [|only_at_step w]. only_at_step w. }
  destruct (inotify_sanity_check _); [|exact H2].
  eapply only_at_trans; [exact H2 | apply only_at_upd_path_descriptors].
Qed.

Lemma removeMonitor_only_at (w : Z) (force batch_del : bool) (st : Publisher) :
  only_at w st (snd (removeMonitor w force batch_del st)).
Proof.
  unfold removeMonitor. destruct (descriptor_inosubctx_ st !! w) as [isc|];
    [|apply only_at_refl].
  cbn [snd]. cbv zeta.
  set (st1 := upd_table (delete w) st).
  assert (H1 : only_at w st st1) by (subst st1; only_at_step w).
  assert (Hcreate : only_at w st1
            (upd_ctx isc
               (upd_descriptor_paths
                  (fun _ => snd (index_or_create "" w
                                   (descriptor_paths_ (deref st1 isc))))) st1)).
  { split; [reflexivity|]. intros s d Hne.
    rewrite descriptor_paths_upd_ctx. case_decide as E; [subst s|reflexivity].
    unfold deref at 2. destruct (contexts st1 !! isc) eqn:Hc; [|reflexivity].
    rewrite index_or_create_snd_ne by exact Hne.
    unfold deref. rewrite Hc. reflexivity. }
  set (st2 := if inotify_sanity_check st1 then _ else st1).
  assert (H2 : only_at w st st2).
  { subst st2. destruct (inotify_sanity_check st1); [|exact H1].
    destruct (index_or_create "" w (descriptor_paths_ (deref st1 isc)))
      as [wp dp]. cbn [snd] in Hcreate.
    eapply only_at_trans; [exact H1|].
    eapply only_at_trans; [exact Hcreate | apply only_at_upd_path_descriptors]. }
  set (st3 := if negb batch_del then _ else st2).
  assert (H3 : only_at w st st3).
  { subst st3. destruct (negb batch_del); [|exact H2].
    eapply only_at_trans; [exact H2 | only_at_step w]. }
  destruct force; [|exact H3].
  eapply only_at_trans; [exact H3 | apply only_at_emit].
Qed.

Lemma retire_table_at (w : Z) (st : Publisher) :
  descriptor_inosubctx_ (retire w st) !! w = None.
Proof.
  unfold retire. destruct (descriptor_inosubctx_ st !! w) as [old|] eqn:E;
    [|exact E].
  cbn [descriptor_inosubctx_ upd_table]. apply lookup_delete_eq.
Qed.

(** The previous owner no longer holds a path for the descriptor. *)
Lemma retire_owner_at (w : Z) (st : Publisher) (old : SubId) :
  descriptor_inosubctx_ st !! w = Some old →
  descriptor_paths_ (deref (retire w st) old) !! w = None.
Proof.
  intros Hold. unfold retire. rewrite Hold.
  match goal with
  | |- descriptor_paths_ (deref (upd_table _ (upd_ctx _ _ ?x)) _) !! _ = _ =>
      change (descriptor_paths_
                (deref (upd_ctx old (upd_descriptor_paths (delete w)) x) old) !! w
              = None)
  end.
  rewrite descriptor_paths_upd_ctx, decide_True by reflexivity.
  destruct (contexts _ !! old); [apply lookup_delete_eq | apply lookup_empty].
Qed.


Lemma record_watch_resolve (w : Z) (path : string) (isc : SubId) (st : Publisher) :
  is_Some (contexts st !! isc) →
  resolve (record_watch w path isc st) w = Some (path, isc).
Proof.
  intros Hlive. unfold resolve.
  assert (Ht : descriptor_inosubctx_ (record_watch w path isc st) !! w = Some isc).
  { unfold record_watch. cbv zeta. destruct (inotify_sanity_check _);
      cbn [descriptor_inosubctx_ upd_table upd_path_descriptors];
      apply lookup_insert_eq. }
  assert (Hd : descriptor_paths_ (deref (record_watch w path isc st) isc) !! w
               = Some path).
  { assert (Heq : deref (record_watch w path isc st) isc
                  = deref (upd_ctx isc (upd_descriptor_paths <[w:=path]>) st) isc).
    { unfold record_watch. cbv zeta. destruct (inotify_sanity_check _); reflexivity. }
    rewrite Heq, descriptor_paths_upd_ctx, decide_True by reflexivity.
    destruct Hlive as [c ->]. apply lookup_insert_eq. }
  rewrite Ht, Hd. reflexivity.
Qed.

(** What a successful pass through the locked block of [addMonitor] does to
    the table. *)
Lemma addMonitor_locked_table (env : Env) (path : string) (isc : SubId)
    (mask : Z) (add_watch : bool) (st : Publisher) :
  is_Some (contexts st !! isc) →
  fst (addMonitor_locked env path isc mask add_watch st) = true →
  let w := inotify_add_watch env path in
  let st' := snd (addMonitor_locked env path isc mask add_watch st) in
  resolve st' w = Some (path, isc)
  ∧ (∀ old, descriptor_inosubctx_ st !! w = Some old → old ≠ isc →
            descriptor_paths_ (deref st' old) !! w = None)
  ∧ only_at w st st'
  ∧ (inotify_sanity_check st = true → path_descriptors_ st' !! path = Some w).
Proof.
  intros Hlive Hok. cbv zeta. rewrite (addMonitor_locked_ok _ _ _ _ _ _ Hok).
  set (w := inotify_add_watch env path).
  set (st0 := emit _ st).
  pose proof (retire_frame not_callback w st0) as (_&_&_&Hs&Hl&_).
  split; [|split; [|split]].
  - apply record_watch_resolve. apply Hl. exact Hlive.
  - intros old Hold Hne.
    assert (Heq : deref (record_watch w path isc (retire w st0)) old
                  = deref (retire w st0) old).
    { unfold record_watch. cbv zeta.
      destruct (inotify_sanity_check _);
        change (deref (upd_ctx isc (upd_descriptor_paths <[w:=path]>)
                         (retire w st0)) old = deref (retire w st0) old);
        apply deref_upd_ctx_ne; congruence. }
    rewrite Heq. apply retire_owner_at. exact Hold.
  - eapply only_at_trans; [apply (only_at_emit w)|].
    eapply only_at_trans; [apply retire_only_at | apply record_watch_only_at].
  - intros Hon. rewrite record_watch_reverse_index, Hs.
    subst st0. cbn [inotify_sanity_check emit]. rewrite Hon.
    apply lookup_insert_eq.
Qed.

Lemma removeMonitor_reverse_index (w : Z) (force batch_del : bool) (st : Publisher) :
  path_descriptors_ (snd (removeMonitor w force batch_del st))
  = match descriptor_inosubctx_ st !! w with
    | Some isc =>
        if inotify_sanity_check st then
          delete (default "" (descriptor_paths_ (deref st isc) !! w))
            (path_descriptors_ st)
        else path_descriptors_ st
    | None => path_descriptors_ st
    end.
Proof.
  unfold removeMonitor.
  destruct (descriptor_inosubctx_ st !! w) as [isc|]; [|reflexivity].
  cbn [snd]. cbv zeta.
  change (inotify_sanity_check (upd_table (delete w) st))
    with (inotify_sanity_check st).
  change (deref (upd_table (delete w) st) isc) with (deref st isc).
  destruct (inotify_sanity_check st).
  - pose proof (index_or_create_fst "" w (descriptor_paths_ (deref st isc))) as Hf.
    destruct (index_or_create "" w (descriptor_paths_ (deref st isc))) as [wp dp].
    cbn [fst] in Hf. subst wp. destruct batch_del, force; reflexivity.
  - destruct batch_del, force; reflexivity.
Qed.









(** ** End to end *)

(** Subscribing to ["/etc/**"]: the subscription becomes recursive on
    ["/etc/"], and [configure] asks for a watch on ["/etc/"] and on the
    directory below it. *)
Example configure_recursive_subscription :
  let st := configure Sample.env ["/etc/skel"; ""]
              (Sample.publisher true 16 "/etc/**") in
  sc_path (deref st 0%nat) = "/etc/"
  ∧ sc_recursive (deref st 0%nat) = true
  ∧ trace st = [SysAddWatch 3 "/etc/" kFileDefaultMasks;
                SysAddWatch 3 "/etc/ssh/" kFileDefaultMasks]
  ∧ resolve st 1 = Some ("/etc/", 0%nat)
  ∧ resolve st 3 = Some ("/etc/ssh/", 0%nat)
  ∧ exclude_paths_ st = {["/etc/skel"]}.
Proof. vm_compute. repeat split; reflexivity. Qed.

(** A content-modify record on a watched directory reaches the subscriber
    once, as UPDATED with the absolute path; a record for a descriptor
    nobody watches, in the same tick, reaches nobody. *)
Example run_modify_record :
  let st := configure Sample.env [] (Sample.publisher true 16 "/etc/**") in
  let tick :=
    run Sample.env (PollReady true)
      (ReadRecords [Sample.record 1 IN_MODIFY "passwd";
                    Sample.record 9 IN_MODIFY "stray"]) st in
  fst tick = Some (mkStatus 0 "OK")
  ∧ filter is_callback (trace (snd tick))
    = [Callback "file_events"
         (mkEC (Some (Sample.record 1 IN_MODIFY "passwd")) "/etc/passwd"
            "UPDATED" (Some 0%nat))].
Proof. vm_compute. split; reflexivity. Qed.

(** * Further properties *)

(** ** The exclude set *)

Lemma exclude_fold_membership (patterns : list string) (st : Publisher) (p : string) :
  p ∈ exclude_paths_
        (fold_left
           (fun s pattern =>
              if String.eqb pattern "" then s
              else set_exclude_paths ({[pattern]} ∪ exclude_paths_ s) s)
           patterns st)
  ↔ p ∈ exclude_paths_ st ∨ (In p patterns ∧ p ≠ "").
Proof.
  revert st. induction patterns as [|q l IH]; intros st; cbn [fold_left In].
  - tauto.
  - rewrite IH. destruct (String.eqb_spec q "") as [->|Hq].
    + split; [intros [H|[H Hne]]; auto | intros [H|[[<-|H] Hne]]; auto].
      contradiction.
    + cbn [exclude_paths_ set_exclude_paths]. rewrite elem_of_union, elem_of_singleton.
      split.
      * intros [[->|H]|[H Hne]]; auto.
      * intros [H|[[->|H] Hne]]; auto.
Qed.

(** X3: after [buildExcludePathsSet] the patterns inserted in the exclude
    set are exactly the non-empty configured patterns: what it held before
    is gone, empty patterns are skipped, and nothing but the exclude set
    changes. *)
Theorem buildExcludePathsSet_membership
    (patterns : list string) (st : Publisher) (p : string) :
  (p ∈ exclude_paths_ (buildExcludePathsSet patterns st)
   ↔ In p patterns ∧ p ≠ "")
  ∧ set_exclude_paths (exclude_paths_ st) (buildExcludePathsSet patterns st) = st.
Proof.
  split.
  - unfold buildExcludePathsSet.
    rewrite exclude_fold_membership. cbn [exclude_paths_ set_exclude_paths].
    rewrite elem_of_empty. tauto.
  - unfold buildExcludePathsSet.
    assert (H : ∀ s0, set_exclude_paths (exclude_paths_ st)
                        (fold_left
                           (fun s pattern =>
                              if String.eqb pattern "" then s
                              else set_exclude_paths
                                     ({[pattern]} ∪ exclude_paths_ s) s)
                           patterns s0)
                      = set_exclude_paths (exclude_paths_ st) s0).
    { induction patterns as [|q l IH]; intros s0; cbn [fold_left]; [reflexivity|].
      rewrite IH. destruct (String.eqb q ""); reflexivity. }
    rewrite H. destruct st; reflexivity.
Qed.

(** ** removeSubscriptions *)

Lemma subscribed_by_cons (subscriber : string) (s : SubId) (sub : Subscription)
    (subs : list Subscription) :
  subscribed_by subscriber s (sub :: subs)
  = (String.eqb (subscriber_name sub) subscriber && bool_decide (context sub = s))
    || subscribed_by subscriber s subs.
Proof. reflexivity. Qed.

Lemma mark_fold_contexts (subscriber : string) (subs : list Subscription)
    (st : Publisher) (s : SubId) :
  contexts
    (fold_left
       (fun s0 sub =>
          if String.eqb (subscriber_name sub) subscriber then
            upd_ctx (context sub) (set_mark_for_deletion true) s0
          else s0) subs st) !! s
  = (if subscribed_by subscriber s subs then set_mark_for_deletion true else id)
      <$> contexts st !! s.
Proof.
  revert st. induction subs as [|sub subs IH]; intros st; cbn [fold_left].
  - cbn. destruct (contexts st !! s); reflexivity.
  - rewrite IH, subscribed_by_cons.
    destruct (String.eqb (subscriber_name sub) subscriber); cbn [andb orb];
      [|reflexivity].
    cbn [contexts upd_ctx]. rewrite lookup_alter.
    destruct (bool_decide_reflect (context sub = s)) as [E|E]; cbn [orb].
    + rewrite decide_True by exact E. subst s.
      destruct (contexts st !! context sub) as [c|]; [|reflexivity]. cbn.
      destruct (subscribed_by subscriber (context sub) subs); reflexivity.
    + rewrite decide_False by exact E. reflexivity.
Qed.

(** X4: [removeSubscriptions] sets the deletion mark of exactly the
    contexts that a subscription of the named subscriber refers to; it
    changes no other member of any context and nothing else in the
    publisher, the subscription list included. *)
Theorem removeSubscriptions_marks (subscriber : string) (st : Publisher) :
  let st' := removeSubscriptions subscriber st in
  subscriptions_ st' = subscriptions_ st
  ∧ (∀ s, contexts st' !! s
          = (if subscribed_by subscriber s (subscriptions_ st)
             then set_mark_for_deletion true else id) <$> contexts st !! s)
  ∧ descriptor_inosubctx_ st' = descriptor_inosubctx_ st
  ∧ path_descriptors_ st' = path_descriptors_ st
  ∧ exclude_paths_ st' = exclude_paths_ st
  ∧ trace st' = trace st.
Proof.
  cbv zeta. unfold removeSubscriptions.
  assert (H : ∀ subs s0,
            let r := fold_left
                       (fun s1 sub =>
                          if String.eqb (subscriber_name sub) subscriber then
                            upd_ctx (context sub) (set_mark_for_deletion true) s1
                          else s1) subs s0 in
            subscriptions_ r = subscriptions_ s0
            ∧ descriptor_inosubctx_ r = descriptor_inosubctx_ s0
            ∧ path_descriptors_ r = path_descriptors_ s0
            ∧ exclude_paths_ r = exclude_paths_ s0
            ∧ trace r = trace s0).
  { induction subs as [|sub subs IH]; intros s0; cbn [fold_left]; [auto|].
    destruct (IH (if String.eqb (subscriber_name sub) subscriber
                  then upd_ctx (context sub) (set_mark_for_deletion true) s0
                  else s0)) as (H1 & H2 & H3 & H4 & H5).
    cbv zeta. rewrite H1, H2, H3, H4, H5.
    destruct (String.eqb (subscriber_name sub) subscriber); auto. }
  destruct (H (subscriptions_ st) st) as (H1 & H2 & H3 & H4 & H5).
  split; [exact H1|]. split; [intros s; apply mark_fold_contexts|]. auto.
Qed.

(** ** Repeated overflows *)

Lemma handleOverflow_events (env : Env) (st : Publisher) :
  inotify_events_ (handleOverflow env st)
  = if inotify_events_ st <? kINotifyMaxEvents then inotify_events_ st * 2
    else inotify_events_ st.
Proof.
  unfold handleOverflow. destruct (inotify_events_ st <? kINotifyMaxEvents);
    [reflexivity|].
  destruct (negb (last_overflow_ st =? -1)
            && (to_size_t (getUnixTime env - last_overflow_ st) <? 60)); reflexivity.
Qed.

(** X5: started at a power of two not above the cap, the multiplier stays
    one through any run of overflows: it doubles until it is 512 and then
    stays there, so it never exceeds the cap the buffer was sized for. *)
Theorem overflows_stay_within_cap (envs : list Env) (st : Publisher) (k : Z) :
  0 ≤ k ≤ 9 →
  inotify_events_ st = 2 ^ k →
  inotify_events_ (overflows envs st) = 2 ^ Z.min 9 (k + Z.of_nat (length envs))
  ∧ inotify_events_ (overflows envs st) ≤ kINotifyMaxEvents.
Proof.
  intros Hk Hev.
  assert (Hval : inotify_events_ (overflows envs st)
                 = 2 ^ Z.min 9 (k + Z.of_nat (length envs))).
  { revert st k Hk Hev. induction envs as [|env envs IH]; intros st k Hk Hev.
    - cbn. rewrite Z.add_0_r, Z.min_r by lia. exact Hev.
    - unfold overflows in *. cbn [fold_left length].
      destruct (Z.eq_dec k 9) as [->|Hne].
      + rewrite (IH (handleOverflow env st) 9); [|lia|].
        * rewrite !Z.min_l by lia. reflexivity.
        * rewrite handleOverflow_events, Hev. reflexivity.
      + rewrite (IH (handleOverflow env st) (k + 1)); [|lia|].
        * f_equal. lia.
        * rewrite handleOverflow_events, Hev.
          assert (Hlt : 2 ^ k < 2 ^ 9) by (apply Z.pow_lt_mono_r; lia).
          change kINotifyMaxEvents with (2 ^ 9).
          destruct (Z.ltb_spec (2 ^ k) (2 ^ 9)); [|lia].
          rewrite Z.pow_add_r by lia. lia. }
  split; [exact Hval|]. rewrite Hval. change kINotifyMaxEvents with (2 ^ 9).
  apply Z.pow_le_mono_r; lia.
Qed.

(** From 16, seven overflows: 512, not 2048. *)
Lemma overflows_stay_within_cap_witness :
  inotify_events_
    (overflows (repeat Sample.env 7) (Sample.publisher false 16 "/etc/")) = 512.
Proof.
  destruct (overflows_stay_within_cap (repeat Sample.env 7)
              (Sample.publisher false 16 "/etc/") 4) as (H & _);
    [lia | reflexivity |].
  rewrite H. reflexivity.
Defined.

(** ** Which records carry an action *)

Lemma dispatch_mask_bits :
  dispatch_mask
  = Z.lor IN_ACCESS (Z.lor IN_MODIFY (Z.lor IN_ATTRIB (Z.lor IN_CLOSE_WRITE
      (Z.lor IN_OPEN (Z.lor IN_MOVED_FROM (Z.lor IN_MOVED_TO
         (Z.lor IN_CREATE IN_DELETE))))))).
Proof. reflexivity. Qed.

Lemma first_action_empty_iff (mask : Z) :
  first_action kMaskActions mask = "" ↔ Z.land mask dispatch_mask = 0.
Proof.
  rewrite first_action_kMaskActions, dispatch_mask_bits.
  rewrite !Z.land_lor_distr_r, !Z.lor_eq_0_iff.
  unfold action_by_bit_value, bits_overlap.
  repeat match goal with
         | |- context [Z.land mask ?b =? 0] =>
             destruct (Z.eqb_spec (Z.land mask b) 0); cbn [negb];
             [|split; [discriminate | tauto]]
         end.
  tauto.
Qed.

(** X6: the context decoded from a record has an empty action, and is
    therefore not handed to [fire], exactly when the descriptor is not in
    the watch table or the raw mask has none of the nine bits of the
    default and access masks; a record that carries only other bits, such
    as close-without-write, is skipped. *)
Theorem action_empty_iff
    (st : Publisher) (ev : inotify_event) (ec : INotifyEventContext) :
  createEventContextFrom st ev = Some ec →
  (action ec = ""
   ↔ descriptor_inosubctx_ st !! wd ev = None
     ∨ Z.land (ev_mask ev) dispatch_mask = 0).
Proof.
  unfold createEventContextFrom.
  destruct (descriptor_inosubctx_ st !! wd ev) as [isc|].
  - destruct (descriptor_paths_ (deref st isc) !! wd ev) as [p|]; [|discriminate].
    intros [= <-]. cbv [action].
    pose proof (first_action_empty_iff (ev_mask ev)) as Hiff.
    split; [intros H; right; apply Hiff, H | intros [[=]|H]; apply Hiff, H].
  - intros [= <-]. cbn. tauto.
Qed.

Lemma action_empty_iff_witness :
  ∃ ec, createEventContextFrom (Sample.watching_etc true)
          (Sample.record 1 IN_CLOSE_NOWRITE "passwd") = Some ec
        ∧ action ec = "".
Proof.
  eexists. split; [vm_compute; reflexivity|].
  apply (action_empty_iff (Sample.watching_etc true)
           (Sample.record 1 IN_CLOSE_NOWRITE "passwd"));
    [vm_compute; reflexivity | right; reflexivity].
Defined.

(** ** setUp and tearDown together *)

(** X7: on a publisher that holds no buffer, [setUp] reports success
    exactly when [inotify_init] gave a handle other than -1 and [malloc]
    gave a buffer; when only [malloc] fails the handle stays open although
    [setUp] reports failure; and a [tearDown] after [setUp] closes the
    handle if it is above -1, frees the buffer if one was allocated, and
    leaves the publisher with handle -1 and no buffer. *)
Theorem setUp_then_tearDown
    (init_result : Z) (malloc_result : option Z) (st : Publisher) :
  scratch_ st = None →
  let r := setUp init_result malloc_result st in
  (code (fst r) = 0 ↔ init_result ≠ -1 ∧ is_Some malloc_result)
  ∧ inotify_handle_ (snd r) = init_result
  ∧ scratch_ (snd r) = (if init_result =? -1 then None else malloc_result)
  ∧ inotify_handle_ (tearDown (snd r)) = -1
  ∧ scratch_ (tearDown (snd r)) = None
  ∧ trace (tearDown (snd r))
    = trace st
      ++ (if init_result >? -1 then [SysClose init_result] else [])
      ++ (if negb (init_result =? -1) && bool_decide (is_Some malloc_result)
          then [SysFree] else []).
Proof.
  intros Hnone. cbv zeta. unfold setUp. cbn [inotify_handle_ set_handle].
  destruct (Z.eqb_spec init_result (-1)) as [->|Hne].
  - unfold tearDown. cbn. rewrite Hnone. cbn. rewrite app_nil_r.
    repeat split; try reflexivity; try discriminate; try assumption.
    intros [H _]. contradiction.
  - cbn [scratch_ set_scratch]. destruct malloc_result as [buf|]; cbn [fst snd code].
    + unfold tearDown. cbn [inotify_handle_ set_scratch set_handle].
      destruct (init_result >? -1); cbn; rewrite <- ?app_assoc;
        repeat split; eauto.
    + unfold tearDown. cbn [inotify_handle_ set_scratch set_handle].
      destruct (init_result >? -1); cbn; rewrite ?app_nil_r;
        repeat split; try reflexivity; try discriminate.
      all: intros [_ [? [=]]].
Qed.

(** [malloc] fails after [inotify_init] gave handle 5. *)
Lemma setUp_then_tearDown_witness :
  let st := set_scratch None (set_handle (-1) (Sample.publisher false 16 "/etc/")) in
  code (fst (setUp 5 None st)) = 1
  ∧ inotify_handle_ (snd (setUp 5 None st)) = 5
  ∧ trace (tearDown (snd (setUp 5 None st))) = [SysClose 5].
Proof.
  cbv zeta.
  destruct (setUp_then_tearDown 5 None
              (set_scratch None (set_handle (-1) (Sample.publisher false 16 "/etc/"))))
    as (_ & Hh & _ & _ & _ & Ht); [reflexivity|].
  split; [reflexivity|]. split; [exact Hh | exact Ht].
Defined.

(** ** What the operations leave alone, by relation on the contexts *)

Section CtxFrame.

Variable R : INotifySubscriptionContext → INotifySubscriptionContext → Prop.
Hypothesis R_refl : ∀ c, R c c.
Hypothesis R_trans : ∀ a b c, R a b → R b c → R a c.

Lemma ctx_frame_refl (st : Publisher) : ctx_frame R st st.
Proof. repeat split; auto; tauto. Qed.

Lemma ctx_frame_trans (a b c : Publisher) :
  ctx_frame R a b → ctx_frame R b c → ctx_frame R a c.
Proof.
  intros (E1&S1&H1&F1&L1&C1) (E2&S2&H2&F2&L2&C2).
  repeat split; try congruence.
  - intros ?. apply L1, L2. assumption.
  - intros ?. apply L2, L1. assumption.
  - intros s. eapply R_trans; [apply C1 | apply C2].
Qed.

Lemma ctx_frame_same_contexts (st st' : Publisher) :
  exclude_paths_ st' = exclude_paths_ st →
  subscriptions_ st' = subscriptions_ st →
  inotify_handle_ st' = inotify_handle_ st →
  inotify_sanity_check st' = inotify_sanity_check st →
  contexts st' = contexts st →
  ctx_frame R st st'.
Proof.
  intros E S H F C. repeat split; auto.
  - rewrite C. tauto.
  - rewrite C. tauto.
  - intros s. unfold deref. rewrite C. apply R_refl.
Qed.

Lemma ctx_frame_upd_ctx (i : SubId)
    (f : INotifySubscriptionContext → INotifySubscriptionContext) (st : Publisher) :
  (∀ c, R c (f c)) → ctx_frame R st (upd_ctx i f st).
Proof.
  intros Hf. repeat split; try apply upd_ctx_live.
  intros s. rewrite deref_upd_ctx. case_decide as E; [subst s|apply R_refl].
  unfold deref. destruct (contexts st !! i); [apply Hf | apply R_refl].
Qed.

Lemma ctx_frame_fold {A} (f : Publisher → A → Publisher) (l : list A)
    (st : Publisher) :
  (∀ s a, ctx_frame R s (f s a)) → ctx_frame R st (fold_left f l st).
Proof.
  intros Hf. revert st. induction l as [|a l IH]; intros st; cbn.
  - apply ctx_frame_refl.
  - eapply ctx_frame_trans; [apply Hf | apply IH].
Qed.

End CtxFrame.

Lemma ctx_frame_weaken
    (R Q : INotifySubscriptionContext → INotifySubscriptionContext → Prop)
    (st st' : Publisher) :
  (∀ c c', R c c' → Q c c') → ctx_frame R st st' → ctx_frame Q st st'.
Proof. intros HRQ (E&S&H&F&L&C). repeat split; auto; apply L. Qed.

Lemma keeps_request_refl (c : INotifySubscriptionContext) : keeps_request c c.
Proof. repeat split. Qed.

Lemma keeps_request_trans (a b c : INotifySubscriptionContext) :
  keeps_request a b → keeps_request b c → keeps_request a c.
Proof. intros (?&?&?&?&?) (?&?&?&?&?). repeat split; congruence. Qed.

Lemma keeps_mark_refl (c : INotifySubscriptionContext) : keeps_mark c c.
Proof. repeat split. Qed.

Lemma keeps_mark_trans (a b c : INotifySubscriptionContext) :
  keeps_mark a b → keeps_mark b c → keeps_mark a c.
Proof. intros (?&?) (?&?). repeat split; congruence. Qed.

Lemma keeps_request_mark (c c' : INotifySubscriptionContext) :
  keeps_request c c' → keeps_mark c c'.
Proof. intros (?&?&?&?&?). split; assumption. Qed.

(** A chain of primitive updates that write only the caches of contexts. *)
Ltac request_step :=
  first [ apply ctx_frame_upd_ctx;
          [exact keeps_request_refl | intros; repeat split]
        | apply ctx_frame_same_contexts;
          [exact keeps_request_refl | reflexivity ..] ].

Ltac request_chain :=
  repeat first
    [ request_step
    | eapply (ctx_frame_trans _ keeps_request_trans); [|request_step] ];
  try apply (ctx_frame_refl _ keeps_request_refl).

Lemma retire_request (watch : Z) (st : Publisher) :
  ctx_frame keeps_request st (retire watch st).
Proof.
  unfold retire. destruct (descriptor_inosubctx_ st !! watch) as [o|];
    [|apply (ctx_frame_refl _ keeps_request_refl)].
  destruct (inotify_sanity_check st).
  - destruct (index_or_create "" watch (descriptor_paths_ (deref st o))) as [wp dp].
    request_chain.
  - request_chain.
Qed.

Lemma record_watch_request (watch : Z) (path : string) (isc : SubId)
    (st : Publisher) :
  ctx_frame keeps_request st (record_watch watch path isc st).
Proof.
  unfold record_watch. cbv zeta. destruct (inotify_sanity_check _); request_chain.
Qed.

Lemma addMonitor_locked_request (env : Env) (path : string) (isc : SubId)
    (mask : Z) (add_watch : bool) (st : Publisher) :
  ctx_frame keeps_request st
    (snd (addMonitor_locked env path isc mask add_watch st)).
Proof.
  unfold addMonitor_locked.
  destruct (add_watch && (inotify_add_watch env path =? -1)); cbn [snd].
  - request_chain.
  - eapply (ctx_frame_trans _ keeps_request_trans); [|apply record_watch_request].
    eapply (ctx_frame_trans _ keeps_request_trans); [|apply retire_request].
    request_chain.
Qed.

Lemma addMonitor_request (env : Env) (path : string) (isc : SubId) (mask : Z)
    (recursive add_watch : bool) (st : Publisher) :
  ctx_frame keeps_request st
    (snd (addMonitor env path isc mask recursive add_watch st)).
Proof.
  unfold addMonitor.
  pose proof (addMonitor_locked_request env path isc mask add_watch st) as H1.
  destruct (addMonitor_locked env path isc mask add_watch st) as [ok st1].
  cbn [snd] in H1. destruct ok; cbn [negb]; [|exact H1].
  destruct (recursive && isDirectory env path); cbn [snd]; [|exact H1].
  eapply (ctx_frame_trans _ keeps_request_trans); [exact H1|].
  apply (ctx_frame_fold _ keeps_request_refl keeps_request_trans).
  intros s child. apply addMonitor_locked_request.
Qed.

Lemma removeMonitor_request (watch : Z) (force batch_del : bool) (st : Publisher) :
  ctx_frame keeps_request st (snd (removeMonitor watch force batch_del st)).
Proof.
  unfold removeMonitor.
  destruct (descriptor_inosubctx_ st !! watch) as [isc|];
    [|apply (ctx_frame_refl _ keeps_request_refl)].
  cbn [snd]. cbv zeta.
  destruct (inotify_sanity_check _);
    [destruct (index_or_create "" watch _)|];
    destruct batch_del, force; cbn [negb]; request_chain.
Qed.

Lemma needMonitoring_request (env : Env) (path : string) (isc : SubId) (mask : Z)
    (recursive add_watch : bool) (st : Publisher) :
  ctx_frame keeps_request st
    (snd (needMonitoring env path isc mask recursive add_watch st)).
Proof.
  unfold needMonitoring.
  destruct (index_or_create 0 path (path_sc_time_ (deref st isc))) as [t times].
  set (st1 := upd_ctx isc _ st).
  assert (H1 : ctx_frame keeps_request st st1) by (subst st1; request_chain).
  destruct (stat_ctime env path) as [ct|]; cbn [snd].
  - destruct (negb (t =? ct)); cbn [snd]; [|exact H1].
    pose proof (addMonitor_request env path isc (sc_mask (deref st1 isc))
                  (sc_recursive (deref st1 isc)) add_watch st1) as H2.
    destruct (addMonitor env path isc (sc_mask (deref st1 isc))
                (sc_recursive (deref st1 isc)) add_watch st1) as [rc st2].
    cbn [snd] in H2.
    pose proof (ctx_frame_trans _ keeps_request_trans _ _ _ H1 H2) as H12.
    destruct rc; cbn [snd]; [|exact H12].
    eapply (ctx_frame_trans _ keeps_request_trans); [exact H12|]. request_chain.
  - eapply (ctx_frame_trans _ keeps_request_trans); [exact H1|]. request_chain.
Qed.

Ltac mark_step :=
  first [ apply ctx_frame_upd_ctx;
          [exact keeps_mark_refl | intros; repeat split]
        | apply ctx_frame_same_contexts;
          [exact keeps_mark_refl | reflexivity ..] ].

Lemma strip_recursive_marker_mark (sc : SubId) (st : Publisher) :
  ctx_frame keeps_mark st (strip_recursive_marker sc st).
Proof.
  unfold strip_recursive_marker.
  destruct (Str.found (Str.find "**" (sc_path (deref st sc))));
    [|apply (ctx_frame_refl _ keeps_mark_refl)].
  eapply (ctx_frame_trans _ keeps_mark_trans); [|mark_step]. mark_step.
Qed.

Lemma monitorSubscription_mark (env : Env) (sc : SubId) (add_watch : bool)
    (st : Publisher) :
  ctx_frame keeps_mark st (snd (monitorSubscription env sc add_watch st)).
Proof.
  unfold monitorSubscription. cbv zeta.
  eapply (ctx_frame_trans _ keeps_mark_trans);
    [apply strip_recursive_marker_mark|].
  set (st1 := strip_recursive_marker sc st).
  set (p := sc_path (deref st1 sc)).
  set (discovered := if Str.found (Str.find_char "*" p) then _ else p).
  assert (Hneed : ∀ path mask recursive s,
            ctx_frame keeps_mark s
              (snd (needMonitoring env path sc mask recursive add_watch s))).
  { intros. eapply ctx_frame_weaken;
      [exact keeps_request_mark | apply needMonitoring_request]. }
  destruct (Str.found (Str.find_char "*" p)
            && Str.found (Str.find_char "*" discovered)); cbn [snd].
  - apply (ctx_frame_trans _ keeps_mark_trans _
             (upd_ctx sc (fun c => set_recursive_match (sc_recursive c) c) st1)).
    + apply (ctx_frame_upd_ctx _ keeps_mark_refl). intros c. repeat split.
    + apply (ctx_frame_fold _ keeps_mark_refl keeps_mark_trans).
      intros s a. apply Hneed.
  - destruct (isDirectory env discovered && negb (Str.back_is "/" discovered)).
    + apply (ctx_frame_trans _ keeps_mark_trans _
               (upd_ctx sc (fun c => set_sc_path (sc_path c +:+ "/") c) st1)).
      * apply (ctx_frame_upd_ctx _ keeps_mark_refl). intros c. repeat split.
      * exact (Hneed _ _ _ _).
    + apply Hneed.
Qed.

(** ** Removing many descriptors: the purge of a subscription *)

Lemma removeMonitor_table (w : Z) (force batch_del : bool) (st : Publisher) :
  descriptor_inosubctx_ (snd (removeMonitor w force batch_del st))
  = delete w (descriptor_inosubctx_ st).
Proof.
  destruct (descriptor_inosubctx_ st !! w) as [isc|] eqn:Hk.
  - apply (removeMonitor_known w force batch_del st isc Hk).
  - rewrite (removeMonitor_unknown _ _ _ _ Hk). cbn [snd].
    symmetry. apply delete_id. exact Hk.
Qed.

Lemma removeMonitor_trace (w : Z) (force batch_del : bool) (st : Publisher) :
  trace (snd (removeMonitor w force batch_del st))
  = trace st
    ++ (if decide (is_Some (descriptor_inosubctx_ st !! w)) then
          if force then [SysRmWatch (inotify_handle_ st) w] else []
        else []).
Proof.
  destruct (descriptor_inosubctx_ st !! w) as [isc|] eqn:Hk.
  - rewrite decide_True by eauto.
    apply (removeMonitor_known w force batch_del st isc Hk).
  - rewrite decide_False by (intros [? [=]]).
    rewrite (removeMonitor_unknown _ _ _ _ Hk), app_nil_r. reflexivity.
Qed.

Lemma filter_agree {A} (P Q : A → Prop) `{∀ x, Decision (P x)}
    `{∀ x, Decision (Q x)} (l : list A) :
  (∀ x, x ∈ l → P x ↔ Q x) → filter P l = filter Q l.
Proof.
  induction l as [|a l IH]; intros Hl; [reflexivity|].
  rewrite !filter_cons.
  assert (Ha : P a ↔ Q a) by (apply Hl; apply list_elem_of_here).
  rewrite IH by (intros x Hx; apply Hl; apply list_elem_of_further; exact Hx).
  destruct (decide (P a)), (decide (Q a)); tauto.
Qed.

(** Removing the descriptors of a list one after the other. *)
Lemma remove_all_table_trace (l : list Z) (batch_del : bool) (st : Publisher) :
  NoDup l →
  let st' := fold_left (fun s w => snd (removeMonitor w true batch_del s)) l st in
  (∀ d, descriptor_inosubctx_ st' !! d
        = if decide (d ∈ l) then None else descriptor_inosubctx_ st !! d)
  ∧ trace st'
    = trace st
      ++ map (SysRmWatch (inotify_handle_ st))
           (filter (fun w => is_Some (descriptor_inosubctx_ st !! w)) l).
Proof.
  revert st. induction l as [|w l IH]; intros st Hnd; cbv zeta; cbn [fold_left].
  - split; [intros d; rewrite decide_False by apply not_elem_of_nil; reflexivity|].
    cbn. rewrite app_nil_r. reflexivity.
  - apply NoDup_cons in Hnd as (Hw & Hnd).
    destruct (IH (snd (removeMonitor w true batch_del st)) Hnd) as (Ht & Htr).
    pose proof (removeMonitor_table w true batch_del st) as Htab.
    pose proof (removeMonitor_request w true batch_del st) as (_&_&Hh&_).
    split.
    + intros d. rewrite Ht, Htab.
      destruct (decide (d = w)) as [->|Hne].
      * rewrite lookup_delete_eq.
        destruct (decide (w ∈ l)), (decide (w ∈ w :: l)) as [|Hn];
          try reflexivity.
        all: exfalso; apply Hn, list_elem_of_here.
      * rewrite lookup_delete_ne by congruence.
        destruct (decide (d ∈ l)) as [Hin|Hin],
                 (decide (d ∈ w :: l)) as [Hin'|Hin']; try reflexivity.
        -- exfalso. apply Hin', list_elem_of_further, Hin.
        -- exfalso. apply elem_of_cons in Hin' as [?|?]; contradiction.
    + rewrite Htr, Hh, removeMonitor_trace, <- app_assoc. f_equal.
      rewrite filter_cons.
      assert (Hsame : filter (fun x => is_Some
                        (descriptor_inosubctx_
                           (snd (removeMonitor w true batch_del st)) !! x)) l
                      = filter (fun x => is_Some (descriptor_inosubctx_ st !! x)) l).
      { apply filter_agree. intros x Hx. rewrite Htab.
        rewrite lookup_delete_ne; [tauto|]. intros ->. contradiction. }
      rewrite Hsame.
      destruct (decide (is_Some (descriptor_inosubctx_ st !! w))); reflexivity.
Qed.

Lemma remove_all_request (l : list Z) (force batch_del : bool) (st : Publisher) :
  ctx_frame keeps_request st
    (fold_left (fun s w => snd (removeMonitor w force batch_del s)) l st).
Proof.
  apply (ctx_frame_fold _ keeps_request_refl keeps_request_trans).
  intros s w. apply removeMonitor_request.
Qed.

Lemma sorted_keys_spec (m : gmap Z string) :
  NoDup (merge_sort Z.le (elements (dom m)))
  ∧ ∀ d, d ∈ merge_sort Z.le (elements (dom m)) ↔ is_Some (m !! d).
Proof.
  split.
  - rewrite merge_sort_Permutation. apply NoDup_elements.
  - intros d. rewrite merge_sort_Permutation, elem_of_elements.
    apply elem_of_dom.
Qed.

Lemma purge_subscription_request (sub : Subscription) (st : Publisher) :
  ctx_frame keeps_request st (purge_subscription sub st).
Proof.
  unfold purge_subscription. cbv zeta.
  eapply (ctx_frame_trans _ keeps_request_trans); [apply remove_all_request|].
  apply (ctx_frame_upd_ctx _ keeps_request_refl). intros c. repeat split.
Qed.

(** X8: purging a subscription removes from the watch table every
    descriptor its context held a path for, and no other; it asks the
    kernel to drop those of them the table still had, once each and in
    ascending order; it leaves the context with an empty descriptor map;
    and it changes nothing else of what the subscriptions ask for. *)
Theorem purge_subscription_effect (sub : Subscription) (st : Publisher) :
  let held := descriptor_paths_ (deref st (context sub)) in
  let st' := purge_subscription sub st in
  (∀ d, descriptor_inosubctx_ st' !! d
        = if decide (is_Some (held !! d)) then None
          else descriptor_inosubctx_ st !! d)
  ∧ trace st'
    = trace st
      ++ map (SysRmWatch (inotify_handle_ st))
           (filter (fun w => is_Some (descriptor_inosubctx_ st !! w))
              (merge_sort Z.le (elements (dom held))))
  ∧ descriptor_paths_ (deref st' (context sub)) = ∅
  ∧ subscriptions_ st' = subscriptions_ st
  ∧ exclude_paths_ st' = exclude_paths_ st
  ∧ ∀ s, keeps_request (deref st s) (deref st' s).
Proof.
  cbv zeta.
  destruct (sorted_keys_spec (descriptor_paths_ (deref st (context sub))))
    as (Hnd & Hkeys).
  destruct (remove_all_table_trace _ true st Hnd) as (Ht & Htr).
  pose proof (purge_subscription_request sub st) as (He & Hs & _ & _ & _ & Hc).
  split; [|split; [exact Htr|split; [|auto]]].
  - intros d.
    change (descriptor_inosubctx_ (purge_subscription sub st))
      with (descriptor_inosubctx_
              (fold_left (fun s w => snd (removeMonitor w true true s))
                 (merge_sort Z.le
                    (elements (dom (descriptor_paths_ (deref st (context sub))))))
                 st)).
    rewrite Ht.
    destruct (decide (is_Some (descriptor_paths_ (deref st (context sub)) !! d)))
      as [Hin|Hin].
    + rewrite decide_True by (apply Hkeys; exact Hin). reflexivity.
    + rewrite decide_False by (rewrite Hkeys; exact Hin). reflexivity.
  - unfold purge_subscription. cbv zeta.
    rewrite descriptor_paths_upd_ctx, decide_True by reflexivity.
    destruct (contexts _ !! context sub); reflexivity.
Qed.

(** ** configure *)

Lemma buildExcludePathsSet_rest (patterns : list string) (st : Publisher)
    (x : gset string) :
  set_exclude_paths x (buildExcludePathsSet patterns st) = set_exclude_paths x st.
Proof.
  unfold buildExcludePathsSet.
  assert (H : ∀ s0, set_exclude_paths x
                      (fold_left
                         (fun s pattern =>
                            if String.eqb pattern "" then s
                            else set_exclude_paths
                                   ({[pattern]} ∪ exclude_paths_ s) s)
                         patterns s0)
                    = set_exclude_paths x s0).
  { induction patterns as [|q l IH]; intros s0; cbn [fold_left]; [reflexivity|].
    rewrite IH. destruct (String.eqb q ""); reflexivity. }
  rewrite H. reflexivity.
Qed.

Lemma buildExcludePathsSet_find (patterns : list string) (st : Publisher)
    (p : string) :
  p ∈ exclude_paths_ (buildExcludePathsSet patterns st)
  ↔ In p patterns ∧ p ≠ "".
Proof.
  unfold buildExcludePathsSet.
  rewrite exclude_fold_membership. cbn [exclude_paths_ set_exclude_paths].
  rewrite elem_of_empty. tauto.
Qed.

Lemma monitor_all_mark (env : Env) (subs : list Subscription) (st : Publisher) :
  ctx_frame keeps_mark st
    (fold_left
       (fun s sub => snd (monitorSubscription env (context sub) default_add_watch s))
       subs st).
Proof.
  apply (ctx_frame_fold _ keeps_mark_refl keeps_mark_trans).
  intros s sub. apply monitorSubscription_mark.
Qed.

Lemma purge_all_request (subs : list Subscription) (st : Publisher) :
  ctx_frame keeps_request st
    (fold_left (fun s sub => purge_subscription sub s) subs st).
Proof.
  apply (ctx_frame_fold _ keeps_request_refl keeps_request_trans).
  intros s sub. apply purge_subscription_request.
Qed.

(** X9: [configure] does nothing on a publisher whose handle is -1.
    Otherwise it drops from the subscription list exactly the
    subscriptions whose context is marked for deletion, keeping the others
    in their order; it changes no deletion mark, so every subscription left
    is unmarked; and the exclude set it leaves holds exactly the non-empty
    configured patterns. *)
Theorem configure_reconfigures
    (env : Env) (patterns : list string) (st : Publisher) :
  let st' := configure env patterns st in
  (inotify_handle_ st = -1 → st' = st)
  ∧ (inotify_handle_ st ≠ -1 →
     subscriptions_ st'
     = List.filter (fun sub => negb (mark_for_deletion (deref st (context sub))))
         (subscriptions_ st)
     ∧ (∀ s, mark_for_deletion (deref st' s) = mark_for_deletion (deref st s))
     ∧ (∀ sub, In sub (subscriptions_ st') →
               mark_for_deletion (deref st' (context sub)) = false)
     ∧ (∀ p, p ∈ exclude_paths_ st' ↔ In p patterns ∧ p ≠ "")).
Proof.
  cbv zeta. unfold configure.
  destruct (Z.eqb_spec (inotify_handle_ st) (-1)) as [E|E];
    [split; [reflexivity | contradiction]|].
  split; [contradiction|]. intros _. cbv zeta.
  set (kept := List.filter
                 (fun sub => negb (mark_for_deletion (deref st (context sub))))
                 (subscriptions_ st)).
  set (st1 := set_subscriptions kept st).
  set (st2 := fold_left (fun s sub => purge_subscription sub s)
                (List.filter
                   (fun sub => mark_for_deletion (deref st (context sub)))
                   (subscriptions_ st)) st1).
  set (st3 := buildExcludePathsSet patterns st2).
  pose proof (purge_all_request
                (List.filter (fun sub => mark_for_deletion (deref st (context sub)))
                   (subscriptions_ st)) st1) as (_ & Hs2 & _ & _ & _ & Hc2).
  fold st2 in Hs2, Hc2.
  pose proof (buildExcludePathsSet_rest patterns st2 ∅) as Hrest.
  fold st3 in Hrest.
  assert (Hs3 : subscriptions_ st3 = subscriptions_ st2).
  { change (subscriptions_ (set_exclude_paths ∅ st3)
            = subscriptions_ (set_exclude_paths ∅ st2)). rewrite Hrest. reflexivity. }
  assert (Hc3 : contexts st3 = contexts st2).
  { change (contexts (set_exclude_paths ∅ st3)
            = contexts (set_exclude_paths ∅ st2)). rewrite Hrest. reflexivity. }
  pose proof (monitor_all_mark env (subscriptions_ st3) st3)
    as (He4 & Hs4 & _ & _ & _ & Hc4).
  assert (Hsubs : subscriptions_
                    (fold_left
                       (fun s sub =>
                          snd (monitorSubscription env (context sub)
                                 default_add_watch s))
                       (subscriptions_ st3) st3) = kept).
  { rewrite Hs4, Hs3, Hs2. reflexivity. }
  assert (Hmark : ∀ s, mark_for_deletion
                         (deref (fold_left
                                   (fun s0 sub =>
                                      snd (monitorSubscription env (context sub)
                                             default_add_watch s0))
                                   (subscriptions_ st3) st3) s)
                       = mark_for_deletion (deref st s)).
  { intros s. destruct (Hc4 s) as (_ & ->).
    unfold deref at 1. rewrite Hc3. fold (deref st2 s).
    destruct (Hc2 s) as (_&_&_&_&->). reflexivity. }
  split; [exact Hsubs|]. split; [exact Hmark|]. split.
  - intros sub Hin. rewrite Hsubs in Hin. rewrite Hmark.
    subst kept. apply List.filter_In in Hin as (_ & Hneg).
    apply negb_true_iff in Hneg. exact Hneg.
  - intros p. rewrite He4. apply buildExcludePathsSet_find.
Qed.

(** The subscriber is removed and the publisher reconfigured: its
    subscription is gone from the list. *)
Lemma configure_reconfigures_witness :
  let st := removeSubscriptions "file_events" (Sample.watching_etc true) in
  subscriptions_ st = [mkSub "file_events" 0%nat]
  ∧ subscriptions_ (configure Sample.env ["/etc/skel"] st) = [].
Proof.
  cbv zeta. split; [vm_compute; reflexivity|].
  destruct (configure_reconfigures Sample.env ["/etc/skel"]
              (removeSubscriptions "file_events" (Sample.watching_etc true)))
    as (_ & H).
  destruct H as (Hs & _); [vm_compute; discriminate|].
  rewrite Hs. vm_compute. reflexivity.
Defined.

(** ** addSubscription *)

Lemma find_agree {A} (f g : A → bool) (l : list A) :
  (∀ x, In x l → f x = g x) → List.find f l = List.find g l.
Proof.
  induction l as [|a l IH]; intros H; [reflexivity|]. cbn.
  rewrite (H a) by (left; reflexivity).
  rewrite IH by (intros x Hx; apply H; right; exact Hx). reflexivity.
Qed.

Lemma find_app_none {A} (f : A → bool) (l l' : list A) :
  List.find f l = None → List.find f (l ++ l') = List.find f l'.
Proof.
  induction l as [|a l IH]; [reflexivity|]. cbn.
  destruct (f a); [discriminate | exact IH].
Qed.

Lemma set_mark_same (c : INotifySubscriptionContext) :
  set_mark_for_deletion (mark_for_deletion c) c = c.
Proof. destruct c; reflexivity. Qed.

(** Clearing or setting one mark changes every context by its mark only. *)
Lemma deref_upd_mark (i s : SubId) (b : bool) (st : Publisher) :
  ∃ b', deref (upd_ctx i (set_mark_for_deletion b) st) s
        = set_mark_for_deletion b' (deref st s).
Proof.
  rewrite deref_upd_ctx. case_decide as E.
  - subst s. unfold deref. destruct (contexts st !! i) as [c|].
    + exists b. reflexivity.
    + exists false. reflexivity.
  - exists (mark_for_deletion (deref st s)). symmetry. apply set_mark_same.
Qed.

(** X10: a second [addSubscription] of the same subscription is refused
    with status 1 and changes nothing, whatever the first one did
    (appended it, refused it, or cleared the deletion mark of an equal
    one), when the comparison of contexts is reflexive on the received one
    and does not look at deletion marks, and the received context is not
    marked itself. *)
Theorem addSubscription_twice
    (sc_equal : INotifySubscriptionContext → INotifySubscriptionContext → bool)
    (subscription : Subscription) (st : Publisher) :
  sc_equal (deref st (context subscription)) (deref st (context subscription))
  = true →
  (∀ c c' b b', sc_equal (set_mark_for_deletion b c) (set_mark_for_deletion b' c')
                = sc_equal c c') →
  mark_for_deletion (deref st (context subscription)) = false →
  let st1 := snd (addSubscription sc_equal subscription st) in
  addSubscription sc_equal subscription st1 = (1, st1)
  ∧ (length (subscriptions_ st1) ≤ S (length (subscriptions_ st)))%nat.
Proof.
  intros Hrefl Hblind Hfresh. cbv zeta. unfold addSubscription at 2 3 4.
  destruct (List.find
              (fun sub => sc_equal (deref st (context subscription))
                            (deref st (context sub)))
              (subscriptions_ st)) as [found|] eqn:Hfind.
  - destruct (mark_for_deletion (deref st (context found))) eqn:Hmark;
      cbn [snd].
    + split; [|cbn; lia]. unfold addSubscription.
      cbn [subscriptions_ upd_ctx].
      assert (Hsame : List.find
                (fun sub =>
                   sc_equal
                     (deref (upd_ctx (context found)
                               (set_mark_for_deletion false) st)
                        (context subscription))
                     (deref (upd_ctx (context found)
                               (set_mark_for_deletion false) st) (context sub)))
                (subscriptions_ st) = Some found).
      { rewrite <- Hfind. apply find_agree. intros x _.
        destruct (deref_upd_mark (context found) (context subscription) false st)
          as (b1 & ->).
        destruct (deref_upd_mark (context found) (context x) false st)
          as (b2 & ->).
        apply Hblind. }
      change (subscriptions_ (upd_ctx (context found)
                                (set_mark_for_deletion false) st))
        with (subscriptions_ st).
      rewrite Hsame.
      assert (Hlive : is_Some (contexts st !! context found)).
      { unfold deref in Hmark. destruct (contexts st !! context found); [eauto|].
        discriminate. }
      rewrite deref_upd_ctx_live by exact Hlive. reflexivity.
    + split; [|lia]. unfold addSubscription. rewrite Hfind, Hmark. reflexivity.
  - cbn [snd]. split; [|cbn; rewrite length_app; cbn; lia].
    unfold addSubscription. cbn [subscriptions_ set_subscriptions].
    change (deref (set_subscriptions (subscriptions_ st ++ [subscription]) st))
      with (deref st).
    rewrite (find_app_none _ _ _ Hfind). cbn [List.find].
    rewrite Hrefl, Hfresh. reflexivity.
Qed.

Lemma addSubscription_twice_witness :
  let eq_path := fun c c' => String.eqb (sc_path c) (sc_path c') in
  let st := set_subscriptions [] (Sample.publisher false 16 "/etc/") in
  let st1 := snd (addSubscription eq_path (mkSub "file_events" 0%nat) st) in
  subscriptions_ st1 = [mkSub "file_events" 0%nat]
  ∧ addSubscription eq_path (mkSub "file_events" 0%nat) st1 = (1, st1).
Proof.
  cbv zeta. split; [reflexivity|].
  apply (addSubscription_twice
           (fun c c' => String.eqb (sc_path c) (sc_path c'))
           (mkSub "file_events" 0%nat)
           (set_subscriptions [] (Sample.publisher false 16 "/etc/")));
    [reflexivity | intros; reflexivity | reflexivity].
Defined.

(** ** Dispatch: who is called back *)

Lemma callbacks_frame (st st' : Publisher) :
  frame not_callback st st' → callbacks (trace st') = callbacks (trace st).
Proof.
  intros (_&_&_&_&_&_&(new & Ht & Hnew)). unfold callbacks.
  rewrite Ht, omap_app.
  assert (Hnil : omap (fun e => match e with
                                | Callback s ec => Some (s, ec)
                                | _ => None
                                end) new = []).
  { clear Ht. induction Hnew as [|e l He _ IH]; [reflexivity|].
    destruct e; cbn; try exact IH. discriminate He. }
  rewrite Hnil, app_nil_r. reflexivity.
Qed.

(** The answer of [shouldFire], in one formula. *)
Lemma shouldFire_fst
    (env : Env) (sc : SubId) (ec : INotifyEventContext) (st : Publisher) :
  fst (shouldFire env sc ec st)
  = bool_decide (Some sc = isub_ctx ec)
    && ((sc_mask (deref st sc) =? 0)
        || bits_overlap (raw_mask ec) (sc_mask (deref st sc)))
    && negb (exclude_filter_drops st ec).
Proof.
  destruct (bool_decide_reflect (Some sc = isub_ctx ec)) as [Hown|Hown].
  - destruct ((sc_mask (deref st sc) =? 0)
              || bits_overlap (raw_mask ec) (sc_mask (deref st sc))) eqn:Hm.
    + rewrite shouldFire_after_mask_filter; [reflexivity | congruence |].
      apply orb_true_iff in Hm as [H0|Hov]; [left; lia | right; exact Hov].
    + apply orb_false_iff in Hm as (H0 & Hov).
      unfold shouldFire. rewrite bool_decide_eq_true_2 by exact Hown.
      rewrite H0, Hov. reflexivity.
  - unfold shouldFire. rewrite bool_decide_eq_false_2 by exact Hown. reflexivity.
Qed.

(** Whether the subscription [isc] lets the event context through: its mask
    is zero or shares a bit with the raw mask, and the exclude filter does
    not drop the path. *)
Lemma fire_fold_callbacks
    (env : Env) (ec : INotifyEventContext) (isc : SubId) (st0 : Publisher)
    (subs : list Subscription) (st : Publisher) :
  isub_ctx ec = Some isc →
  sc_mask (deref st isc) = sc_mask (deref st0 isc) →
  exclude_paths_ st = exclude_paths_ st0 →
  callbacks
    (trace
       (fold_left
          (fun s sub =>
             let '(b, s1) := shouldFire env (context sub) ec s in
             if b then emit (Callback (subscriber_name sub) ec) s1 else s1)
          subs st))
  = callbacks (trace st)
    ++ (if ((sc_mask (deref st0 isc) =? 0)
            || bits_overlap (raw_mask ec) (sc_mask (deref st0 isc)))
           && negb (exclude_filter_drops st0 ec)
        then map (fun sub => (subscriber_name sub, ec))
               (List.filter (fun sub => bool_decide (context sub = isc)) subs)
        else []).
Proof.
  intros Hown. revert st. induction subs as [|sub subs IH]; intros st Hm He.
  - cbn. destruct (_ && _); rewrite app_nil_r; reflexivity.
  - cbn [fold_left List.filter].
    pose proof (shouldFire_fst env (context sub) ec st) as Hfst.
    pose proof (shouldFire_frame env (context sub) ec st) as Hfr.
    destruct (shouldFire env (context sub) ec st) as [b s1].
    cbn [fst snd] in Hfst, Hfr.
    pose proof (callbacks_frame _ _ Hfr) as Hcb.
    destruct Hfr as (He1 & _ & _ & _ & _ & Hp1 & _).
    assert (Hm1 : sc_mask (deref s1 isc) = sc_mask (deref st0 isc)).
    { destruct (Hp1 isc) as (_ & -> & _). exact Hm. }
    assert (He1' : exclude_paths_ s1 = exclude_paths_ st0) by congruence.
    assert (Hdrop : exclude_filter_drops st ec = exclude_filter_drops st0 ec).
    { unfold exclude_filter_drops. rewrite He. reflexivity. }
    rewrite Hown in Hfst.
    destruct (bool_decide_reflect (context sub = isc)) as [Hc|Hc].
    + rewrite bool_decide_eq_true_2 in Hfst by congruence.
      rewrite Hc, Hm, Hdrop in Hfst. cbn [andb] in Hfst. subst b.
      destruct (((sc_mask (deref st0 isc) =? 0)
                 || bits_overlap (raw_mask ec) (sc_mask (deref st0 isc)))
                && negb (exclude_filter_drops st0 ec)) eqn:Hpass.
      * rewrite (IH (emit (Callback (subscriber_name sub) ec) s1) Hm1 He1').
        unfold callbacks at 1. cbn [trace emit]. rewrite omap_app.
        fold (callbacks (trace s1)). rewrite Hcb. cbn [omap map].
        rewrite <- app_assoc. reflexivity.
      * rewrite (IH s1 Hm1 He1'), Hcb. reflexivity.
    + rewrite bool_decide_eq_false_2 in Hfst by congruence.
      cbn [andb] in Hfst. subst b.
      rewrite (IH s1 Hm1 He1'), Hcb. reflexivity.
Qed.

(** [fire] calls back exactly the subscriptions that refer to the context
    owning the event, in list order and with the event context unchanged,
    provided the owner's mask is zero or shares a bit with the raw mask and
    the exclude filter does not drop the path; otherwise, and for an event
    context without owner, it calls nobody. *)
Lemma fire_calls_the_owner
    (env : Env) (ec : INotifyEventContext) (st : Publisher) :
  callbacks (trace (fire env ec st))
  = callbacks (trace st)
    ++ match isub_ctx ec with
       | Some isc =>
           if ((sc_mask (deref st isc) =? 0)
               || bits_overlap (raw_mask ec) (sc_mask (deref st isc)))
              && negb (exclude_filter_drops st ec)
           then map (fun sub => (subscriber_name sub, ec))
                  (List.filter (fun sub => bool_decide (context sub = isc))
                     (subscriptions_ st))
           else []
       | None => []
       end.
Proof.
  unfold fire. destruct (isub_ctx ec) as [isc|] eqn:Hown.
  - apply fire_fold_callbacks; [exact Hown | reflexivity | reflexivity].
  - rewrite app_nil_r. generalize (subscriptions_ st) as subs. intros subs.
    revert st. induction subs as [|sub subs IH]; intros st; [reflexivity|].
    cbn [fold_left].
    pose proof (shouldFire_fst env (context sub) ec st) as Hfst.
    pose proof (shouldFire_frame env (context sub) ec st) as Hfr.
    destruct (shouldFire env (context sub) ec st) as [b s1].
    cbn [fst snd] in Hfst, Hfr. rewrite Hown in Hfst.
    rewrite bool_decide_eq_false_2 in Hfst by discriminate.
    cbn [andb] in Hfst. subst b. rewrite IH. apply callbacks_frame, Hfr.
Qed.

(** ** shouldFire: answer and side effect *)

Lemma addMonitor_locked_only_at (env : Env) (path : string) (isc : SubId)
    (mask : Z) (add_watch : bool) (st : Publisher) :
  only_at (inotify_add_watch env path) st
    (snd (addMonitor_locked env path isc mask add_watch st)).
Proof.
  unfold addMonitor_locked.
  destruct (add_watch && (inotify_add_watch env path =? -1)); cbn [snd].
  - eapply only_at_trans; apply only_at_emit.
  - eapply only_at_trans; [apply only_at_emit|].
    eapply only_at_trans; [apply retire_only_at | apply record_watch_only_at].
Qed.

(** The entries of descriptors that no child of the directory is given
    survive the installation of the children. *)
Lemma children_keep_resolve (env : Env) (isc : SubId) (mask : Z) (w : Z)
    (children : list string) (st : Publisher) :
  (∀ child, In child children →
            inotify_add_watch env (canonical env child +:+ "/") ≠ w) →
  resolve
    (fold_left
       (fun s child =>
          snd (addMonitor_locked env (canonical env child +:+ "/") isc mask
                 default_add_watch s)) children st) w
  = resolve st w.
Proof.
  revert st. induction children as [|c l IH]; intros st Hne; [reflexivity|].
  cbn [fold_left]. rewrite IH by (intros x Hx; apply Hne; right; exact Hx).
  eapply only_at_resolve; [apply addMonitor_locked_only_at|].
  intros E. symmetry in E. revert E. apply Hne. left. reflexivity.
Qed.

(** X11: [shouldFire] answers true exactly when the subscription is the
    owner of the event context, its mask is zero or shares a bit with the
    raw mask, and the exclude filter does not drop the path.  It leaves the
    publisher as it was unless the subscription is the owner, the mask test
    passes, the subscription is recursive, the action is CREATED and the
    path is a directory. *)
Theorem shouldFire_answer
    (env : Env) (sc : SubId) (ec : INotifyEventContext) (st : Publisher) :
  fst (shouldFire env sc ec st)
  = bool_decide (Some sc = isub_ctx ec)
    && ((sc_mask (deref st sc) =? 0)
        || bits_overlap (raw_mask ec) (sc_mask (deref st sc)))
    && negb (exclude_filter_drops st ec)
  ∧ (bool_decide (Some sc = isub_ctx ec)
     && ((sc_mask (deref st sc) =? 0)
         || bits_overlap (raw_mask ec) (sc_mask (deref st sc)))
     && sc_recursive (deref st sc) && String.eqb (action ec) "CREATED"
     && isDirectory env (ec_path ec) = false →
     snd (shouldFire env sc ec st) = st).
Proof.
  split; [apply shouldFire_fst|].
  unfold shouldFire.
  destruct (bool_decide (Some sc = isub_ctx ec)); cbn [negb andb]; [|reflexivity].
  destruct (sc_mask (deref st sc) =? 0); cbn [negb andb orb].
  - intros ->. destruct (exclude_filter_drops st ec); reflexivity.
  - destruct (bits_overlap (raw_mask ec) (sc_mask (deref st sc)));
      cbn [negb andb]; [|reflexivity].
    intros ->. destruct (exclude_filter_drops st ec); reflexivity.
Qed.

Lemma shouldFire_answer_witness :
  let st := Sample.publisher false 16 "/etc/" in
  let ec := Sample.context_for "/etc/passwd" "CREATED" IN_CREATE in
  fst (shouldFire Sample.env 0%nat ec st) = true
  ∧ snd (shouldFire Sample.env 0%nat ec st) = st.
Proof.
  cbv zeta.
  destruct (shouldFire_answer Sample.env 0%nat
              (Sample.context_for "/etc/passwd" "CREATED" IN_CREATE)
              (Sample.publisher false 16 "/etc/")) as (Hfst & Hsnd).
  split; [rewrite Hfst; vm_compute; reflexivity|].
  apply Hsnd. vm_compute. reflexivity.
Defined.

(** X12: for the owner of a CREATED event on a directory, when the
    subscription is recursive and the mask test passes, [shouldFire] asks
    the kernel for a watch on the path with a trailing separator before it
    applies the exclude filter, so also when the event is then dropped; and
    when the kernel gives a descriptor that none of the directory's
    children is given, the table holds that descriptor with that path for
    the subscription afterwards. *)
Theorem shouldFire_installs_watch
    (env : Env) (sc : SubId) (ec : INotifyEventContext) (st : Publisher) :
  isub_ctx ec = Some sc →
  sc_mask (deref st sc) = 0
  ∨ bits_overlap (raw_mask ec) (sc_mask (deref st sc)) = true →
  sc_recursive (deref st sc) = true →
  action ec = "CREATED" →
  isDirectory env (ec_path ec) = true →
  let dir := ec_path ec +:+ "/" in
  let w := inotify_add_watch env dir in
  let st' := snd (shouldFire env sc ec st) in
  (∃ rest, trace st'
           = trace st
             ++ SysAddWatch (inotify_handle_ st) dir
                  (kernel_mask (sc_mask (deref st sc))) :: rest)
  ∧ (is_Some (contexts st !! sc) → w ≠ -1 →
     (∀ child, In child (listDirectoriesInDirectory env dir) →
               inotify_add_watch env (canonical env child +:+ "/") ≠ w) →
     resolve st' w = Some (dir, sc)).
Proof.
  intros Hown Hmask Hrec Hact Hdir. cbv zeta.
  assert (Hst : snd (shouldFire env sc ec st)
                = snd (addMonitor env (ec_path ec +:+ "/") sc
                         (sc_mask (deref st sc)) true default_add_watch st)).
  { unfold shouldFire.
    rewrite bool_decide_eq_true_2 by (symmetry; exact Hown). cbn [negb].
    assert (Hpass : negb (sc_mask (deref st sc) =? 0)
                    && negb (bits_overlap (raw_mask ec) (sc_mask (deref st sc)))
                    = false).
    { destruct Hmask as [H0 | Hov].
      - rewrite H0. reflexivity.
      - rewrite Hov. apply andb_false_r. }
    rewrite Hpass, Hrec, Hact, Hdir. cbn [andb String.eqb]. cbv zeta.
    change (String.eqb "CREATED" "CREATED") with true. cbn [andb].
    destruct (exclude_filter_drops _ ec); reflexivity. }
  rewrite Hst. split; [apply addMonitor_requests|].
  intros Hlive Hw Hchildren. unfold addMonitor.
  pose proof (addMonitor_locked_succeeds env (ec_path ec +:+ "/") sc
                (sc_mask (deref st sc)) default_add_watch st (fun _ => Hw)) as Hok.
  pose proof (addMonitor_locked_table env (ec_path ec +:+ "/") sc
                (sc_mask (deref st sc)) default_add_watch st Hlive Hok)
    as (Hres & _).
  destruct (addMonitor_locked env (ec_path ec +:+ "/") sc
              (sc_mask (deref st sc)) default_add_watch st) as [ok st1].
  cbn [fst snd] in *. subst ok. cbn [negb andb].
  destruct (isDirectory env (ec_path ec +:+ "/")); cbn [snd]; [|exact Hres].
  rewrite children_keep_resolve by exact Hchildren. exact Hres.
Qed.

Lemma shouldFire_installs_watch_witness :
  let st := strip_recursive_marker 0%nat (Sample.publisher false 16 "/etc/**") in
  let ec := Sample.context_for "/etc/ssh" "CREATED" IN_CREATE in
  sc_recursive (deref st 0%nat) = true
  ∧ resolve (snd (shouldFire Sample.env 0%nat ec st)) 3
    = Some ("/etc/ssh/", 0%nat).
Proof.
  cbv zeta.
  destruct (shouldFire_installs_watch Sample.env 0%nat
              (Sample.context_for "/etc/ssh" "CREATED" IN_CREATE)
              (strip_recursive_marker 0%nat
                 (Sample.publisher false 16 "/etc/**")))
    as (_ & Hres); try (vm_compute; reflexivity).
  - left. vm_compute. reflexivity.
  - split; [vm_compute; reflexivity|].
    apply Hres.
    + vm_compute. eauto.
    + vm_compute. discriminate.
    + intros child [].
Defined.

(** ** addMonitor: failure and recursion *)

Lemma retire_trace (w : Z) (st : Publisher) : trace (retire w st) = trace st.
Proof.
  unfold retire. destruct (descriptor_inosubctx_ st !! w); [|reflexivity].
  destruct (inotify_sanity_check st); [|reflexivity].
  destruct (index_or_create "" w _). reflexivity.
Qed.

Lemma record_watch_trace (w : Z) (path : string) (isc : SubId) (st : Publisher) :
  trace (record_watch w path isc st) = trace st.
Proof.
  unfold record_watch. cbv zeta. destruct (inotify_sanity_check _); reflexivity.
Qed.

(** All the locked block adds to the trace. *)
Lemma addMonitor_locked_trace (env : Env) (path : string) (isc : SubId)
    (mask : Z) (add_watch : bool) (st : Publisher) :
  trace (snd (addMonitor_locked env path isc mask add_watch st))
  = trace st
    ++ SysAddWatch (inotify_handle_ st) path (kernel_mask mask)
       :: (if add_watch && (inotify_add_watch env path =? -1)
           then [LogWarning ("Could not add inotify watch on: " +:+ path)]
           else []).
Proof.
  unfold addMonitor_locked.
  destruct (add_watch && (inotify_add_watch env path =? -1)); cbn [snd].
  - cbn [trace emit]. rewrite <- app_assoc. reflexivity.
  - rewrite record_watch_trace, retire_trace. reflexivity.
Qed.

Lemma add_watch_paths_app (a b : list Effect) :
  add_watch_paths (a ++ b) = add_watch_paths a ++ add_watch_paths b.
Proof. apply omap_app. Qed.

Lemma addMonitor_locked_paths (env : Env) (path : string) (isc : SubId)
    (mask : Z) (add_watch : bool) (st : Publisher) :
  add_watch_paths (trace (snd (addMonitor_locked env path isc mask add_watch st)))
  = add_watch_paths (trace st) ++ [path].
Proof.
  rewrite addMonitor_locked_trace, add_watch_paths_app. f_equal.
  destruct (add_watch && (inotify_add_watch env path =? -1)); reflexivity.
Qed.

(** X13: when the kernel refuses the watch, a hard [addMonitor] returns
    false, logs one warning and leaves the watch table, the contexts and
    the reverse index as they were; a best-effort, non-recursive one
    (add_watch false) returns true and records the path under
    descriptor -1. *)
Theorem addMonitor_kernel_failure
    (env : Env) (path : string) (isc : SubId) (mask : Z) (recursive : bool)
    (st : Publisher) :
  inotify_add_watch env path = -1 →
  (let r := addMonitor env path isc mask recursive true st in
   fst r = false
   ∧ descriptor_inosubctx_ (snd r) = descriptor_inosubctx_ st
   ∧ contexts (snd r) = contexts st
   ∧ path_descriptors_ (snd r) = path_descriptors_ st
   ∧ trace (snd r)
     = trace st
       ++ [SysAddWatch (inotify_handle_ st) path (kernel_mask mask);
           LogWarning ("Could not add inotify watch on: " +:+ path)])
  ∧ (is_Some (contexts st !! isc) →
     let r := addMonitor env path isc mask false false st in
     fst r = true ∧ resolve (snd r) (-1) = Some (path, isc)).
Proof.
  intros Hfail. split.
  - cbv zeta. unfold addMonitor, addMonitor_locked. rewrite Hfail.
    cbn [andb Z.eqb negb fst snd]. cbn. rewrite <- app_assoc. auto.
  - intros Hlive. cbv zeta. rewrite addMonitor_nonrecursive.
    assert (Hok : fst (addMonitor_locked env path isc mask false st) = true)
      by (apply addMonitor_locked_succeeds; discriminate).
    split; [exact Hok|].
    destruct (addMonitor_locked_table env path isc mask false st Hlive Hok)
      as (Hres & _).
    rewrite Hfail in Hres. exact Hres.
Qed.

Lemma addMonitor_kernel_failure_witness :
  let st := Sample.publisher true 16 "/nowhere" in
  fst (addMonitor Sample.env "/nowhere" 0%nat 0 false true st) = false
  ∧ descriptor_inosubctx_ (snd (addMonitor Sample.env "/nowhere" 0%nat 0 false true st))
    = ∅
  ∧ resolve (snd (addMonitor Sample.env "/nowhere" 0%nat 0 false false st)) (-1)
    = Some ("/nowhere", 0%nat).
Proof.
  cbv zeta.
  destruct (addMonitor_kernel_failure Sample.env "/nowhere" 0%nat 0 false
              (Sample.publisher true 16 "/nowhere"))
    as ((Hf & Ht & _) & Hbest); [reflexivity|].
  split; [exact Hf|]. split; [exact Ht|].
  apply Hbest. cbn. eauto.
Defined.

(** X14: a successful recursive [addMonitor] on a directory asks the kernel
    for a watch on the path and then, in the order of the listing, on the
    canonical path, with a trailing separator, of every directory that the
    recursive listing of the path returns, and for no other; when it is not
    recursive, or the path is not a directory, it asks for the path
    alone. *)
Theorem addMonitor_requests_per_directory
    (env : Env) (path : string) (isc : SubId) (mask : Z)
    (recursive add_watch : bool) (st : Publisher) :
  (add_watch = true → inotify_add_watch env path ≠ -1) →
  add_watch_paths
    (trace (snd (addMonitor env path isc mask recursive add_watch st)))
  = add_watch_paths (trace st)
    ++ path
       :: (if recursive && isDirectory env path then
             map (fun child => canonical env child +:+ "/")
               (listDirectoriesInDirectory env path)
           else []).
Proof.
  intros Hkernel. unfold addMonitor.
  pose proof (addMonitor_locked_succeeds env path isc mask add_watch st Hkernel)
    as Hok.
  pose proof (addMonitor_locked_paths env path isc mask add_watch st) as H1.
  destruct (addMonitor_locked env path isc mask add_watch st) as [ok st1].
  cbn [fst snd] in *. subst ok. cbn [negb].
  destruct (recursive && isDirectory env path); cbn [snd]; [|exact H1].
  assert (Hfold : ∀ children s,
            add_watch_paths
              (trace
                 (fold_left
                    (fun s0 child =>
                       snd (addMonitor_locked env (canonical env child +:+ "/")
                              isc mask default_add_watch s0)) children s))
            = add_watch_paths (trace s)
              ++ map (fun child => canonical env child +:+ "/") children).
  { induction children as [|c l IH]; intros s; cbn [fold_left map].
    - rewrite app_nil_r. reflexivity.
    - rewrite IH, addMonitor_locked_paths, <- app_assoc. reflexivity. }
  rewrite Hfold, H1, <- app_assoc. reflexivity.
Qed.

Lemma addMonitor_requests_per_directory_witness :
  add_watch_paths
    (trace (snd (addMonitor Sample.env "/etc/" 0%nat 0 true true
                   (Sample.publisher false 16 "/etc/"))))
  = ["/etc/"; "/etc/ssh/"].
Proof.
  apply (addMonitor_requests_per_directory Sample.env "/etc/" 0%nat 0 true true
           (Sample.publisher false 16 "/etc/")).
  intros _. vm_compute. discriminate.
Defined.

(** ** Installing and removing: round trip *)

Lemma upd_descriptor_paths_same (c : INotifySubscriptionContext) :
  upd_descriptor_paths (fun _ => descriptor_paths_ c) c = c.
Proof. destruct c; reflexivity. Qed.

Lemma upd_descriptor_paths_insert_delete (w : Z) (path : string)
    (c : INotifySubscriptionContext) :
  descriptor_paths_ c !! w = None →
  upd_descriptor_paths (delete w) (upd_descriptor_paths <[w:=path]> c) = c.
Proof.
  intros Hd. destruct c as [p m r rm md t dp]. cbn in *.
  unfold upd_descriptor_paths. cbn. rewrite (delete_insert_id dp w path Hd).
  reflexivity.
Qed.

(** [removeMonitor] on a freshly recorded entry. *)
Lemma record_then_remove (w : Z) (path : string) (isc : SubId) (force : bool)
    (st : Publisher) (c : INotifySubscriptionContext) :
  contexts st !! isc = Some c →
  descriptor_inosubctx_ st !! w = None →
  descriptor_paths_ c !! w = None →
  (inotify_sanity_check st = true → path_descriptors_ st !! path = None) →
  let r := removeMonitor w force false (record_watch w path isc st) in
  fst r = true
  ∧ descriptor_inosubctx_ (snd r) = descriptor_inosubctx_ st
  ∧ contexts (snd r) = contexts st
  ∧ path_descriptors_ (snd r) = path_descriptors_ st.
Proof.
  intros Hc Ht Hd Hpd. cbv zeta.
  set (st1 := record_watch w path isc st).
  assert (Ht1 : descriptor_inosubctx_ st1 = <[w:=isc]> (descriptor_inosubctx_ st)).
  { subst st1. unfold record_watch. cbv zeta.
    destruct (inotify_sanity_check _); reflexivity. }
  assert (Hc1 : contexts st1
                = <[isc := upd_descriptor_paths <[w:=path]> c]> (contexts st)).
  { subst st1. unfold record_watch. cbv zeta.
    destruct (inotify_sanity_check _); cbn [contexts upd_path_descriptors
      upd_table upd_ctx]; apply map_eq; intros j; rewrite lookup_alter;
      (destruct (decide (isc = j)) as [<-|Hne];
       [rewrite lookup_insert_eq, Hc; reflexivity
       | rewrite lookup_insert_ne by exact Hne; reflexivity]). }
  assert (Hs1 : inotify_sanity_check st1 = inotify_sanity_check st).
  { apply (record_watch_frame not_callback w path isc st). }
  assert (Hk : descriptor_inosubctx_ st1 !! w = Some isc)
    by (rewrite Ht1; apply lookup_insert_eq).
  destruct (removeMonitor_known w force false st1 isc Hk) as (Hf & Htab & _).
  split; [exact Hf|]. split.
  { rewrite Htab, Ht1. apply delete_insert_id. exact Ht. }
  assert (Hder : descriptor_paths_ (deref st1 isc) = <[w:=path]> (descriptor_paths_ c)).
  { unfold deref. rewrite Hc1, lookup_insert_eq. reflexivity. }
  assert (Hpd1 : path_descriptors_ st1
                 = if inotify_sanity_check st then <[path:=w]> (path_descriptors_ st)
                   else path_descriptors_ st)
    by apply record_watch_reverse_index.
  split.
  - unfold removeMonitor. rewrite Hk. cbn [snd]. cbv zeta.
    assert (Hfinal : ∀ X, contexts X = contexts st1 →
              contexts (upd_ctx isc (upd_descriptor_paths (delete w)) X)
              = contexts st).
    { intros X HX. cbn [contexts upd_ctx]. rewrite HX, Hc1.
      apply map_eq. intros j. rewrite lookup_alter.
      destruct (decide (isc = j)) as [<-|Hne].
      - rewrite lookup_insert_eq, Hc. cbn [fmap option_fmap option_map]. f_equal.
        apply upd_descriptor_paths_insert_delete. exact Hd.
      - rewrite lookup_insert_ne by exact Hne. reflexivity. }
    change (inotify_sanity_check (upd_table (delete w) st1))
      with (inotify_sanity_check st1).
    change (deref (upd_table (delete w) st1) isc) with (deref st1 isc).
    destruct (inotify_sanity_check st1).
    + unfold index_or_create. rewrite Hder, lookup_insert_eq.
      destruct force; cbn [negb]; apply Hfinal; cbn [contexts upd_ctx emit
        upd_path_descriptors upd_table]; apply alter_id; intros x Hx;
        (assert (Hx' : descriptor_paths_ x = <[w:=path]> (descriptor_paths_ c))
           by (rewrite Hc1, lookup_insert_eq in Hx; injection Hx as <-; reflexivity);
         rewrite <- Hx'; apply upd_descriptor_paths_same).
    + destruct force; cbn [negb]; apply Hfinal; reflexivity.
  - rewrite removeMonitor_reverse_index, Hk, Hs1, Hpd1, Hder, lookup_insert_eq.
    cbn [default]. destruct (inotify_sanity_check st) eqn:Hon; [|reflexivity].
    apply delete_insert_id. apply Hpd. reflexivity.
Qed.

(** X15: installing a watch whose descriptor and path are new to the
    publisher and then removing that descriptor restores the watch table,
    the contexts and the reverse index; the removal returns true, and a
    second removal of the same descriptor returns false and changes
    nothing. *)
Theorem install_then_remove
    (env : Env) (path : string) (isc : SubId) (mask : Z) (add_watch force : bool)
    (st : Publisher) :
  let w := inotify_add_watch env path in
  is_Some (contexts st !! isc) →
  (add_watch = true → w ≠ -1) →
  descriptor_inosubctx_ st !! w = None →
  descriptor_paths_ (deref st isc) !! w = None →
  (inotify_sanity_check st = true → path_descriptors_ st !! path = None) →
  let st1 := snd (addMonitor env path isc mask false add_watch st) in
  let r := removeMonitor w force false st1 in
  fst r = true
  ∧ descriptor_inosubctx_ (snd r) = descriptor_inosubctx_ st
  ∧ contexts (snd r) = contexts st
  ∧ path_descriptors_ (snd r) = path_descriptors_ st
  ∧ ∀ force' batch_del', removeMonitor w force' batch_del' (snd r) = (false, snd r).
Proof.
  cbv zeta. intros [c Hc] Hkernel Ht Hd Hpd.
  rewrite addMonitor_nonrecursive.
  rewrite (addMonitor_locked_ok _ _ _ _ _ _
             (addMonitor_locked_succeeds env path isc mask add_watch st Hkernel)).
  set (st0 := emit _ st).
  assert (Hret : retire (inotify_add_watch env path) st0 = st0).
  { unfold retire. cbn [descriptor_inosubctx_ emit st0]. rewrite Ht. reflexivity. }
  rewrite Hret.
  assert (Hd' : descriptor_paths_ c !! inotify_add_watch env path = None).
  { unfold deref in Hd. rewrite Hc in Hd. exact Hd. }
  destruct (record_then_remove (inotify_add_watch env path) path isc force st0 c
              Hc Ht Hd' Hpd) as (Hf & Htab & Hctx & Hrev).
  cbv zeta in *. split; [exact Hf|]. split; [exact Htab|].
  split; [exact Hctx|]. split; [exact Hrev|].
  intros force' batch_del'. apply removeMonitor_unknown.
  rewrite Htab. exact Ht.
Qed.

Lemma install_then_remove_witness :
  let st := Sample.publisher true 16 "/etc/" in
  let st1 := snd (addMonitor Sample.env "/etc/" 0%nat 0 false true st) in
  descriptor_inosubctx_ (snd (removeMonitor 1 true false st1)) = ∅
  ∧ contexts (snd (removeMonitor 1 true false st1)) = contexts st
  ∧ path_descriptors_ (snd (removeMonitor 1 true false st1)) = ∅.
Proof.
  cbv zeta.
  destruct (install_then_remove Sample.env "/etc/" 0%nat 0 true true
              (Sample.publisher true 16 "/etc/"))
    as (_ & Ht & Hc & Hp & _).
  - cbn. eauto.
  - intros _. vm_compute. discriminate.
  - reflexivity.
  - reflexivity.
  - intros _. reflexivity.
  - split; [exact Ht|]. split; [exact Hc | exact Hp].
Defined.

(** ** needMonitoring: what it skips *)

Lemma upd_ctx_id (i : SubId)
    (f : INotifySubscriptionContext → INotifySubscriptionContext) (st : Publisher) :
  (∀ c, contexts st !! i = Some c → f c = c) → upd_ctx i f st = st.
Proof.
  intros Hf. destruct st. unfold upd_ctx. cbn in *. f_equal.
  apply alter_id. exact Hf.
Qed.

Lemma upd_path_sc_time_same (c : INotifySubscriptionContext) :
  upd_path_sc_time (fun _ => path_sc_time_ c) c = c.
Proof. destruct c; reflexivity. Qed.

(** With the change time already remembered, [needMonitoring] is the
    identity. *)
Lemma needMonitoring_remembered (env : Env) (path : string) (isc : SubId)
    (mask : Z) (recursive add_watch : bool) (st : Publisher) (ct : Z) :
  stat_ctime env path = Some ct →
  path_sc_time_ (deref st isc) !! path = Some ct →
  needMonitoring env path isc mask recursive add_watch st = (true, st).
Proof.
  intros Hstat Hrem. unfold needMonitoring, index_or_create.
  rewrite Hrem, Hstat, Z.eqb_refl. cbn [negb]. f_equal.
  apply upd_ctx_id. intros c Hc.
  unfold deref. rewrite Hc. apply upd_path_sc_time_same.
Qed.

(** X16: [needMonitoring] returns false without asking the kernel when
    [stat] fails: it logs one warning and the watch table and reverse
    index stay as they were.  When the change time that [stat] reports is
    the one the subscription remembers for the path, it returns true and
    adds nothing to the trace; if the time is recorded it changes nothing
    at all. *)
Theorem needMonitoring_skips
    (env : Env) (path : string) (isc : SubId) (mask : Z)
    (recursive add_watch : bool) (st : Publisher) :
  let r := needMonitoring env path isc mask recursive add_watch st in
  (stat_ctime env path = None →
   fst r = false
   ∧ trace (snd r) = trace st ++ [LogWarning ("Failed to do stat on: " +:+ path)]
   ∧ descriptor_inosubctx_ (snd r) = descriptor_inosubctx_ st
   ∧ path_descriptors_ (snd r) = path_descriptors_ st)
  ∧ (∀ ct, stat_ctime env path = Some ct →
           cached_ctime (deref st isc) path = ct →
           fst r = true
           ∧ trace (snd r) = trace st
           ∧ descriptor_inosubctx_ (snd r) = descriptor_inosubctx_ st
           ∧ (path_sc_time_ (deref st isc) !! path = Some ct → snd r = st)).
Proof.
  cbv zeta. split.
  - intros Hstat. unfold needMonitoring.
    destruct (index_or_create 0 path (path_sc_time_ (deref st isc))) as [t times].
    rewrite Hstat. cbn. auto.
  - intros ct Hstat Hcache.
    assert (Hrem : path_sc_time_ (deref st isc) !! path = Some ct →
                   needMonitoring env path isc mask recursive add_watch st
                   = (true, st))
      by (apply needMonitoring_remembered; exact Hstat).
    unfold needMonitoring in *.
    pose proof (index_or_create_fst 0 path (path_sc_time_ (deref st isc))) as Hf.
    destruct (index_or_create 0 path (path_sc_time_ (deref st isc))) as [t times].
    cbn [fst] in Hf. fold (cached_ctime (deref st isc) path) in Hf.
    rewrite Hstat in *. rewrite Hf, Hcache, Z.eqb_refl in *. cbn [negb] in *.
    cbn [fst snd]. repeat split.
    intros Hrec. specialize (Hrem Hrec). injection Hrem as ->. reflexivity.
Qed.

Lemma needMonitoring_skips_witness :
  let st := Sample.publisher false 16 "/nowhere" in
  fst (needMonitoring Sample.env "/nowhere" 0%nat 0 false true st) = false
  ∧ add_watch_paths
      (trace (snd (needMonitoring Sample.env "/nowhere" 0%nat 0 false true st)))
    = [].
Proof.
  cbv zeta.
  destruct (needMonitoring_skips Sample.env "/nowhere" 0%nat 0 false true
              (Sample.publisher false 16 "/nowhere")) as (Hfail & _).
  destruct Hfail as (Hf & Ht & _); [reflexivity|].
  split; [exact Hf|]. rewrite Ht. reflexivity.
Defined.

(** After a call that returned true the change time is remembered. *)
Lemma needMonitoring_remembers (env : Env) (path : string) (isc : SubId)
    (mask : Z) (recursive add_watch : bool) (st : Publisher) (ct : Z) :
  is_Some (contexts st !! isc) →
  stat_ctime env path = Some ct →
  fst (needMonitoring env path isc mask recursive add_watch st) = true →
  path_sc_time_
    (deref (snd (needMonitoring env path isc mask recursive add_watch st)) isc)
    !! path = Some ct.
Proof.
  intros Hlive Hstat. unfold needMonitoring.
  pose proof (index_or_create_fst 0 path (path_sc_time_ (deref st isc))) as Hf.
  assert (Hs : snd (index_or_create 0 path (path_sc_time_ (deref st isc))) !! path
               = Some (fst (index_or_create 0 path
                              (path_sc_time_ (deref st isc))))).
  { unfold index_or_create.
    destruct (path_sc_time_ (deref st isc) !! path) eqn:E; cbn [fst snd];
      [exact E | apply lookup_insert_eq]. }
  destruct (index_or_create 0 path (path_sc_time_ (deref st isc))) as [t times].
  cbn [fst snd] in Hf, Hs. rewrite Hstat.
  set (st1 := upd_ctx isc _ st).
  assert (Hlive1 : is_Some (contexts st1 !! isc)) by (apply upd_ctx_live; exact Hlive).
  destruct (Z.eqb_spec t ct) as [->|Hne]; cbn [negb].
  - intros _. cbn [snd]. subst st1. rewrite deref_upd_ctx_live by exact Hlive.
    exact Hs.
  - pose proof (addMonitor_request env path isc (sc_mask (deref st1 isc))
                  (sc_recursive (deref st1 isc)) add_watch st1)
      as (_&_&_&_&Hl&_).
    destruct (addMonitor env path isc (sc_mask (deref st1 isc))
                (sc_recursive (deref st1 isc)) add_watch st1) as [rc st2].
    cbn [snd] in Hl. destruct rc; cbn [fst snd]; [|discriminate]. intros _.
    rewrite deref_upd_ctx_live by (apply Hl; exact Hlive1).
    cbn [path_sc_time_ upd_path_sc_time]. apply lookup_insert_eq.
Qed.

(** X17: once [needMonitoring] has returned true for a path, calling it
    again while [stat] reports the same change time returns true and
    changes nothing: no kernel call, no log entry, the same state. *)
Theorem needMonitoring_twice
    (env : Env) (path : string) (isc : SubId) (mask mask' : Z)
    (recursive recursive' add_watch add_watch' : bool) (st : Publisher) (ct : Z) :
  is_Some (contexts st !! isc) →
  stat_ctime env path = Some ct →
  fst (needMonitoring env path isc mask recursive add_watch st) = true →
  let st1 := snd (needMonitoring env path isc mask recursive add_watch st) in
  needMonitoring env path isc mask' recursive' add_watch' st1 = (true, st1).
Proof.
  intros Hlive Hstat Hok. cbv zeta.
  apply (needMonitoring_remembered env path isc mask' recursive' add_watch' _ ct
           Hstat).
  apply needMonitoring_remembers; assumption.
Qed.

Lemma needMonitoring_twice_witness :
  let st := Sample.publisher false 16 "/etc/" in
  let st1 := snd (needMonitoring Sample.env "/etc/" 0%nat 0 false true st) in
  add_watch_paths (trace st1) = ["/etc/"]
  ∧ needMonitoring Sample.env "/etc/" 0%nat 0 false true st1 = (true, st1).
Proof.
  cbv zeta. split; [vm_compute; reflexivity|].
  apply (needMonitoring_twice Sample.env "/etc/" 0%nat 0 0 false false true true
           (Sample.publisher false 16 "/etc/") 1700000000);
    [cbn; eauto | reflexivity | vm_compute; reflexivity].
Defined.

(** ** monitorSubscription: the stored pattern settles *)

Lemma strip_recursive_marker_clean (sc : SubId) (st : Publisher) :
  Str.find "**" (sc_path (deref (strip_recursive_marker sc st) sc)) = None.
Proof.
  destruct (Str.find "**" (sc_path (deref st sc))) as [i|] eqn:Hi.
  - destruct (contexts st !! sc) as [c|] eqn:Hc.
    + assert (Hd : deref st sc = c) by (unfold deref; rewrite Hc; reflexivity).
      rewrite Hd in Hi.
      rewrite (strip_recursive_marker_found sc st c i Hc Hi).
      cbn [sc_path set_sc_path]. apply find_marker_prefix_clean. exact Hi.
    + unfold deref in Hi. rewrite Hc in Hi. discriminate.
  - rewrite strip_recursive_marker_absent by exact Hi. exact Hi.
Qed.

(** The pattern [monitorSubscription] leaves, from the one the marker block
    leaves: a separator is appended exactly when that pattern has no
    wildcard, is a directory and does not end in a separator. *)
Lemma monitorSubscription_path (env : Env) (sc : SubId) (add_watch : bool)
    (st : Publisher) :
  is_Some (contexts st !! sc) →
  let p0 := sc_path (deref (strip_recursive_marker sc st) sc) in
  sc_path (deref (snd (monitorSubscription env sc add_watch st)) sc)
  = if negb (Str.found (Str.find_char "*" p0)) && isDirectory env p0
       && negb (Str.back_is "/" p0)
    then p0 +:+ "/" else p0.
Proof.
  intros Hlive. cbv zeta. unfold monitorSubscription. cbv zeta.
  set (st1 := strip_recursive_marker sc st).
  assert (Hlive1 : is_Some (contexts st1 !! sc))
    by (apply strip_recursive_marker_live; exact Hlive).
  set (p := sc_path (deref st1 sc)).
  assert (Hneed : ∀ path m recursive s,
            sc_path (deref (snd (needMonitoring env path sc m recursive
                                   add_watch s)) sc) = sc_path (deref s sc)).
  { intros path m recursive s.
    pose proof (needMonitoring_request env path sc m recursive add_watch s)
      as (_&_&_&_&_&Hp).
    apply (Hp sc). }
  assert (Hfold : ∀ l s,
            sc_path (deref (fold_left
              (fun s _path =>
                 snd (needMonitoring env _path sc (sc_mask (deref s sc))
                        (sc_recursive (deref s sc)) add_watch s)) l s) sc)
            = sc_path (deref s sc)).
  { induction l as [|a l IH]; intros s; cbn [fold_left]; [reflexivity|].
    rewrite IH. apply Hneed. }
  destruct (Str.found (Str.find_char "*" p)) eqn:Hstar; cbn [negb andb].
  - unfold leaf_discovered.
    destruct (Str.found (Str.find_char "*" (fs_filename env p))) eqn:Hleaf.
    + destruct (Str.found (Str.find_char "*" (fs_parent_path env p +:+ "/")));
        cbn [snd].
      * rewrite Hfold, deref_upd_ctx_live by exact Hlive1. reflexivity.
      * rewrite back_is_append_slash, andb_false_r. apply Hneed.
    + rewrite Hstar. cbn [snd].
      rewrite Hfold, deref_upd_ctx_live by exact Hlive1. reflexivity.
  - destruct (isDirectory env p && negb (Str.back_is "/" p)).
    + rewrite Hneed, deref_upd_ctx_live by exact Hlive1. reflexivity.
    + apply Hneed.
Qed.

(** X18: [monitorSubscription] settles the stored pattern in one call: a
    second call, with the same filesystem answers, leaves the pattern and
    the recursive flag as the first call left them (no further separator is
    appended, and a stripped marker does not come back). *)
Theorem monitorSubscription_pattern_settles
    (env : Env) (sc : SubId) (add_watch add_watch' : bool) (st : Publisher) :
  is_Some (contexts st !! sc) →
  let st1 := snd (monitorSubscription env sc add_watch st) in
  let st2 := snd (monitorSubscription env sc add_watch' st1) in
  sc_path (deref st2 sc) = sc_path (deref st1 sc)
  ∧ sc_recursive (deref st2 sc) = sc_recursive (deref st1 sc)
  ∧ Str.find "**" (sc_path (deref st1 sc)) = None.
Proof.
  intros Hlive. cbv zeta.
  set (st1 := snd (monitorSubscription env sc add_watch st)).
  assert (Hlive1 : is_Some (contexts st1 !! sc)).
  { apply (monitorSubscription_mark env sc add_watch st). exact Hlive. }
  pose proof (monitorSubscription_path env sc add_watch st Hlive) as Hp1.
  cbv zeta in Hp1. fold st1 in Hp1.
  pose proof (strip_recursive_marker_clean sc st) as Hclean0.
  set (p0 := sc_path (deref (strip_recursive_marker sc st) sc)) in *.
  assert (Hclean1 : Str.find "**" (sc_path (deref st1 sc)) = None).
  { rewrite Hp1. destruct (_ && _);
      [apply find_marker_append_slash|]; exact Hclean0. }
  assert (Hstrip : strip_recursive_marker sc st1 = st1)
    by (apply strip_recursive_marker_absent; exact Hclean1).
  split; [|split; [|exact Hclean1]].
  - rewrite (monitorSubscription_path env sc add_watch' st1 Hlive1).
    cbv zeta. rewrite Hstrip, Hp1.
    destruct (negb (Str.found (Str.find_char "*" p0)) && isDirectory env p0
              && negb (Str.back_is "/" p0)) eqn:Hc.
    + rewrite back_is_append_slash, andb_false_r. reflexivity.
    + rewrite Hc. reflexivity.
  - destruct (monitorSubscription_pattern env sc add_watch' st1 Hlive1)
      as (Hrec & _). rewrite Hstrip in Hrec. exact Hrec.
Qed.

Lemma monitorSubscription_pattern_settles_witness :
  let st := Sample.publisher false 16 "/etc" in
  let st1 := snd (monitorSubscription Sample.env 0%nat true st) in
  let st2 := snd (monitorSubscription Sample.env 0%nat true st1) in
  sc_path (deref st1 0%nat) = "/etc/" ∧ sc_path (deref st2 0%nat) = "/etc/".
Proof.
  cbv zeta.
  destruct (monitorSubscription_pattern_settles Sample.env 0%nat true true
              (Sample.publisher false 16 "/etc")) as (Hp & _); [cbn; eauto|].
  split; [vm_compute; reflexivity|]. rewrite Hp. vm_compute. reflexivity.
Defined.

(** ** The watch table stays resolvable: [run] does not throw *)

Lemma table_wf_owner_live (st : Publisher) (d : Z) (isc : SubId) :
  table_wf st → descriptor_inosubctx_ st !! d = Some isc →
  is_Some (contexts st !! isc).
Proof.
  intros Hwf Hd. destruct (Hwf d) as [[p j] Hres]; [eauto|].
  unfold resolve in Hres. rewrite Hd in Hres.
  unfold deref in Hres. destruct (contexts st !! isc) as [c|]; [eauto|].
  cbn in Hres. rewrite lookup_empty in Hres. discriminate.
Qed.

(** A step that touches the table and the descriptor maps at [w] only keeps
    the table resolvable when [w] itself is left resolvable or absent. *)
Lemma table_wf_only_at (w : Z) (st st' : Publisher) :
  only_at w st st' →
  (is_Some (descriptor_inosubctx_ st' !! w) → is_Some (resolve st' w)) →
  table_wf st → table_wf st'.
Proof.
  intros Honly Hw Hwf d Hd. destruct (decide (d = w)) as [->|Hne].
  - apply Hw. exact Hd.
  - rewrite (only_at_resolve w d st st' Honly Hne). apply Hwf.
    destruct Honly as (Ht & _). rewrite <- (Ht d Hne). exact Hd.
Qed.

(** A step that leaves the table and every descriptor map as they are. *)
Lemma table_wf_same (st st' : Publisher) :
  descriptor_inosubctx_ st' = descriptor_inosubctx_ st →
  (∀ s, descriptor_paths_ (deref st' s) = descriptor_paths_ (deref st s)) →
  table_wf st → table_wf st'.
Proof.
  intros Ht Hp Hwf d Hd. unfold resolve. rewrite Ht in Hd |- *.
  specialize (Hwf d Hd). unfold resolve in Hwf.
  destruct (descriptor_inosubctx_ st !! d) as [isc|]; [|exact Hwf].
  rewrite Hp. exact Hwf.
Qed.

Lemma table_wf_upd_ctx (i : SubId)
    (f : INotifySubscriptionContext → INotifySubscriptionContext) (st : Publisher) :
  (∀ c, descriptor_paths_ (f c) = descriptor_paths_ c) →
  table_wf st → table_wf (upd_ctx i f st).
Proof.
  intros Hf. apply table_wf_same; [reflexivity|].
  intros s. rewrite deref_upd_ctx. case_decide; [|reflexivity].
  subst s. unfold deref. destruct (contexts st !! i); [apply Hf | reflexivity].
Qed.

Lemma addMonitor_locked_table_wf (env : Env) (path : string) (isc : SubId)
    (mask : Z) (add_watch : bool) (st : Publisher) :
  is_Some (contexts st !! isc) → table_wf st →
  table_wf (snd (addMonitor_locked env path isc mask add_watch st)).
Proof.
  intros Hlive.
  destruct (fst (addMonitor_locked env path isc mask add_watch st)) eqn:Hok.
  - apply (table_wf_only_at (inotify_add_watch env path));
      [apply addMonitor_locked_only_at|].
    intros _.
    destruct (addMonitor_locked_table env path isc mask add_watch st Hlive Hok)
      as (Hres & _).
    rewrite Hres. eauto.
  - unfold addMonitor_locked in *.
    destruct (add_watch && (inotify_add_watch env path =? -1)); [|discriminate].
    cbn [snd]. apply table_wf_same; reflexivity.
Qed.

Lemma addMonitor_table_wf (env : Env) (path : string) (isc : SubId) (mask : Z)
    (recursive add_watch : bool) (st : Publisher) :
  is_Some (contexts st !! isc) → table_wf st →
  table_wf (snd (addMonitor env path isc mask recursive add_watch st)).
Proof.
  intros Hlive Hwf. unfold addMonitor.
  pose proof (addMonitor_locked_table_wf env path isc mask add_watch st Hlive Hwf)
    as Hwf1.
  pose proof (addMonitor_locked_request env path isc mask add_watch st)
    as (_&_&_&_&Hl1&_).
  destruct (addMonitor_locked env path isc mask add_watch st) as [ok st1].
  cbn [snd] in *.
  destruct (negb ok); [exact Hwf1|].
  destruct (recursive && isDirectory env path); [|exact Hwf1].
  cbn [snd].
  assert (Hlive1 : is_Some (contexts st1 !! isc)) by (apply Hl1; exact Hlive).
  clear Hl1 Hwf Hlive. revert st1 Hwf1 Hlive1.
  induction (listDirectoriesInDirectory env path) as [|c l IH];
    intros s Hwf Hlive; cbn [fold_left]; [exact Hwf|].
  apply IH.
  - apply addMonitor_locked_table_wf; assumption.
  - apply (addMonitor_locked_request env (canonical env c +:+ "/") isc mask
             default_add_watch s). exact Hlive.
Qed.

Lemma removeMonitor_table_wf (w : Z) (force batch_del : bool) (st : Publisher) :
  table_wf st → table_wf (snd (removeMonitor w force batch_del st)).
Proof.
  apply (table_wf_only_at w); [apply removeMonitor_only_at|].
  rewrite removeMonitor_table, lookup_delete_eq. intros [? [=]].
Qed.

Lemma handleOverflow_table_wf (env : Env) (st : Publisher) :
  table_wf st → table_wf (handleOverflow env st).
Proof.
  unfold handleOverflow.
  destruct (inotify_events_ st <? kINotifyMaxEvents);
    [apply table_wf_same; reflexivity|].
  destruct (negb (last_overflow_ st =? -1)
            && (to_size_t (getUnixTime env - last_overflow_ st) <? 60));
    [auto | apply table_wf_same; reflexivity].
Qed.

Lemma shouldFire_table_wf
    (env : Env) (sc : SubId) (ec : INotifyEventContext) (st : Publisher) :
  (∀ isc, isub_ctx ec = Some isc → is_Some (contexts st !! isc)) →
  table_wf st → table_wf (snd (shouldFire env sc ec st)).
Proof.
  intros Hlive Hwf. unfold shouldFire.
  destruct (bool_decide (Some sc = isub_ctx ec)) eqn:Hown; cbn [negb];
    [|exact Hwf].
  apply bool_decide_eq_true_1 in Hown.
  destruct (negb (sc_mask (deref st sc) =? 0)
            && negb (bits_overlap (raw_mask ec) (sc_mask (deref st sc))));
    [exact Hwf|].
  cbv zeta.
  assert (Hwf1 : table_wf
            (if sc_recursive (deref st sc) && String.eqb (action ec) "CREATED"
                && isDirectory env (ec_path ec)
             then snd (addMonitor env (ec_path ec +:+ "/") sc
                         (sc_mask (deref st sc)) true default_add_watch st)
             else st)).
  { destruct (_ && _); [|exact Hwf].
    apply addMonitor_table_wf; [|exact Hwf]. apply Hlive. symmetry. exact Hown. }
  destruct (exclude_filter_drops _ ec); exact Hwf1.
Qed.

Lemma shouldFire_live
    (env : Env) (sc : SubId) (ec : INotifyEventContext) (st : Publisher) (s : SubId) :
  is_Some (contexts (snd (shouldFire env sc ec st)) !! s)
  ↔ is_Some (contexts st !! s).
Proof.
  unfold shouldFire.
  destruct (negb (bool_decide (Some sc = isub_ctx ec))); [reflexivity|].
  destruct (negb (sc_mask (deref st sc) =? 0)
            && negb (bits_overlap (raw_mask ec) (sc_mask (deref st sc))));
    [reflexivity|].
  cbv zeta.
  assert (Hl : is_Some (contexts
            (if sc_recursive (deref st sc) && String.eqb (action ec) "CREATED"
                && isDirectory env (ec_path ec)
             then snd (addMonitor env (ec_path ec +:+ "/") sc
                         (sc_mask (deref st sc)) true default_add_watch st)
             else st) !! s) ↔ is_Some (contexts st !! s)).
  { destruct (_ && _); [|reflexivity].
    apply (addMonitor_request env (ec_path ec +:+ "/") sc (sc_mask (deref st sc))
             true default_add_watch st). }
  destruct (exclude_filter_drops _ ec); exact Hl.
Qed.

Lemma fire_table_wf (env : Env) (ec : INotifyEventContext) (st : Publisher) :
  (∀ isc, isub_ctx ec = Some isc → is_Some (contexts st !! isc)) →
  table_wf st → table_wf (fire env ec st).
Proof.
  unfold fire. generalize (subscriptions_ st) as subs.
  intros subs. revert st. induction subs as [|sub subs IH];
    intros st Hlive Hwf; cbn [fold_left]; [exact Hwf|].
  pose proof (shouldFire_table_wf env (context sub) ec st Hlive Hwf) as Hwf1.
  pose proof (shouldFire_live env (context sub) ec st) as Hl.
  destruct (shouldFire env (context sub) ec st) as [b s1]. cbn [snd] in *.
  apply IH.
  - intros isc Hisc. destruct b; cbn [contexts emit]; apply Hl, Hlive, Hisc.
  - destruct b; [apply (table_wf_same s1); [reflexivity..|exact Hwf1] | exact Hwf1].
Qed.

Lemma process_record_table_wf (env : Env) (ev : inotify_event) (st : Publisher) :
  table_wf st →
  ∃ st', process_record env ev st = Some st' ∧ table_wf st'.
Proof.
  intros Hwf. unfold process_record.
  destruct (bits_overlap (ev_mask ev) IN_Q_OVERFLOW);
    [eexists; split; [reflexivity | apply handleOverflow_table_wf, Hwf]|].
  destruct (bits_overlap (ev_mask ev) IN_IGNORED);
    [eexists; split; [reflexivity | apply removeMonitor_table_wf, Hwf]|].
  destruct (bits_overlap (ev_mask ev) IN_MOVE_SELF);
    [eexists; split; [reflexivity | apply removeMonitor_table_wf, Hwf]|].
  destruct (bits_overlap (ev_mask ev) IN_DELETE_SELF);
    [eexists; split; [reflexivity | apply removeMonitor_table_wf, Hwf]|].
  unfold createEventContextFrom. cbv zeta.
  destruct (descriptor_inosubctx_ st !! wd ev) as [isc|] eqn:Hd.
  - destruct (Hwf (wd ev)) as [[p j] Hres]; [eauto|].
    unfold resolve in Hres. rewrite Hd in Hres.
    destruct (descriptor_paths_ (deref st isc) !! wd ev) as [p'|]; [|discriminate].
    destruct (negb (String.eqb _ "")); eexists; (split; [reflexivity|]);
      [|exact Hwf].
    apply fire_table_wf; [|exact Hwf].
    cbn [isub_ctx]. intros i [= <-].
    apply (table_wf_owner_live st (wd ev)); assumption.
  - destruct (negb (String.eqb _ "")); eexists; (split; [reflexivity|]);
      [|exact Hwf].
    apply fire_table_wf; [|exact Hwf]. cbn [isub_ctx blank_ec]. intros i [=].
Qed.

Lemma process_records_table_wf (env : Env) (evs : list inotify_event)
    (st : Publisher) :
  table_wf st →
  fst (process_records env evs st) = true
  ∧ table_wf (snd (process_records env evs st)).
Proof.
  revert st. induction evs as [|ev evs IH]; intros st Hwf; cbn [process_records];
    [split; [reflexivity | exact Hwf]|].
  destruct (process_record_table_wf env ev st Hwf) as (st1 & -> & Hwf1).
  apply IH. exact Hwf1.
Qed.

Lemma run_table_wf (env : Env) (poll : PollResult) (rd : ReadResult)
    (st : Publisher) :
  table_wf st →
  is_Some (fst (run env poll rd st)) ∧ table_wf (snd (run env poll rd st)).
Proof.
  intros Hwf. unfold run.
  destruct poll as [[|]| |[|]]; cbn [fst snd].
  - split; [eexists; reflexivity | exact Hwf].
  - split; [eexists; reflexivity | exact Hwf].
  - split; [eexists; reflexivity | exact Hwf].
  - destruct rd as [|evs]; [cbn [fst snd]; split; [eexists; reflexivity | exact Hwf]|].
    destruct (process_records_table_wf env evs st Hwf) as (Hok & Hwf1).
    destruct (process_records env evs st) as [completed st1]. cbn [fst snd] in *.
    subst completed. split; [eexists; reflexivity | exact Hwf1].
  - split; [eexists; reflexivity | exact Hwf].
Qed.

Lemma strip_recursive_marker_table_wf (sc : SubId) (st : Publisher) :
  table_wf st → table_wf (strip_recursive_marker sc st).
Proof.
  intros Hwf. unfold strip_recursive_marker. cbv zeta.
  destruct (Str.found (Str.find "**" (sc_path (deref st sc)))); [|exact Hwf].
  apply table_wf_upd_ctx; [reflexivity|].
  apply table_wf_upd_ctx; [reflexivity | exact Hwf].
Qed.

Lemma needMonitoring_table_wf (env : Env) (path : string) (isc : SubId) (m : Z)
    (recursive add_watch : bool) (st : Publisher) :
  is_Some (contexts st !! isc) → table_wf st →
  table_wf (snd (needMonitoring env path isc m recursive add_watch st)).
Proof.
  intros Hlive Hwf. unfold needMonitoring.
  destruct (index_or_create 0 path (path_sc_time_ (deref st isc)))
    as [sc_time times].
  set (st1 := upd_ctx isc (upd_path_sc_time (fun _ => times)) st).
  assert (Hwf1 : table_wf st1) by (apply table_wf_upd_ctx; [reflexivity | exact Hwf]).
  assert (Hlive1 : is_Some (contexts st1 !! isc)) by (apply upd_ctx_live; exact Hlive).
  destruct (stat_ctime env path) as [st_ctime|]; [|exact Hwf1].
  destruct (negb (sc_time =? st_ctime)); [|exact Hwf1].
  pose proof (addMonitor_table_wf env path isc (sc_mask (deref st1 isc))
                (sc_recursive (deref st1 isc)) add_watch st1 Hlive1 Hwf1) as Hwf2.
  destruct (addMonitor env path isc (sc_mask (deref st1 isc))
              (sc_recursive (deref st1 isc)) add_watch st1) as [rc st2].
  cbn [snd] in Hwf2. destruct rc; cbn [snd]; [|exact Hwf2].
  apply table_wf_upd_ctx; [reflexivity | exact Hwf2].
Qed.

Lemma needMonitoring_fold_table_wf (env : Env) (sc : SubId) (add_watch : bool)
    (l : list string) (st : Publisher) :
  is_Some (contexts st !! sc) → table_wf st →
  table_wf
    (fold_left
       (fun s _path =>
          snd (needMonitoring env _path sc (sc_mask (deref s sc))
                 (sc_recursive (deref s sc)) add_watch s)) l st).
Proof.
  revert st. induction l as [|a l IH]; intros st Hlive Hwf; cbn [fold_left];
    [exact Hwf|].
  apply IH.
  - apply (needMonitoring_request env a sc (sc_mask (deref st sc))
             (sc_recursive (deref st sc)) add_watch st). exact Hlive.
  - apply needMonitoring_table_wf; assumption.
Qed.

Lemma monitorSubscription_table_wf (env : Env) (sc : SubId) (add_watch : bool)
    (st : Publisher) :
  is_Some (contexts st !! sc) → table_wf st →
  table_wf (snd (monitorSubscription env sc add_watch st)).
Proof.
  intros Hlive Hwf. unfold monitorSubscription. cbv zeta.
  pose proof (strip_recursive_marker_table_wf sc st Hwf) as Hwf1.
  assert (Hlive1 : is_Some (contexts (strip_recursive_marker sc st) !! sc))
    by (apply strip_recursive_marker_live; exact Hlive).
  set (st1 := strip_recursive_marker sc st) in *.
  set (p := sc_path (deref st1 sc)).
  set (discovered := if Str.found (Str.find_char "*" p) then _ else p).
  destruct (Str.found (Str.find_char "*" p)
            && Str.found (Str.find_char "*" discovered)); cbn [snd].
  - apply needMonitoring_fold_table_wf.
    + apply upd_ctx_live. exact Hlive1.
    + apply table_wf_upd_ctx; [reflexivity | exact Hwf1].
  - destruct (isDirectory env discovered && negb (Str.back_is "/" discovered)).
    + apply needMonitoring_table_wf.
      * apply upd_ctx_live. exact Hlive1.
      * apply table_wf_upd_ctx; [reflexivity | exact Hwf1].
    + apply needMonitoring_table_wf; assumption.
Qed.

(** Removing the descriptors of a list leaves the entries of every other
    descriptor as they are. *)
Lemma remove_all_only (l : list Z) (force batch_del : bool) (st : Publisher) (d : Z) :
  d ∉ l →
  let st' := fold_left (fun s w => snd (removeMonitor w force batch_del s)) l st in
  descriptor_inosubctx_ st' !! d = descriptor_inosubctx_ st !! d
  ∧ ∀ s, descriptor_paths_ (deref st' s) !! d = descriptor_paths_ (deref st s) !! d.
Proof.
  revert st. induction l as [|w l IH]; intros st Hd; cbv zeta; cbn [fold_left];
    [split; reflexivity|].
  apply not_elem_of_cons in Hd as (Hne & Hd).
  destruct (IH (snd (removeMonitor w force batch_del st)) Hd) as (Ht & Hp).
  destruct (removeMonitor_only_at w force batch_del st) as (Ht1 & Hp1).
  split.
  - rewrite Ht. apply Ht1. exact Hne.
  - intros s. rewrite Hp. apply Hp1. exact Hne.
Qed.

Lemma purge_subscription_table_wf (sub : Subscription) (st : Publisher) :
  table_wf st → table_wf (purge_subscription sub st).
Proof.
  intros Hwf d Hd.
  destruct (sorted_keys_spec (descriptor_paths_ (deref st (context sub))))
    as (Hnd & Hkeys).
  destruct (remove_all_table_trace _ true st Hnd) as (Ht & _).
  cbv zeta in Ht. unfold purge_subscription in *. cbv zeta in *.
  set (l := merge_sort Z.le
              (elements (dom (descriptor_paths_ (deref st (context sub)))))) in *.
  set (st1 := fold_left (fun s w => snd (removeMonitor w true true s)) l st) in *.
  unfold resolve.
  change (descriptor_inosubctx_
            (upd_ctx (context sub) (upd_descriptor_paths (fun _ => ∅)) st1))
    with (descriptor_inosubctx_ st1) in *.
  rewrite Ht in Hd |- *.
  destruct (decide (d ∈ l)) as [Hin|Hout]; [destruct Hd as [? [=]]|].
  destruct (remove_all_only l true true st d Hout) as (_ & Hp).
  fold st1 in Hp.
  specialize (Hwf d Hd). unfold resolve in Hwf.
  destruct (descriptor_inosubctx_ st !! d) as [j|]; [|exact Hwf].
  rewrite descriptor_paths_upd_ctx.
  destruct (decide (context sub = j)) as [<-|Hne].
  - exfalso. apply Hout, Hkeys.
    destruct (descriptor_paths_ (deref st (context sub)) !! d); [eauto|].
    destruct Hwf as [? [=]].
  - rewrite Hp. exact Hwf.
Qed.

Lemma monitor_all_table_wf (env : Env) (subs : list Subscription) (st : Publisher) :
  (∀ sub, In sub subs → is_Some (contexts st !! context sub)) →
  table_wf st →
  table_wf
    (fold_left
       (fun s sub => snd (monitorSubscription env (context sub) default_add_watch s))
       subs st).
Proof.
  revert st. induction subs as [|sub subs IH]; intros st Hlive Hwf;
    cbn [fold_left]; [exact Hwf|].
  apply IH.
  - intros x Hx.
    apply (monitorSubscription_mark env (context sub) default_add_watch st).
    apply Hlive. right. exact Hx.
  - apply monitorSubscription_table_wf; [|exact Hwf]. apply Hlive. left. reflexivity.
Qed.

Lemma purge_all_table_wf (subs : list Subscription) (st : Publisher) :
  table_wf st →
  table_wf (fold_left (fun s sub => purge_subscription sub s) subs st).
Proof.
  revert st. induction subs as [|sub subs IH]; intros st Hwf; cbn [fold_left];
    [exact Hwf|].
  apply IH, purge_subscription_table_wf, Hwf.
Qed.

(** [configure] keeps the table resolvable, drops no live context, and
    leaves a subscription list drawn from the one it found. *)
Lemma configure_table_wf (env : Env) (patterns : list string) (st : Publisher) :
  table_wf st → subscriptions_live st →
  let st' := configure env patterns st in
  table_wf st'
  ∧ (∀ s, is_Some (contexts st' !! s) ↔ is_Some (contexts st !! s))
  ∧ (∀ sub, In sub (subscriptions_ st') → In sub (subscriptions_ st)).
Proof.
  intros Hwf Hsl. cbv zeta. unfold configure.
  destruct (inotify_handle_ st =? -1); [split; [exact Hwf | split; tauto]|].
  cbv zeta.
  set (kept := List.filter
                 (fun sub => negb (mark_for_deletion (deref st (context sub))))
                 (subscriptions_ st)).
  set (st1 := set_subscriptions kept st).
  set (st2 := fold_left (fun s sub => purge_subscription sub s)
                (List.filter
                   (fun sub => mark_for_deletion (deref st (context sub)))
                   (subscriptions_ st)) st1).
  set (st3 := buildExcludePathsSet patterns st2).
  pose proof (purge_all_request
                (List.filter (fun sub => mark_for_deletion (deref st (context sub)))
                   (subscriptions_ st)) st1) as (_ & Hs2 & _ & _ & Hl2 & _).
  fold st2 in Hs2, Hl2.
  pose proof (buildExcludePathsSet_rest patterns st2 ∅) as Hrest.
  fold st3 in Hrest.
  assert (Hs3 : subscriptions_ st3 = subscriptions_ st2).
  { change (subscriptions_ (set_exclude_paths ∅ st3)
            = subscriptions_ (set_exclude_paths ∅ st2)). rewrite Hrest. reflexivity. }
  assert (Hc3 : contexts st3 = contexts st2).
  { change (contexts (set_exclude_paths ∅ st3)
            = contexts (set_exclude_paths ∅ st2)). rewrite Hrest. reflexivity. }
  assert (Ht3 : descriptor_inosubctx_ st3 = descriptor_inosubctx_ st2).
  { change (descriptor_inosubctx_ (set_exclude_paths ∅ st3)
            = descriptor_inosubctx_ (set_exclude_paths ∅ st2)).
    rewrite Hrest. reflexivity. }
  pose proof (monitor_all_mark env (subscriptions_ st3) st3)
    as (_ & Hs4 & _ & _ & Hl4 & _).
  assert (Hl3 : ∀ s, is_Some (contexts st3 !! s) ↔ is_Some (contexts st !! s)).
  { intros s. rewrite Hc3. apply Hl2. }
  assert (Hkept : ∀ sub, In sub (subscriptions_ st3) → In sub (subscriptions_ st)).
  { intros sub. rewrite Hs3, Hs2. subst st1 kept. cbn [subscriptions_ set_subscriptions].
    intros Hin. apply List.filter_In in Hin. tauto. }
  split; [|split].
  - apply monitor_all_table_wf.
    + intros sub Hin. apply Hl3, Hsl, Hkept, Hin.
    + apply (table_wf_same st2); [exact Ht3 | |].
      * intros s. unfold deref. rewrite Hc3. reflexivity.
      * apply purge_all_table_wf. apply (table_wf_same st); auto.
  - intros s. rewrite Hl4. apply Hl3.
  - intros sub. rewrite Hs4. apply Hkept.
Qed.

Lemma mark_fold_table_wf (subscriber : string) (subs : list Subscription)
    (st : Publisher) :
  table_wf st →
  let st' :=
    fold_left
      (fun s sub =>
         if String.eqb (subscriber_name sub) subscriber then
           upd_ctx (context sub) (set_mark_for_deletion true) s
         else s) subs st in
  table_wf st'
  ∧ subscriptions_ st' = subscriptions_ st
  ∧ ∀ s, is_Some (contexts st' !! s) ↔ is_Some (contexts st !! s).
Proof.
  revert st. induction subs as [|sub subs IH]; intros st Hwf; cbv zeta;
    cbn [fold_left]; [split; [exact Hwf | split; [reflexivity | tauto]]|].
  destruct (String.eqb (subscriber_name sub) subscriber); [|apply IH, Hwf].
  destruct (IH (upd_ctx (context sub) (set_mark_for_deletion true) st))
    as (Hwf' & Hs & Hl); [apply table_wf_upd_ctx; [reflexivity | exact Hwf]|].
  split; [exact Hwf' | split; [exact Hs|]].
  intros s. rewrite Hl. apply upd_ctx_live.
Qed.

Lemma run_subscriptions (env : Env) (poll : PollResult) (rd : ReadResult)
    (st : Publisher) :
  subscriptions_ (snd (run env poll rd st)) = subscriptions_ st
  ∧ ∀ s, is_Some (contexts (snd (run env poll rd st)) !! s)
         ↔ is_Some (contexts st !! s).
Proof.
  unfold run.
  destruct poll as [[|]| |[|]]; cbn [fst snd]; try (split; [reflexivity | tauto]).
  destruct rd as [|evs]; [split; [reflexivity | tauto]|].
  pose proof (process_records_frame env evs st) as (_ & Hs & _ & _ & Hl & _).
  destruct (process_records env evs st) as [completed st1]. cbn [snd] in *.
  split; assumption.
Qed.

(** What one call keeps: the table resolvable, the subscriptions' contexts
    live, every context live; and [run] is not left by an exception. *)
Lemma apply_call_table_wf (c : Call) (st : Publisher) :
  table_wf st → subscriptions_live st → call_live st c →
  ∃ st', apply_call c st = Some st'
         ∧ table_wf st' ∧ subscriptions_live st'
         ∧ ∀ s, is_Some (contexts st !! s) → is_Some (contexts st' !! s).
Proof.
  intros Hwf Hsl Hc.
  destruct c as [init_result malloc_result | env patterns | sc_equal subscription
                | subscriber | env poll rd | ]; cbn [apply_call call_live] in *.
  - eexists; split; [reflexivity|]. unfold setUp. cbv zeta.
    destruct (inotify_handle_ (set_handle init_result st) =? -1);
      [cbn [snd]; repeat split; auto|].
    destruct (scratch_ (set_scratch malloc_result (set_handle init_result st)));
      cbn [snd]; repeat split; auto.
  - eexists; split; [reflexivity|].
    destruct (configure_table_wf env patterns st Hwf Hsl) as (Hwf' & Hl & Hin).
    split; [exact Hwf' | split].
    + intros sub Hsub. apply Hl, Hsl, Hin, Hsub.
    + intros s. apply Hl.
  - eexists; split; [reflexivity|]. unfold addSubscription. cbv zeta.
    destruct (List.find _ (subscriptions_ st)) as [sub|].
    + destruct (mark_for_deletion (deref st (context sub))); cbn [snd];
        [|repeat split; auto].
      split; [apply table_wf_upd_ctx; [reflexivity | exact Hwf]|].
      split; [intros x Hx; apply upd_ctx_live, Hsl, Hx|].
      intros s. apply upd_ctx_live.
    + cbn [snd]. split; [exact Hwf | split; [|auto]].
      intros x Hx. cbn [subscriptions_ set_subscriptions] in Hx.
      apply in_app_or in Hx as [Hx | [<- | []]]; [apply Hsl, Hx | exact Hc].
  - eexists; split; [reflexivity|]. unfold removeSubscriptions.
    destruct (mark_fold_table_wf subscriber (subscriptions_ st) st Hwf)
      as (Hwf' & Hs & Hl).
    split; [exact Hwf' | split].
    + intros x Hx. rewrite Hs in Hx. apply Hl, Hsl, Hx.
    + intros s. apply Hl.
  - destruct (run_table_wf env poll rd st Hwf) as ([status Hst] & Hwf').
    pose proof (run_subscriptions env poll rd st) as (Hs & Hl).
    destruct (run env poll rd st) as [o st']. cbn [fst snd] in *. subst o.
    eexists; split; [reflexivity|]. split; [exact Hwf'|].
    split; [|intros s; apply Hl].
    intros x Hx. rewrite Hs in Hx. apply Hl, Hsl, Hx.
  - eexists; split; [reflexivity|]. unfold tearDown. cbv zeta.
    destruct (inotify_handle_ st >? -1);
      match goal with |- context [scratch_ ?x] => destruct (scratch_ x) end;
      repeat split; auto.
Qed.

Lemma run_calls_table_wf (cs : list Call) (st : Publisher) :
  table_wf st → subscriptions_live st → Forall (call_live st) cs →
  ∃ st', run_calls cs st = Some st' ∧ table_wf st' ∧ subscriptions_live st'.
Proof.
  revert st. induction cs as [|c cs IH]; intros st Hwf Hsl Hcs;
    cbn [run_calls]; [eauto|].
  inversion Hcs as [|? ? Hc Hrest]; subst.
  destruct (apply_call_table_wf c st Hwf Hsl Hc) as (st1 & -> & Hwf1 & Hsl1 & Hl1).
  apply IH; [exact Hwf1 | exact Hsl1 |].
  eapply Forall_impl; [exact Hrest|].
  intros x Hx. destruct x; cbn [call_live] in *; auto.
Qed.

(** X19: starting from a publisher with an empty watch table, no sequence of
    calls to setUp, configure, addSubscription, removeSubscriptions, run and
    tearDown leaves [run] by the exception of [createEventContextFrom]: every
    descriptor of the watch table keeps a path in its owner's descriptor
    map, whatever the kernel and the filesystem answer.  The subscription
    list and the subscriptions handed to addSubscription refer to live
    contexts. *)
Theorem run_never_throws (cs : list Call) (st : Publisher) :
  descriptor_inosubctx_ st = ∅ → subscriptions_live st →
  Forall (call_live st) cs →
  ∃ st', run_calls cs st = Some st' ∧ table_wf st'.
Proof.
  intros Hempty Hsl Hcs.
  destruct (run_calls_table_wf cs st) as (st' & Hrun & Hwf & _);
    [|exact Hsl|exact Hcs|eauto].
  intros d [isc Hd]. rewrite Hempty, lookup_empty in Hd. discriminate.
Qed.

Lemma run_never_throws_witness :
  let st := Sample.publisher false 16 "/etc/**" in
  let cs := [CallConfigure Sample.env [];
             CallRun Sample.env (PollReady true)
               (ReadRecords [Sample.record 1 IN_CREATE "ssh";
                             Sample.record 3 IN_MODIFY "sshd_config";
                             Sample.record 1 IN_IGNORED ""]);
             CallRemoveSubscriptions "file_events";
             CallConfigure Sample.env [];
             CallTearDown] in
  descriptor_inosubctx_ st = ∅ ∧ is_Some (run_calls cs st).
Proof.
  cbv zeta. split; [reflexivity|].
  destruct (run_never_throws
              [CallConfigure Sample.env [];
               CallRun Sample.env (PollReady true)
                 (ReadRecords [Sample.record 1 IN_CREATE "ssh";
                               Sample.record 3 IN_MODIFY "sshd_config";
                               Sample.record 1 IN_IGNORED ""]);
               CallRemoveSubscriptions "file_events";
               CallConfigure Sample.env [];
               CallTearDown]
              (Sample.publisher false 16 "/etc/**")) as (st' & -> & _).
  - reflexivity.
  - intros sub [<- | []]. cbn. eauto.
  - repeat constructor.
  - eauto.
Defined.

(** * Resolution of a pattern and re-installation of a watch *)

(** ** monitorSubscription: the recursive marker *)

(** C6 (as amended): when the pattern of a subscription contains the
    recursive marker, the first block of [monitorSubscription] sets the
    recursive flag and replaces the pattern by the text before the first
    marker, which holds no marker.  When [monitorSubscription] returns the
    flag is set and the pattern is that prefix, followed by one separator
    exactly when the prefix has no wildcard, is a directory and does not
    end in a separator; it holds no marker. *)
Theorem monitorSubscription_strips_recursive_marker
    (env : Env) (sc : SubId) (add_watch : bool) (st : Publisher)
    (c : INotifySubscriptionContext) (i : nat) :
  contexts st !! sc = Some c →
  Str.find "**" (sc_path c) = Some i →
  let prefix := String.substring 0 i (sc_path c) in
  let st1 := strip_recursive_marker sc st in
  let st' := snd (monitorSubscription env sc add_watch st) in
  (sc_recursive (deref st1 sc) = true
   ∧ sc_path (deref st1 sc) = prefix
   ∧ Str.find "**" prefix = None)
  ∧ sc_recursive (deref st' sc) = true
  ∧ sc_path (deref st' sc)
    = (if negb (Str.found (Str.find_char "*" prefix)) && isDirectory env prefix
          && negb (Str.back_is "/" prefix)
       then prefix +:+ "/" else prefix)
  ∧ Str.find "**" (sc_path (deref st' sc)) = None.
Proof.
  intros Hc Hi. cbv zeta.
  pose proof (strip_recursive_marker_found sc st c i Hc Hi) as H1.
  pose proof (find_marker_prefix_clean _ _ Hi) as Hclean.
  destruct (monitorSubscription_pattern env sc add_watch st) as (Hrec & _);
    [eauto|].
  pose proof (monitorSubscription_path env sc add_watch st) as Hpath.
  cbv zeta in Hpath. rewrite H1 in Hrec, Hpath.
  cbn [sc_recursive sc_path set_sc_path set_sc_recursive] in Hrec, Hpath.
  split; [rewrite H1; repeat split; assumption|].
  split; [exact Hrec|]. rewrite Hpath by eauto. split; [reflexivity|].
  destruct (_ && _); [apply find_marker_append_slash|]; exact Hclean.
Qed.

(** ["/etc/**"] becomes the recursive subscription on ["/etc/"]. *)
Lemma monitorSubscription_strips_recursive_marker_witness :
  let st := Sample.publisher false 16 "/etc/**" in
  let st' := snd (monitorSubscription Sample.env 0%nat true st) in
  sc_recursive (deref st' 0%nat) = true
  ∧ sc_path (deref st' 0%nat) = "/etc/"
  ∧ Str.find "**" (sc_path (deref st' 0%nat)) = None.
Proof.
  cbv zeta.
  destruct (monitorSubscription_strips_recursive_marker Sample.env 0%nat true
              (Sample.publisher false 16 "/etc/**") (Sample.sub_on "/etc/**")
              5%nat)
    as (_ & Hrec & Hpath & Hclean); [reflexivity | reflexivity |].
  split; [exact Hrec|]. split; [rewrite Hpath; vm_compute; reflexivity | exact Hclean].
Defined.

(** C6 (as stated) fails: the marker of ["/etc**"] follows the name of a
    directory, the prefix before it is ["/etc"], and the pattern
    [monitorSubscription] leaves is ["/etc/"]. *)
Lemma marker_after_directory_name_gets_separator :
  let st := Sample.publisher false 16 "/etc**" in
  let st' := snd (monitorSubscription Sample.env 0%nat true st) in
  Str.find "**" "/etc**" = Some 4%nat
  ∧ String.substring 0 4 "/etc**" = "/etc"
  ∧ sc_recursive (deref st' 0%nat) = true
  ∧ sc_path (deref st' 0%nat) = "/etc/"
  ∧ sc_path (deref st' 0%nat) ≠ "/etc".
Proof. vm_compute. repeat split; try reflexivity. discriminate. Qed.

(** ** monitorSubscription: a wildcard in the final segment *)

Lemma addMonitor_fst (env : Env) (path : string) (isc : SubId) (m : Z)
    (recursive add_watch : bool) (st : Publisher) :
  fst (addMonitor env path isc m recursive add_watch st)
  = negb (add_watch && (inotify_add_watch env path =? -1)).
Proof.
  unfold addMonitor, addMonitor_locked.
  destruct (add_watch && (inotify_add_watch env path =? -1)); cbn [negb];
    [reflexivity|].
  destruct (recursive && isDirectory env path); reflexivity.
Qed.

(** The kernel requests of [addMonitor], whether or not the kernel grants
    the first one. *)
Lemma addMonitor_paths (env : Env) (path : string) (isc : SubId) (m : Z)
    (recursive add_watch : bool) (st : Publisher) :
  add_watch_paths (trace (snd (addMonitor env path isc m recursive add_watch st)))
  = add_watch_paths (trace st)
    ++ path
       :: (if negb (add_watch && (inotify_add_watch env path =? -1))
              && recursive && isDirectory env path
           then map (fun child => canonical env child +:+ "/")
                  (listDirectoriesInDirectory env path)
           else []).
Proof.
  unfold addMonitor.
  pose proof (addMonitor_locked_paths env path isc m add_watch st) as H1.
  assert (Hok : fst (addMonitor_locked env path isc m add_watch st)
                = negb (add_watch && (inotify_add_watch env path =? -1))).
  { unfold addMonitor_locked.
    destruct (add_watch && (inotify_add_watch env path =? -1)); reflexivity. }
  destruct (addMonitor_locked env path isc m add_watch st) as [ok st1].
  cbn [fst snd] in *. rewrite <- Hok.
  destruct ok; cbn [negb andb snd]; [|exact H1].
  destruct (recursive && isDirectory env path); cbn [snd]; [|exact H1].
  assert (Hfold : ∀ children s,
            add_watch_paths
              (trace
                 (fold_left
                    (fun s0 child =>
                       snd (addMonitor_locked env (canonical env child +:+ "/")
                              isc m default_add_watch s0)) children s))
            = add_watch_paths (trace s)
              ++ map (fun child => canonical env child +:+ "/") children).
  { induction children as [|x l IH]; intros s; cbn [fold_left map].
    - rewrite app_nil_r. reflexivity.
    - rewrite IH, addMonitor_locked_paths, <- app_assoc. reflexivity. }
  rewrite Hfold, H1, <- app_assoc. reflexivity.
Qed.

(** The three ways [needMonitoring] ends: [stat] fails; the change time is
    the cached one; the change time differs and a watch is requested. *)
Lemma needMonitoring_cases (env : Env) (path : string) (isc : SubId) (m : Z)
    (recursive add_watch : bool) (st : Publisher) :
  let r := needMonitoring env path isc m recursive add_watch st in
  let installed := negb (add_watch && (inotify_add_watch env path =? -1)) in
  (stat_ctime env path = None →
   fst r = false
   ∧ trace (snd r) = trace st ++ [LogWarning ("Failed to do stat on: " +:+ path)])
  ∧ (∀ ct, stat_ctime env path = Some ct →
       (cached_ctime (deref st isc) path = ct →
        fst r = true ∧ trace (snd r) = trace st)
       ∧ (cached_ctime (deref st isc) path ≠ ct →
          fst r = installed
          ∧ add_watch_paths (trace (snd r))
            = add_watch_paths (trace st)
              ++ path
                 :: (if installed && sc_recursive (deref st isc)
                        && isDirectory env path
                     then map (fun child => canonical env child +:+ "/")
                            (listDirectoriesInDirectory env path)
                     else []))).
Proof.
  cbv zeta. unfold needMonitoring.
  pose proof (index_or_create_fst 0 path (path_sc_time_ (deref st isc))) as Hc.
  destruct (index_or_create 0 path (path_sc_time_ (deref st isc))) as [t times].
  cbn [fst] in Hc. fold (cached_ctime (deref st isc) path) in Hc. subst t.
  set (st1 := upd_ctx isc (upd_path_sc_time (fun _ => times)) st).
  split.
  - intros ->. cbn. split; reflexivity.
  - intros ct ->. split.
    + intros ->. rewrite Z.eqb_refl. cbn. split; reflexivity.
    + intros Hdiff.
      destruct (Z.eqb_spec (cached_ctime (deref st isc) path) ct) as [E|_];
        [contradiction|]. cbn [negb].
      assert (Hr : sc_recursive (deref st1 isc) = sc_recursive (deref st isc)).
      { assert (H1 : frame not_callback st st1) by (subst st1; frame_chain).
        destruct H1 as (_&_&_&_&_&Hp&_). apply (Hp isc). }
      pose proof (addMonitor_fst env path isc (sc_mask (deref st1 isc))
                    (sc_recursive (deref st1 isc)) add_watch st1) as Hfst.
      pose proof (addMonitor_paths env path isc (sc_mask (deref st1 isc))
                    (sc_recursive (deref st1 isc)) add_watch st1) as Hpaths.
      destruct (addMonitor env path isc (sc_mask (deref st1 isc))
                  (sc_recursive (deref st1 isc)) add_watch st1) as [rc st2].
      cbn [fst snd] in Hfst, Hpaths. rewrite Hr in Hpaths.
      destruct rc; cbn [fst snd]; (split; [exact Hfst | exact Hpaths]).
Qed.

(** C7 (as amended): for a subscription whose pattern has no recursive
    marker and has a wildcard in its final segment and none in its parent
    path, [monitorSubscription] is [needMonitoring] on the parent path with a
    trailing separator, and the stored pattern is the same afterwards.
    Whether the kernel is asked depends on [stat]: when [stat] fails on the
    parent a warning is logged, the result is false and nothing is
    requested; when the change time is the one cached for the parent (0 if
    none is cached) the result is true and nothing is requested; when it
    differs the kernel is asked for a watch on the parent first, and then
    only on the directories listed below the parent, if the installation
    succeeds and the subscription is recursive. *)
Theorem leaf_wildcard_watches_parent
    (env : Env) (sc : SubId) (add_watch : bool) (st : Publisher)
    (c : INotifySubscriptionContext) :
  contexts st !! sc = Some c →
  Str.find "**" (sc_path c) = None →
  Str.found (Str.find_char "*" (sc_path c)) = true →
  Str.found (Str.find_char "*" (fs_filename env (sc_path c))) = true →
  Str.found (Str.find_char "*" (fs_parent_path env (sc_path c) +:+ "/")) = false →
  let dir := fs_parent_path env (sc_path c) +:+ "/" in
  let r := monitorSubscription env sc add_watch st in
  let installed := negb (add_watch && (inotify_add_watch env dir =? -1)) in
  r = needMonitoring env dir sc (sc_mask c) (sc_recursive c) add_watch st
  ∧ sc_path (deref (snd r) sc) = sc_path c
  ∧ (stat_ctime env dir = None →
     fst r = false
     ∧ trace (snd r) = trace st ++ [LogWarning ("Failed to do stat on: " +:+ dir)])
  ∧ (∀ ct, stat_ctime env dir = Some ct →
       (cached_ctime c dir = ct → fst r = true ∧ trace (snd r) = trace st)
       ∧ (cached_ctime c dir ≠ ct →
          fst r = installed
          ∧ (∃ rest,
               trace (snd r)
               = trace st
                 ++ SysAddWatch (inotify_handle_ st) dir (kernel_mask (sc_mask c))
                    :: rest)
          ∧ add_watch_paths (trace (snd r))
            = add_watch_paths (trace st)
              ++ dir
                 :: (if installed && sc_recursive c && isDirectory env dir
                     then map (fun child => canonical env child +:+ "/")
                            (listDirectoriesInDirectory env dir)
                     else []))).
Proof.
  intros Hc Hnomark Hwild Hleaf Hparent. cbv zeta.
  assert (Hd : deref st sc = c) by (unfold deref; rewrite Hc; reflexivity).
  assert (Heq : monitorSubscription env sc add_watch st
                = needMonitoring env (fs_parent_path env (sc_path c) +:+ "/") sc
                    (sc_mask c) (sc_recursive c) add_watch st).
  { unfold monitorSubscription. cbv zeta.
    rewrite strip_recursive_marker_absent by (rewrite Hd; exact Hnomark).
    rewrite Hd, Hwild. unfold leaf_discovered. rewrite Hleaf, Hparent.
    cbn [andb]. rewrite back_is_append_slash, andb_false_r. reflexivity. }
  split; [exact Heq|]. rewrite Heq.
  pose proof (needMonitoring_cases env (fs_parent_path env (sc_path c) +:+ "/")
                sc (sc_mask c) (sc_recursive c) add_watch st) as (Hfail & Hstat).
  cbv zeta in Hfail, Hstat. rewrite Hd in Hstat.
  split; [|split; [exact Hfail|]].
  - pose proof (needMonitoring_frame env (fs_parent_path env (sc_path c) +:+ "/")
                  sc (sc_mask c) (sc_recursive c) add_watch st)
      as (_&_&_&_&_&Hp&_).
    destruct (Hp sc) as (Hpath & _). rewrite Hpath, Hd. reflexivity.
  - intros ct Hct. destruct (Hstat ct Hct) as (Hsame & Hdiff).
    split; [exact Hsame|]. intros Hne. destruct (Hdiff Hne) as (Hfst & Hpaths).
    split; [exact Hfst|]. split; [|exact Hpaths].
    destruct (needMonitoring_requests env
                (fs_parent_path env (sc_path c) +:+ "/") sc (sc_mask c)
                (sc_recursive c) add_watch st ct Hct) as (rest & Hr).
    + rewrite Hd. exact Hne.
    + exists rest. rewrite Hr, Hd. reflexivity.
Qed.

(** ["/etc/*.conf"] is watched through ["/etc/"], and stays the pattern. *)
Lemma leaf_wildcard_watches_parent_witness :
  let st := Sample.publisher false 16 "/etc/*.conf" in
  let r := monitorSubscription Sample.env 0%nat true st in
  sc_path (deref (snd r) 0%nat) = "/etc/*.conf"
  ∧ fst r = true
  ∧ add_watch_paths (trace (snd r)) = ["/etc/"].
Proof.
  cbv zeta.
  destruct (leaf_wildcard_watches_parent Sample.env 0%nat true
              (Sample.publisher false 16 "/etc/*.conf")
              (Sample.sub_on "/etc/*.conf"))
    as (_ & Hpath & _ & Hreq);
    [reflexivity | reflexivity | reflexivity | reflexivity | reflexivity |].
  split; [exact Hpath|].
  destruct (Hreq 1700000000) as (_ & Hdiff); [reflexivity|].
  destruct Hdiff as (Hfst & _ & Hpaths); [vm_compute; discriminate|].
  split; [rewrite Hfst; vm_compute; reflexivity|].
  rewrite Hpaths. vm_compute. reflexivity.
Defined.

(** C7 (as stated) fails: resolution does not always request the watch on
    the parent.  The parent of ["/nowhere/*.conf"] cannot be examined:
    resolution returns false, logs the failure and asks the kernel for
    nothing.  And once ["/etc/*.conf"] has been resolved, resolving it
    again while the parent's change time is the same asks for nothing. *)
Lemma leaf_wildcard_without_request :
  let missing :=
    monitorSubscription Sample.env 0%nat true
      (Sample.publisher false 16 "/nowhere/*.conf") in
  let once :=
    snd (monitorSubscription Sample.env 0%nat true
           (Sample.publisher false 16 "/etc/*.conf")) in
  let again := monitorSubscription Sample.env 0%nat true once in
  fst missing = false
  ∧ trace (snd missing) = [LogWarning "Failed to do stat on: /nowhere/"]
  ∧ add_watch_paths (trace (snd missing)) = []
  ∧ add_watch_paths (trace once) = ["/etc/"]
  ∧ fst again = true
  ∧ trace (snd again) = trace once.
Proof. vm_compute. repeat split; reflexivity. Qed.

(** ** Re-installing a watch: the descriptors of a path *)








